(** * Quota reservation and provider fallback of the nanobanana Telegram bot

    A shallow embedding of the quota store ([userLimits]: the functions
    [reserveGenerationSlot], [releaseReservedSlot], [getUserStats]), of the
    fallback executor [generateNanoBananoImage] and of the two workflow steps
    of [telegramBotWorkflow], with the properties the specification states
    about them.

    Asynchronous TypeScript functions are embedded as trees of effects
    ([prog]): every [await] on the outside world (the pg pool, a SQL
    statement, a generation backend, the Telegram API) is one [Do] node whose
    continuation receives what the call returned or the exception it threw.
    One interpreter ([run]) executes a tree sequentially against a [world];
    a second one ([run_schedule]) interleaves several trees at their awaits,
    which is how the Node.js event loop runs concurrent requests. *)

From stdpp Require Import gmap strings list pretty.

Open Scope string_scope.
Open Scope list_scope.
Open Scope Z_scope.

(** ** Data model *)

(** A row of the [users] table (the primary key [user_id] is the map key). *)
Record user_row := {
  username : string;
  daily_image_count : Z;
  last_reset_date : Z          (* a DATE, as a day number *)
}.

(** A row of the [image_generations] table. *)
Record generation_row := {
  gen_id : Z;
  gen_user_id : string;
  gen_prompt : string;
  gen_image_url : string
}.

(** What a generation method of nanoBananoGenerator.ts resolves to:
    [{success: boolean, imageBase64?: string, message?: string}]. *)
Record method_result := {
  mr_success : bool;
  mr_imageBase64 : option string;
  mr_message : option string
}.

(** [HubaiGeminiResult] of hubaiGeminiGenerator. *)
Record HubaiGeminiResult := {
  hg_success : bool;
  hg_imageBase64 : option string;
  hg_description : option string;
  hg_error : option string
}.

(** The part of a Telegram Bot API answer that step2 reads: [response.ok],
    [result.description] and [result.result?.message_id]. *)
Record telegram_response := {
  tg_ok : bool;
  tg_description : option string;
  tg_message_id : option Z
}.

(** The four entries of [generationMethods], in source order. *)
Inductive generation_method :=
| tryOpenAIImagesAPI
| tryGeminiWithImagePrompt
| tryHuggingFaceAPI
| tryDeepAIGeneration.

(** JavaScript truthiness of an optional string ([undefined] and [""] are
    falsy). *)
Definition truthy (s : option string) : bool :=
  match s with
  | Some s => negb (String.eqb s "")
  | None => false
  end.

(** [a || b] on an optional string with a string default. *)
Definition or_else (s : option string) (d : string) : string :=
  match s with
  | Some s => if String.eqb s "" then d else s
  | None => d
  end.

(** ** Effects *)

(** A thrown value, reduced to its message
    ([error instanceof Error ? error.message : String(error)]). *)
Definition error := string.

Inductive outcome (X : Type) : Type :=
| Returned (x : X)
| Thrown (e : error).
Arguments Returned {X} x.
Arguments Thrown {X} e.

(** One constructor per call that leaves the function: the index is the type
    of the value the call resolves to. *)
Inductive op : Type -> Type :=
(* pg: [getDbPool(); await pool.connect()], [client.release()] and the four
   SQL statements of userLimits *)
| PoolConnect : op unit
| ClientRelease : op unit
| SqlUpsertUser (userId uname : string) : op unit
| SqlReserveSlot (userId : string) (dailyLimit : Z) : op (option Z)
| SqlReleaseSlot (userId : string) : op (list Z)
| SqlSelectStats (userId : string) : op (list Z)
(* server/storage *)
| upsertUser (userId uname : string) : op unit
| isAdminUser (userId : string) : op bool
| hasReachedDailyLimit (userId : string) : op bool
| saveImageGeneration (userId prompt imageUrl : string) : op unit
| incrementUserImageCount (userId : string) : op (option user_row)
(* the process *)
| ProcessEnv (name : string) : op (option string)
| DateNow : op Z
| ConsoleLog (text detail : string) : op unit
| ConsoleError (text detail : string) : op unit
(* generation backends *)
| CallMethod (m : generation_method) (prompt : string)
    (sourceImages : option (list string)) : op method_result
| generateImageWithHubaiGemini (prompt : string)
    (sourceImages : option (list string)) : op HubaiGeminiResult
(* temporary files of the workflow *)
| WriteTempFile (imageBase64 : string) : op string
| ReadTempFile (path : string) : op string
| UnlinkTempFile (path : string) : op unit
(* Telegram Bot API *)
| SendPhoto (chatId image : string) (replyTo : option string) : op telegram_response
| SendMessage (chatId text : string) (replyTo : option string) : op telegram_response
| ForwardMessage (toChat fromChat : string) (messageId : option Z) : op unit.

(** A function body: it returns, throws, or awaits a call and goes on with
    its outcome. *)
Inductive prog (A : Type) : Type :=
| Ret (a : A)
| Throw (e : error)
| Do {X : Type} (o : op X) (k : outcome X -> prog A).
Arguments Ret {A} a.
Arguments Throw {A} e.
Arguments Do {A X} o k.

Fixpoint bind {A B : Type} (p : prog A) (f : A -> prog B) : prog B :=
  match p with
  | Ret a => f a
  | Throw e => Throw e
  | Do o k => Do o (fun r => bind (k r) f)
  end.

#[export] Instance prog_ret : MRet prog := @Ret.
#[export] Instance prog_bind : MBind prog := fun A B f p => bind p f.

(** [await f(...)]: an exception of the call propagates. *)
Definition await {X : Type} (o : op X) : prog X :=
  Do o (fun r => match r with Returned x => Ret x | Thrown e => Throw e end).

(** [try { p } catch (error) { h error }] *)
Fixpoint try_catch {A : Type} (p : prog A) (h : error -> prog A) : prog A :=
  match p with
  | Ret a => Ret a
  | Throw e => h e
  | Do o k => Do o (fun r => try_catch (k r) h)
  end.

(** [try { p } finally { f }]: [f] runs on both exits; an exception of [f]
    replaces the pending result. *)
Fixpoint try_finally {A : Type} (p : prog A) (f : prog unit) : prog A :=
  match p with
  | Ret a => bind f (fun _ => Ret a)
  | Throw e => bind f (fun _ => Throw e)
  | Do o k => Do o (fun r => try_finally (k r) f)
  end.

(** ** The world a request runs in *)

Inductive call : Type :=
| Call {X : Type} (o : op X).

(** What the outside answers, fixed in advance. [fault n = Some e] makes the
    [n]-th call of the run (counted from 0 over the whole trace) throw [e]
    when that call is one that can fail. A generation method answers with a
    result or with an exception of its own ([method_reply]). *)
Record environment := {
  fault : nat -> option error;
  process_env : string -> option string;
  date_now : Z;
  admin_users : list string;
  storage_limit_reached : string -> bool;
  method_reply : generation_method -> outcome method_result;
  hubai_reply : HubaiGeminiResult;
  temp_path : string;
  temp_content : string -> string;
  send_photo_reply : telegram_response;
  send_message_reply : telegram_response
}.

Record world := {
  users : gmap string user_row;
  generations : list generation_row;
  today : Z;                    (* CURRENT_DATE *)
  env : environment;
  trace : list call             (* every call made so far, oldest first *)
}.

Definition set_users (t : gmap string user_row) (w : world) : world :=
  {| users := t; generations := generations w; today := today w;
     env := env w; trace := trace w |}.

Definition set_generations (g : list generation_row) (w : world) : world :=
  {| users := users w; generations := g; today := today w;
     env := env w; trace := trace w |}.

Definition record_call (c : call) (w : world) : world :=
  {| users := users w; generations := generations w; today := today w;
     env := env w; trace := trace w ++ [c] |}.

(** ** The SQL statements of userLimits, as functions on the [users] table

    Each statement is executed by PostgreSQL as one atomic step. *)

(** [INSERT INTO users ... VALUES ($1, $2, 0, CURRENT_DATE)
     ON CONFLICT (user_id) DO UPDATE SET username = EXCLUDED.username,
       daily_image_count = CASE WHEN users.last_reset_date < CURRENT_DATE
                                THEN 0 ELSE users.daily_image_count END,
       last_reset_date = CASE WHEN users.last_reset_date < CURRENT_DATE
                              THEN CURRENT_DATE ELSE users.last_reset_date END] *)
Definition sql_upsert_user (current_date : Z) (userId uname : string)
    (t : gmap string user_row) : gmap string user_row :=
  match t !! userId with
  | None =>
      <[userId := {| username := uname; daily_image_count := 0;
                     last_reset_date := current_date |}]> t
  | Some r =>
      <[userId := {| username := uname;
                     daily_image_count :=
                       if last_reset_date r <? current_date then 0
                       else daily_image_count r;
                     last_reset_date :=
                       if last_reset_date r <? current_date then current_date
                       else last_reset_date r |}]> t
  end.

(** [UPDATE users SET daily_image_count = daily_image_count + 1
     WHERE user_id = $1 AND daily_image_count < $2
     RETURNING daily_image_count as final_count]; the second component is
    [result.rows[0]]. *)
Definition sql_reserve_slot (userId : string) (dailyLimit : Z)
    (t : gmap string user_row) : gmap string user_row * option Z :=
  match t !! userId with
  | Some r =>
      if daily_image_count r <? dailyLimit then
        (<[userId := {| username := username r;
                        daily_image_count := daily_image_count r + 1;
                        last_reset_date := last_reset_date r |}]> t,
         Some (daily_image_count r + 1))
      else (t, None)
  | None => (t, None)
  end.

(** [UPDATE users SET daily_image_count = GREATEST(daily_image_count - 1, 0)
     WHERE user_id = $1 AND last_reset_date = CURRENT_DATE
       AND daily_image_count > 0
     RETURNING daily_image_count]; the second component is [result.rows]. *)
Definition sql_release_slot (current_date : Z) (userId : string)
    (t : gmap string user_row) : gmap string user_row * list Z :=
  match t !! userId with
  | Some r =>
      if (last_reset_date r =? current_date) && (0 <? daily_image_count r) then
        (<[userId := {| username := username r;
                        daily_image_count := Z.max (daily_image_count r - 1) 0;
                        last_reset_date := last_reset_date r |}]> t,
         [Z.max (daily_image_count r - 1) 0])
      else (t, [])
  | None => (t, [])
  end.

(** [SELECT user_id, username,
       CASE WHEN last_reset_date < CURRENT_DATE THEN 0
            ELSE daily_image_count END as current_count
     FROM users WHERE user_id = $1]; the [current_count] of [result.rows]. *)
Definition sql_select_stats (current_date : Z) (userId : string)
    (t : gmap string user_row) : list Z :=
  match t !! userId with
  | Some r =>
      [if last_reset_date r <? current_date then 0 else daily_image_count r]
  | None => []
  end.

(** ** server/storage

    The module is imported by the sources but is not among them; its
    functions are modelled from the specification and the repository's
    database notes. *)

(** Modelled from the spec: [upsertUser] of server/storage.ts is missing.
    Section 3: "created on first interaction (upsert semantics, insert if
    absent, update display name if present)", with the count starting at 0. *)
Definition storage_upsert_user (current_date : Z) (userId uname : string)
    (t : gmap string user_row) : gmap string user_row :=
  match t !! userId with
  | None =>
      <[userId := {| username := uname; daily_image_count := 0;
                     last_reset_date := current_date |}]> t
  | Some r =>
      <[userId := {| username := uname;
                     daily_image_count := daily_image_count r;
                     last_reset_date := last_reset_date r |}]> t
  end.

(** Modelled from the spec: [incrementUserImageCount] of server/storage.ts is
    missing. It is the "final usage increment" of section 2, on the
    [daily_image_count] column of the users table of section 6, under the
    lazy reset of section 3: a record last reset before today counts as 0
    before the increment. The sources agree: nanoBananoGenerator.ts calls it
    to increase the daily counter of the user and reads [daily_image_count]
    off the row it resolves to, and the database notes of the repository
    describe it as "Increment user's daily count". It resolves to the updated
    row, or to [undefined] when the user has no row. *)
Definition storage_increment (current_date : Z) (userId : string)
    (t : gmap string user_row) : gmap string user_row * option user_row :=
  match t !! userId with
  | Some r =>
      let r' :=
        {| username := username r;
           daily_image_count :=
             (if last_reset_date r <? current_date then 0
              else daily_image_count r) + 1;
           last_reset_date :=
             if last_reset_date r <? current_date then current_date
             else last_reset_date r |} in
      (<[userId := r']> t, Some r')
  | None => (t, None)
  end.

(** Modelled from the spec: [saveImageGeneration] of server/storage.ts is
    missing. Section 4.5: a single insert into the append-only history, with
    an auto-assigned sequential id. *)
Definition storage_save_generation (userId prompt imageUrl : string)
    (g : list generation_row) : list generation_row :=
  g ++ [{| gen_id := Z.of_nat (length g) + 1; gen_user_id := userId;
           gen_prompt := prompt; gen_image_url := imageUrl |}].

(** ** Executing a call *)

(** Calls that cannot throw: synchronous reads of the process and
    [client.release()]. Every other call is I/O and may fail. *)
Definition can_fail {X : Type} (o : op X) : bool :=
  match o with
  | ClientRelease | isAdminUser _ | ProcessEnv _ | DateNow
  | ConsoleLog _ _ | ConsoleError _ _ => false
  | _ => true
  end.

(** What a call does when it does not fail. *)
Definition perform {X : Type} (o : op X) (w : world) : outcome X * world :=
  match o in op X return outcome X * world with
  | PoolConnect => (Returned tt, w)
  | ClientRelease => (Returned tt, w)
  | SqlUpsertUser userId uname =>
      (Returned tt, set_users (sql_upsert_user (today w) userId uname (users w)) w)
  | SqlReserveSlot userId dailyLimit =>
      let result := sql_reserve_slot userId dailyLimit (users w) in
      (Returned result.2, set_users result.1 w)
  | SqlReleaseSlot userId =>
      let result := sql_release_slot (today w) userId (users w) in
      (Returned result.2, set_users result.1 w)
  | SqlSelectStats userId =>
      (Returned (sql_select_stats (today w) userId (users w)), w)
  | upsertUser userId uname =>
      (Returned tt,
       set_users (storage_upsert_user (today w) userId uname (users w)) w)
  | isAdminUser userId =>
      (Returned (bool_decide (userId ∈ admin_users (env w))), w)
  | hasReachedDailyLimit userId =>
      (Returned (storage_limit_reached (env w) userId), w)
  | saveImageGeneration userId prompt imageUrl =>
      (Returned tt,
       set_generations
         (storage_save_generation userId prompt imageUrl (generations w)) w)
  | incrementUserImageCount userId =>
      let result := storage_increment (today w) userId (users w) in
      (Returned result.2, set_users result.1 w)
  | ProcessEnv name => (Returned (process_env (env w) name), w)
  | DateNow => (Returned (date_now (env w)), w)
  | ConsoleLog _ _ => (Returned tt, w)
  | ConsoleError _ _ => (Returned tt, w)
  | CallMethod m _ _ => (method_reply (env w) m, w)
  | generateImageWithHubaiGemini _ _ => (Returned (hubai_reply (env w)), w)
  | WriteTempFile _ => (Returned (temp_path (env w)), w)
  | ReadTempFile path => (Returned (temp_content (env w) path), w)
  | UnlinkTempFile _ => (Returned tt, w)
  | SendPhoto _ _ _ => (Returned (send_photo_reply (env w)), w)
  | SendMessage _ _ _ => (Returned (send_message_reply (env w)), w)
  | ForwardMessage _ _ _ => (Returned tt, w)
  end.

(** One call against the world: it is appended to the trace, and either
    throws, when the environment makes the call at this position fail, or
    takes effect. A failed call changes nothing but the trace. *)
Definition handle {X : Type} (o : op X) (w : world) : outcome X * world :=
  let w1 := record_call (Call o) w in
  match (if can_fail o then fault (env w) (length (trace w)) else None) with
  | Some e => (Thrown e, w1)
  | None => perform o w1
  end.

(** A request running alone, from its first call to its result. *)
Fixpoint run {A : Type} (p : prog A) (w : world) : outcome A * world :=
  match p with
  | Ret a => (Returned a, w)
  | Throw e => (Thrown e, w)
  | Do o k => let '(r, w') := handle o w in run (k r) w'
  end.

(** Requests in flight together. Node.js runs one of them at a time and
    switches between them only at an [await]: a step lets the thread [i]
    perform the call it is waiting on and move to its next [await]. A
    schedule is the order in which the threads take their steps; a thread
    that is finished, or that does not exist, lets its step pass. *)
Definition step_thread {A : Type} (i : nat) (ts : list (prog A)) (w : world)
    : list (prog A) * world :=
  match ts !! i with
  | Some (Do o k) => let '(r, w') := handle o w in (<[i := k r]> ts, w')
  | _ => (ts, w)
  end.

Fixpoint run_schedule {A : Type} (schedule : list nat) (ts : list (prog A))
    (w : world) : list (prog A) * world :=
  match schedule with
  | [] => (ts, w)
  | i :: rest =>
      let '(ts', w') := step_thread i ts w in run_schedule rest ts' w'
  end.

(** ** userLimits *)

Module UserLimits.

(** The advisory texts of [UserLimitResult.message], one constructor per
    template of the source with the values interpolated into it. *)
Inductive advisory :=
| AdminUnlimited                                (* "Администратор - безлимитный доступ" *)
| TrialOver (dailyLimit : Z)                    (* private chat, limit reached *)
| GroupLimitExhausted (dailyLimit privateLimit : Z)
| SlotReserved (remaining dailyLimit : Z)       (* "Слот зарезервирован! Осталось ..." *)
| SlotReservedLast                              (* "... Это ваш последний запрос на сегодня." *)
| ReservationError                              (* "Ошибка резервирования слота. Попробуйте позже." *)
| LimitExceeded (currentCount dailyLimit : Z)   (* getUserStats, limit reached *)
| Used (currentCount dailyLimit remaining : Z). (* getUserStats, below the limit *)

Record UserLimitResult := {
  canGenerate : bool;
  dailyCount : Z;
  remaining : Z;
  isAdmin : bool;
  limitReached : bool;
  message : advisory
}.

Definition DAILY_LIMIT_PRIVATE : Z := 3.
Definition DAILY_LIMIT_GROUP : Z := 30.
Definition ADMIN_USER_ID : string := "6913446846".

(** [(chatType === "private") ? DAILY_LIMIT_PRIVATE : DAILY_LIMIT_GROUP] *)
Definition dailyLimitFor (chatType : string) : Z :=
  if String.eqb chatType "private" then DAILY_LIMIT_PRIVATE
  else DAILY_LIMIT_GROUP.

Definition reserveGenerationSlot (userId uname chatType : string)
    : prog UserLimitResult :=
  _ ← await PoolConnect;
  try_finally
    (try_catch
       (let isAdmin := String.eqb userId ADMIN_USER_ID in
        if isAdmin then
          Ret {| canGenerate := true; dailyCount := 0; remaining := 999;
                 isAdmin := true; limitReached := false;
                 message := AdminUnlimited |}
        else
          let dailyLimit := dailyLimitFor chatType in
          _ ← await (SqlUpsertUser userId uname);
          queryResult ← await (SqlReserveSlot userId dailyLimit);
          let slotReserved :=
            match queryResult with Some _ => true | None => false end in
          let finalCount :=
            match queryResult with
            | Some final_count => final_count
            | None => dailyLimit
            end in
          if negb slotReserved then
            Ret {| canGenerate := false; dailyCount := finalCount;
                   remaining := 0; isAdmin := false; limitReached := true;
                   message :=
                     if String.eqb chatType "private" then TrialOver dailyLimit
                     else GroupLimitExhausted dailyLimit DAILY_LIMIT_PRIVATE |}
          else
            let remaining := Z.max 0 (dailyLimit - finalCount) in
            Ret {| canGenerate := true; dailyCount := finalCount;
                   remaining := remaining; isAdmin := false;
                   limitReached := false;
                   message :=
                     if 0 <? remaining then SlotReserved remaining dailyLimit
                     else SlotReservedLast |})
       (fun error =>
          Ret {| canGenerate := false; dailyCount := 0; remaining := 0;
                 isAdmin := false; limitReached := true;
                 message := ReservationError |}))
    (await ClientRelease).

Definition releaseReservedSlot (userId : string) : prog unit :=
  _ ← await PoolConnect;
  try_finally
    (try_catch
       (let isAdmin := String.eqb userId ADMIN_USER_ID in
        if isAdmin then Ret tt
        else
          rows ← await (SqlReleaseSlot userId);
          Ret tt)
       (fun error => Ret tt))
    (await ClientRelease).

Definition getUserStats (userId chatType : string)
    : prog (option UserLimitResult) :=
  _ ← await PoolConnect;
  try_finally
    (try_catch
       (let isAdmin := String.eqb userId ADMIN_USER_ID in
        if isAdmin then
          Ret (Some {| canGenerate := true; dailyCount := 0; remaining := 999;
                       isAdmin := true; limitReached := false;
                       message := AdminUnlimited |})
        else
          rows ← await (SqlSelectStats userId);
          match rows with
          | [] => Ret None
          | currentCount :: _ =>
              let dailyLimit := dailyLimitFor chatType in
              let remaining := Z.max 0 (dailyLimit - currentCount) in
              let limitReached := dailyLimit <=? currentCount in
              Ret (Some {| canGenerate := negb limitReached;
                           dailyCount := currentCount;
                           remaining := remaining; isAdmin := false;
                           limitReached := limitReached;
                           message :=
                             if limitReached
                             then LimitExceeded currentCount dailyLimit
                             else Used currentCount dailyLimit remaining |})
          end)
       (fun error => Ret None))
    (await ClientRelease).

End UserLimits.

(** ** nanoBananoGenerator *)

Module NanoBanano.

Record NanoBananoRequest := {
  prompt : string;
  userId : string;
  chatId : string;
  username : option string;
  sourceImages : option (list string)
}.

Record NanoBananoResult := {
  success : bool;
  imageBase64 : option string;
  message : string;
  dailyCount : option Z;
  limitReached : bool
}.

(** [generationMethods], by priority. *)
Definition generationMethods : list generation_method :=
  [tryOpenAIImagesAPI; tryGeminiWithImagePrompt; tryHuggingFaceAPI;
   tryDeepAIGeneration].

(** How one turn of the [for] loop ends: the function returns, or the loop
    goes on to the next method with a new [lastError]. *)
Inductive iteration :=
| Return (r : NanoBananoResult)
| Continue (lastError : string).

(** The body of [for (const method of generationMethods)], its [try] and its
    [catch]. The two writes to the database after a successful generation sit
    inside the same [try] as the call of the method. *)
Definition loop_body (request : NanoBananoRequest) (m : generation_method)
    : prog iteration :=
  try_catch
    (result ← await (CallMethod m (prompt request) (sourceImages request));
     if mr_success result && truthy (mr_imageBase64 result) then
       now ← await DateNow;
       let imageUrl :=
         "nano-banano://generated/" +:+ pretty now +:+ "-" +:+ userId request in
       _ ← await (saveImageGeneration (userId request) (prompt request) imageUrl);
       updatedUser ← await (incrementUserImageCount (userId request));
       let isImageToImage :=
         match sourceImages request with
         | Some (_ :: _) => true
         | _ => false
         end in
       let successMessage :=
         if isImageToImage
         then "✅ Nano Banano создал новое изображение на основе вашего фото!"
         else "✅ Nano Banano сгенерировал изображение: " +:+ prompt request in
       match updatedUser with
       | Some u =>
           Ret (Return {| success := true;
                          imageBase64 := mr_imageBase64 result;
                          message := successMessage;
                          dailyCount := Some (daily_image_count u);
                          limitReached := false |})
       | None =>
           (* [updatedUser.daily_image_count] on [undefined] *)
           Throw "Cannot read properties of undefined (reading 'daily_image_count')"
       end
     else
       Ret (Continue (or_else (mr_message result) "Неизвестная ошибка")))
    (fun error =>
       let lastError := error in
       _ ← await (ConsoleLog "⚠️ [NanoBanano] Method failed, trying next..."
                    lastError);
       Ret (Continue lastError)).

Fixpoint for_methods (request : NanoBananoRequest)
    (methods : list generation_method) (lastError : string) : prog iteration :=
  match methods with
  | [] => Ret (Continue lastError)
  | m :: rest =>
      turn ← loop_body request m;
      match turn with
      | Return r => Ret (Return r)
      | Continue lastError' => for_methods request rest lastError'
      end
  end.

Definition generateNanoBananoImage (request : NanoBananoRequest)
    : prog NanoBananoResult :=
  try_catch
    (key ← await (ProcessEnv "HUBAI_API_KEY");
     if negb (truthy key) then
       _ ← await (ConsoleError "❌ [NanoBanano] No HUBAI_API_KEY found in environment" "");
       Ret {| success := false; imageBase64 := None;
              message := "❌ Сервис генерации изображений временно недоступен. API ключ не настроен.";
              dailyCount := None; limitReached := false |}
     else
       _ ← await (upsertUser (userId request)
                    (or_else (username request) ("user_" +:+ userId request)));
       isAdmin ← await (isAdminUser (userId request));
       limitReached ← await (hasReachedDailyLimit (userId request));
       if limitReached && negb isAdmin then
         Ret {| success := false; imageBase64 := None;
                message := "🚫 Превышен дневной лимит генерации. Попробуйте завтра!";
                dailyCount := Some 15; limitReached := true |}
       else
         turn ← for_methods request generationMethods "";
         match turn with
         | Return r => Ret r
         | Continue lastError =>
             _ ← await (ConsoleError "❌ [NanoBanano] All generation methods failed"
                          lastError);
             Ret {| success := false; imageBase64 := None;
                    message := "❌ Nano Banano не смог сгенерировать изображение. Попробуйте другое описание!";
                    dailyCount := None; limitReached := false |}
         end)
    (fun error =>
       _ ← await (ConsoleError "❌ [NanoBanano] Critical error" error);
       Ret {| success := false; imageBase64 := None;
              message := "❌ Произошла критическая ошибка. Попробуйте еще раз!";
              dailyCount := None; limitReached := false |}).

End NanoBanano.

(** ** telegramBotWorkflow *)

Module Workflow.

(** The [inputSchema] of the workflow and of step1. *)
Record WorkflowInput := {
  message : string;
  fileIds : option (list string);
  in_chatId : string;
  in_userId : string;
  userName : option string;
  in_messageId : option string;
  threadId : string;
  chatType : option string
}.

(** The [outputSchema] of step1, which is the [inputSchema] of step2. *)
Record StepOneOutput := {
  response : string;
  imagePath : option string;
  chatId : string;
  messageId : option string;
  success : bool;
  imageSent : option bool;
  userId : string
}.

(** The [outputSchema] of step2 and of the workflow. *)
Record StepTwoOutput := {
  sent : bool;                       (* [success] *)
  sentMessageId : option string
}.

(** The code point of one white space or line terminator of JavaScript at
    the head of a UTF-8 string, and the rest of the string. *)
Definition skip_space (s : string) : option string :=
  match s with
  | String c rest =>
      let b := Ascii.N_of_ascii c in
      if ((9 <=? b) && (b <=? 13) || (b =? 32))%N then Some rest
      else
        match rest with
        | String c1 rest1 =>
            let b1 := Ascii.N_of_ascii c1 in
            if ((b =? 194) && (b1 =? 160))%N then Some rest1     (* U+00A0 *)
            else
              match rest1 with
              | String c2 rest2 =>
                  let b2 := Ascii.N_of_ascii c2 in
                  if ((b =? 225) && (b1 =? 154) && (b2 =? 128)      (* U+1680 *)
                      || (b =? 226) && (b1 =? 128)
                         && ((128 <=? b2) && (b2 <=? 138)          (* U+2000-200A *)
                             || (b2 =? 168) || (b2 =? 169)         (* U+2028, 2029 *)
                             || (b2 =? 175))                       (* U+202F *)
                      || (b =? 226) && (b1 =? 129) && (b2 =? 159)  (* U+205F *)
                      || (b =? 227) && (b1 =? 128) && (b2 =? 128)  (* U+3000 *)
                      || (b =? 239) && (b1 =? 187) && (b2 =? 191))%N (* U+FEFF *)
                  then Some rest2
                  else None
              | EmptyString => None
              end
        | EmptyString => None
        end
  | EmptyString => None
  end.

(** [s.trim().length === 0]: nothing but white space. The fuel is the length
    of the string, which bounds the number of code points. *)
Fixpoint blank_upto (fuel : nat) (s : string) : bool :=
  match s with
  | EmptyString => true
  | _ =>
      match fuel with
      | O => false
      | S fuel' =>
          match skip_space s with
          | Some rest => blank_upto fuel' rest
          | None => false
          end
      end
  end.

Definition blank (s : string) : bool := blank_upto (String.length s) s.

(** The line feed of a JavaScript template string. *)
Definition nl : string := String (Ascii.ascii_of_N 10) EmptyString.

(** The [catch] block of step1. [slotReservation] is [None] while the
    variable is still [undefined]. *)
Definition step1_catch (inputData : WorkflowInput)
    (slotReservation : option UserLimits.UserLimitResult) : prog StepOneOutput :=
  _ ← match slotReservation with
      | Some r =>
          if UserLimits.canGenerate r && negb (UserLimits.isAdmin r) then
            try_catch (UserLimits.releaseReservedSlot (in_userId inputData))
              (fun releaseError => Ret tt)
          else Ret tt
      | None => Ret tt
      end;
  Ret {| response := "❌ Ошибка при генерации, обратитесь к @dmitriy_ferixdi";
         imagePath := None; chatId := in_chatId inputData;
         messageId := in_messageId inputData; success := false;
         imageSent := Some false; userId := in_userId inputData |}.

(** What step1 does once the slot is reserved. *)
Definition step1_generate (inputData : WorkflowInput)
    (slotReservation : UserLimits.UserLimitResult) : prog StepOneOutput :=
  if negb (UserLimits.canGenerate slotReservation) then
    let isGroupChat :=
      match chatType inputData with
      | Some t => String.eqb t "group" || String.eqb t "supergroup"
      | None => false
      end in
    let limitMessage :=
      if isGroupChat
      then "🚫 Лимит запросов для чата по генерации изображений Nano Banano закончился (30/30). Лимиты обновляются каждые сутки в 00:00 МСК."
      else "Ваш лимит на сегодня закончен: 3/3. Приходите завтра. Хочешь безлимит? Пиши @dmitriy_ferixdi" in
    Ret {| response := limitMessage; imagePath := None;
           chatId := in_chatId inputData; messageId := in_messageId inputData;
           success := false; imageSent := None; userId := in_userId inputData |}
  else
    result ← try_catch
               (await (generateImageWithHubaiGemini (message inputData)
                         (fileIds inputData)))
               (fun error =>
                  Ret {| hg_success := false; hg_imageBase64 := None;
                         hg_description := None;
                         hg_error :=
                           Some ("Exception in generateImageWithHubaiGemini: "
                                 +:+ error) |});
    _ ← (if negb (hg_success result) && negb (UserLimits.isAdmin slotReservation)
         then UserLimits.releaseReservedSlot (in_userId inputData)
         else Ret tt);
    if hg_success result && truthy (hg_imageBase64 result) then
      let imageBase64 := default "" (hg_imageBase64 result) in
      try_catch
        (tempFilePath ← await (WriteTempFile imageBase64);
         Ret {| response := or_else (hg_description result) "🍌 Изображение готово!";
                imagePath := Some tempFilePath;
                chatId := in_chatId inputData;
                messageId := in_messageId inputData; success := true;
                imageSent := Some false; userId := in_userId inputData |})
        (fun fileError =>
           Ret {| response := or_else (hg_description result) "🍌 Изображение готово!";
                  imagePath := Some imageBase64;
                  chatId := in_chatId inputData;
                  messageId := in_messageId inputData; success := true;
                  imageSent := Some false; userId := in_userId inputData |})
    else
      let responseMessage :=
        if negb (hg_success result) then
          let currentRemaining :=
            if UserLimits.isAdmin slotReservation then 999
            else Z.min (UserLimits.remaining slotReservation + 1) 5 in
          let limitInfo :=
            if UserLimits.isAdmin slotReservation then ""
            else nl +:+ nl +:+ "📊 Осталось попыток сегодня: "
                 +:+ pretty currentRemaining +:+ "/5" in
          or_else (hg_error result)
            "❌ Nano Banana не смог сгенерировать изображение. Попробуйте другое описание!"
          +:+ limitInfo
        else "❌ Изображение не было сгенерировано." in
      Ret {| response := responseMessage; imagePath := None;
             chatId := in_chatId inputData; messageId := in_messageId inputData;
             success := hg_success result; imageSent := None;
             userId := in_userId inputData |}.

(** [p], with its exception, if any, as a value. *)
Definition capture {A : Type} (p : prog A) : prog (outcome A) :=
  try_catch (x ← p; Ret (Returned x)) (fun e => Ret (Thrown e)).

(** [execute] of step1. The [try] block is entered with [slotReservation]
    undefined: an exception of [reserveGenerationSlot] reaches the [catch]
    before the variable is assigned, a later one after. *)
Definition step1 (inputData : WorkflowInput) : prog StepOneOutput :=
  if String.eqb (message inputData) "/start" then
    Ret {| response := "Привет. Это режим генерации Nano Banano. Скажи чё надо, сгенерирую.";
           imagePath := None; chatId := in_chatId inputData;
           messageId := in_messageId inputData; success := true;
           imageSent := Some false; userId := in_userId inputData |}
  else if match fileIds inputData with
          | Some (_ :: _) => blank (message inputData)
          | _ => false
          end then
    let photoCount := length (default [] (fileIds inputData)) in
    Ret {| response :=
             if (photoCount =? 1)%nat
             then "Что хочешь сделать с этой фоткой?"
             else "Что хочешь сделать с этими фотками?";
           imagePath := None; chatId := in_chatId inputData;
           messageId := in_messageId inputData; success := true;
           imageSent := Some false; userId := in_userId inputData |}
  else
    reserved ← capture
                 (UserLimits.reserveGenerationSlot (in_userId inputData)
                    (or_else (userName inputData) "Unknown")
                    (or_else (chatType inputData) "private"));
    match reserved with
    | Thrown error => step1_catch inputData None
    | Returned slotReservation =>
        try_catch (step1_generate inputData slotReservation)
          (fun error => step1_catch inputData (Some slotReservation))
    end.

(** [imagePath.startsWith('/tmp/')] *)
Definition is_temp_path (path : string) : bool :=
  String.prefix "/tmp/" path.

(** [reply_parameters] is set [if (inputData.messageId)]. *)
Definition reply_to (messageId : option string) : option string :=
  if truthy messageId then messageId else None.

(** [execute] of step2. *)
Definition step2 (inputData : StepOneOutput) : prog StepTwoOutput :=
  try_catch
    (token ← await (ProcessEnv "TELEGRAM_BOT_TOKEN");
     if negb (truthy token) then
       Throw "TELEGRAM_BOT_TOKEN not found in environment variables"
     else if truthy (imagePath inputData) then
       let path := default "" (imagePath inputData) in
       imageBuffer ←
         (if is_temp_path path then
            imageBuffer ← await (ReadTempFile path);
            _ ← try_catch (await (UnlinkTempFile path))
                  (fun deleteError => Ret tt);
            Ret imageBuffer
          else Ret path);
       result ← await (SendPhoto (chatId inputData) imageBuffer
                         (reply_to (messageId inputData)));
       if negb (tg_ok result) then
         Throw ("Telegram API error: "
                +:+ or_else (tg_description result) "Unknown error")
       else
         _ ← try_catch
               (_ ← await (incrementUserImageCount (userId inputData)); Ret tt)
               (fun countError => Ret tt);
         _ ← try_catch
               (let adminChatId := "6913446846" in
                if negb (String.eqb (chatId inputData) adminChatId) then
                  await (ForwardMessage adminChatId (chatId inputData)
                           (tg_message_id result))
                else Ret tt)
               (fun forwardError => Ret tt);
         Ret {| sent := true;
                sentMessageId := pretty <$> tg_message_id result |}
     else
       result ← await (SendMessage (chatId inputData) (response inputData)
                         (reply_to (messageId inputData)));
       if negb (tg_ok result) then
         Throw ("Telegram API error: "
                +:+ or_else (tg_description result) "Unknown error")
       else
         Ret {| sent := true;
                sentMessageId := pretty <$> tg_message_id result |})
    (fun error => Ret {| sent := false; sentMessageId := None |}).

(** [createWorkflow(...).then(step1).then(step2)] *)
Definition telegramBotWorkflow (inputData : WorkflowInput) : prog StepTwoOutput :=
  out ← step1 inputData;
  step2 out.

End Workflow.

(** ** Vocabulary of the properties *)

(** No call fails for a reason of the environment. *)
Definition quiet (w : world) : Prop := ∀ n, fault (env w) n = None.

(** The fault, if any, that awaits the [k]-th call from now. *)
Definition fault_at (w : world) (k : nat) : option error :=
  fault (env w) (length (trace w) + k)%nat.

(** The calls made between two worlds of one run. *)
Definition calls_since (w w' : world) : list call :=
  drop (length (trace w)) (trace w').

(** A call on the shared pg pool. *)
Definition touches_pool (c : call) : bool :=
  match c with
  | Call PoolConnect | Call ClientRelease => true
  | _ => false
  end.

(** A call that can write [daily_image_count] or [last_reset_date]. *)
Definition writes_quota (c : call) : bool :=
  match c with
  | Call (SqlUpsertUser _ _) | Call (SqlReserveSlot _ _)
  | Call (SqlReleaseSlot _) | Call (incrementUserImageCount _) => true
  | _ => false
  end.

(** The generation methods invoked, in order. *)
Definition method_calls (cs : list call) : list generation_method :=
  omap (fun c => match c with
                 | Call (CallMethod m _ _) => Some m
                 | _ => None
                 end) cs.

(** The error log: the details handed to [console.error]. *)
Definition error_log (cs : list call) : list (string * string) :=
  omap (fun c => match c with
                 | Call (ConsoleError text detail) => Some (text, detail)
                 | _ => None
                 end) cs.

(** The count a record stands for today: the lazy reset of a record last
    reset before today, and 0 for a user without a record. *)
Definition effective_count (current_date : Z) (row : option user_row) : Z :=
  match row with
  | Some r =>
      if last_reset_date r <? current_date then 0 else daily_image_count r
  | None => 0
  end.

(** A generation method does not deliver: it throws, or what it returns is
    not a success with a non-empty image. *)
Definition method_fails (ev : environment) (m : generation_method) : bool :=
  match method_reply ev m with
  | Returned r => negb (mr_success r && truthy (mr_imageBase64 r))
  | Thrown _ => true
  end.

(** The [lastError] a failing method leaves behind. *)
Definition method_error (ev : environment) (m : generation_method) : string :=
  match method_reply ev m with
  | Returned r => or_else (mr_message r) "Неизвестная ошибка"
  | Thrown e => e
  end.

(** The [lastError] after the methods of a list have all failed. *)
Fixpoint last_error (ev : environment) (methods : list generation_method)
    (lastError : string) : string :=
  match methods with
  | [] => lastError
  | m :: rest => last_error ev rest (method_error ev m)
  end.

(** Reservations in flight that have been granted. *)
Definition is_granted (p : prog UserLimits.UserLimitResult) : bool :=
  match p with
  | Ret r => UserLimits.canGenerate r
  | _ => false
  end.

Definition granted (ts : list (prog UserLimits.UserLimitResult)) : nat :=
  length (List.filter is_granted ts).

(** The discipline a reservation keeps towards the [users] table, as seen
    from one request for [userId] under [dailyLimit]. [upserted]: the request
    has run the upsert; [taken]: its conditional update has returned a row.
    The request may run the update only after its own upsert and only once,
    and it may report [canGenerate] only after its update has returned a
    row. *)
Section Discipline.

Variables (userId : string) (dailyLimit : Z).

Definition call_allowed {X : Type} (o : op X) (r : outcome X)
    (upserted taken : bool) (next : bool -> bool -> Prop) : Prop :=
  match o in op X return outcome X -> Prop with
  | PoolConnect => fun _ => next upserted taken
  | ClientRelease => fun _ => next upserted taken
  | SqlUpsertUser u _ => fun r =>
      u = userId ∧
      next (upserted || match r with Returned _ => true | Thrown _ => false end)
           taken
  | SqlReserveSlot u l => fun r =>
      u = userId ∧ l = dailyLimit ∧ upserted = true ∧ taken = false ∧
      next upserted
           match r with Returned (Some _) => true | _ => false end
  | _ => fun _ => False
  end r.

Fixpoint disciplined (upserted taken : bool)
    (p : prog UserLimits.UserLimitResult) : Prop :=
  match p with
  | Ret res => UserLimits.canGenerate res = true -> taken = true
  | Throw _ => True
  | Do o k =>
      ∀ r, call_allowed o r upserted taken
             (fun u t => disciplined u t (k r))
  end.

(** The record of the user is in force on the day [d]: it exists and its
    reset date is not in the past. *)
Definition in_force (d : Z) (t : gmap string user_row) : Prop :=
  ∃ r, t !! userId = Some r ∧ (last_reset_date r <? d) = false.

(** The ghost state of the threads, [(upserted, taken)] for each one, and the
    number of slots they have taken together. *)
Definition slots_taken (fl : list (bool * bool)) : Z :=
  foldr (fun (f : bool * bool) n => (if f.2 then 1 else 0) + n) 0 fl.

Definition thread_ok (w : world) (f : bool * bool)
    (p : prog UserLimits.UserLimitResult) : Prop :=
  disciplined f.1 f.2 p
  ∧ (f.1 = true -> in_force (today w) (users w)).

(** What holds between the steps of the threads: [c0] is the count in force
    when they started. *)
Definition reservations_consistent (c0 : Z) (fl : list (bool * bool))
    (ts : list (prog UserLimits.UserLimitResult)) (w : world) : Prop :=
  Forall2 (thread_ok w) fl ts
  ∧ effective_count (today w) (users w !! userId) = c0 + slots_taken fl
  ∧ (slots_taken fl = 0 ∨ c0 + slots_taken fl <= dailyLimit).

End Discipline.

(** What a call returned, if it returned. *)
Definition returned {A : Type} (r : outcome A) : option A :=
  match r with
  | Returned a => Some a
  | Thrown _ => None
  end.

(** ** Sample worlds

    One user, ["42"], on day 20000; the environment answers every call and
    delivers every message unless said otherwise. *)

Definition sample_env : environment :=
  {| fault := fun _ => None;
     process_env := fun _ => Some "configured";
     date_now := 1758326400000;
     admin_users := ["6913446846"];
     storage_limit_reached := fun _ => false;
     method_reply := fun _ =>
       Returned {| mr_success := false; mr_imageBase64 := None;
                   mr_message := Some "HuggingFace API failed" |};
     hubai_reply :=
       {| hg_success := true; hg_imageBase64 := Some "aW1hZ2U=";
          hg_description := None; hg_error := None |};
     temp_path := "/tmp/nano_banana_0001.jpg";
     temp_content := fun _ => "image";
     send_photo_reply :=
       {| tg_ok := true; tg_description := None; tg_message_id := Some 77 |};
     send_message_reply :=
       {| tg_ok := true; tg_description := None; tg_message_id := Some 78 |} |}.

(** [ev], where the [n]-th call fails with [e]. *)
Definition with_fault (n : nat) (e : error) (ev : environment) : environment :=
  {| fault := fun k => if (k =? n)%nat then Some e else None;
     process_env := process_env ev; date_now := date_now ev;
     admin_users := admin_users ev;
     storage_limit_reached := storage_limit_reached ev;
     method_reply := method_reply ev; hubai_reply := hubai_reply ev;
     temp_path := temp_path ev; temp_content := temp_content ev;
     send_photo_reply := send_photo_reply ev;
     send_message_reply := send_message_reply ev |}.

(** [ev], with other answers of the generation methods. *)
Definition with_methods (f : generation_method -> outcome method_result)
    (ev : environment) : environment :=
  {| fault := fault ev;
     process_env := process_env ev; date_now := date_now ev;
     admin_users := admin_users ev;
     storage_limit_reached := storage_limit_reached ev;
     method_reply := f; hubai_reply := hubai_reply ev;
     temp_path := temp_path ev; temp_content := temp_content ev;
     send_photo_reply := send_photo_reply ev;
     send_message_reply := send_message_reply ev |}.

(** The user ["42"] with [count] generations, last reset on the day [date]. *)
Definition sample_world (ev : environment) (count date : Z) : world :=
  {| users := {[ "42" := {| username := "bob"; daily_image_count := count;
                            last_reset_date := date |} ]};
     generations := []; today := 20000; env := ev; trace := [] |}.

(** A private chat message of the user ["42"]. *)
Definition sample_message : Workflow.WorkflowInput :=
  {| Workflow.message := "a banana on the moon";
     Workflow.fileIds := None;
     Workflow.in_chatId := "42"; Workflow.in_userId := "42";
     Workflow.userName := Some "bob"; Workflow.in_messageId := Some "5";
     Workflow.threadId := "telegram/42";
     Workflow.chatType := Some "private" |}.

(** What step1 hands to step2 after a successful generation. *)
Definition sample_generated : Workflow.StepOneOutput :=
  {| Workflow.response := "🍌 Изображение готово!";
     Workflow.imagePath := Some "/tmp/nano_banana_0001.jpg";
     Workflow.chatId := "42"; Workflow.messageId := Some "5";
     Workflow.success := true; Workflow.imageSent := Some false;
     Workflow.userId := "42" |}.

Definition sample_request : NanoBanano.NanoBananoRequest :=
  {| NanoBanano.prompt := "a banana on the moon";
     NanoBanano.userId := "42"; NanoBanano.chatId := "42";
     NanoBanano.username := Some "bob";
     NanoBanano.sourceImages := None |}.

(** A method that delivers the image [image]. *)
Definition delivers (image : string) : outcome method_result :=
  Returned {| mr_success := true; mr_imageBase64 := Some image;
              mr_message := None |}.

(** A method that reports the failure [text]. *)
Definition reports (text : string) : outcome method_result :=
  Returned {| mr_success := false; mr_imageBase64 := None;
              mr_message := Some text |}.

(** Five requests of the user ["42"] in flight in a private chat, and an
    order in which they take their steps to the end. *)
Definition five_requests : list (prog UserLimits.UserLimitResult) :=
  (fun n => UserLimits.reserveGenerationSlot "42" n "private")
    <$> ["bob"; "bob"; "bob"; "bob"; "bob"].

Definition sample_schedule : list nat :=
  [0; 1; 2; 3; 4; 4; 3; 2; 1; 0; 2; 2; 0; 0; 1; 1; 3; 3; 4; 4]%nat.

(** The first two methods deliver, and the write of the history record that
    follows the first delivery fails (it is the call number 6 of the run). *)
Definition history_write_fails : environment :=
  with_fault 6 "insert into image_generations failed"
    (with_methods
       (fun m =>
          match m with
          | tryOpenAIImagesAPI => delivers "Zmlyc3Q="
          | tryGeminiWithImagePrompt => delivers "c2Vjb25k"
          | _ => reports "DeepAI API failed"
          end)
       sample_env).

(** The first method fails and the second delivers. *)
Definition second_method_delivers : environment :=
  with_methods
    (fun m =>
       match m with
       | tryOpenAIImagesAPI => Thrown "fetch failed"
       | tryGeminiWithImagePrompt => delivers "c2Vjb25k"
       | _ => delivers "dGhpcmQ="
       end)
    sample_env.

(** ** Requests in sequence *)

(** A function that cannot reject: in every world it returns. *)
Definition always_returns {A : Type} (p : prog A) : Prop :=
  ∀ w, ∃ a w', run p w = (Returned a, w').

(** Whatever [p] returns satisfies [P]. *)
Definition returns_only {A : Type} (P : A -> Prop) (p : prog A) : Prop :=
  ∀ w a w', run p w = (Returned a, w') -> P a.

(** [n] calls of [reserveGenerationSlot], one after the other, with their
    results in order. *)
Fixpoint reserve_times (n : nat) (userId uname chatType : string)
    : prog (list UserLimits.UserLimitResult) :=
  match n with
  | O => Ret []
  | S k =>
      r ← UserLimits.reserveGenerationSlot userId uname chatType;
      rs ← reserve_times k userId uname chatType;
      Ret (r :: rs)
  end.

(** [n] calls of [releaseReservedSlot], one after the other. *)
Fixpoint release_times (n : nat) (userId : string) : prog unit :=
  match n with
  | O => Ret tt
  | S k => _ ← UserLimits.releaseReservedSlot userId; release_times k userId
  end.

(** The results that grant a generation. *)
Definition grants (rs : list UserLimits.UserLimitResult) : nat :=
  length (List.filter UserLimits.canGenerate rs).

(** A record as the code writes it: not reset in the future, with a count
    that is not negative. A user without a record is fine. *)
Definition sound_record (current_date : Z) (row : option user_row) : Prop :=
  match row with
  | Some r => last_reset_date r <= current_date ∧ 0 <= daily_image_count r
  | None => True
  end.

(** The message goes past the two early returns of step1: it is not
    ["/start"], and it is not a message of photos without text. *)
Definition asks_generation (inputData : Workflow.WorkflowInput) : bool :=
  negb (String.eqb (Workflow.message inputData) "/start")
  && negb match Workflow.fileIds inputData with
          | Some (_ :: _) => Workflow.blank (Workflow.message inputData)
          | _ => false
          end.

(** A call of a generation backend. *)
Definition is_generation (c : call) : bool :=
  match c with
  | Call (generateImageWithHubaiGemini _ _) | Call (CallMethod _ _ _) => true
  | _ => false
  end.

(** A call of the Telegram Bot API that sends something to a chat. *)
Definition is_send (c : call) : bool :=
  match c with
  | Call (SendPhoto _ _ _) | Call (SendMessage _ _ _) => true
  | _ => false
  end.

Definition is_forward (c : call) : bool :=
  match c with
  | Call (ForwardMessage _ _ _) => true
  | _ => false
  end.

(** A write of server/storage: the history record or the counter. *)
Definition is_storage_write (c : call) : bool :=
  match c with
  | Call (saveImageGeneration _ _ _) | Call (incrementUserImageCount _) => true
  | _ => false
  end.

(** ** rateLimiter

    [InMemoryRateLimiterStorage] is a [Map] from user ids to arrays of
    timestamps, [RateLimiter] the rolling window over it. Timestamps are the
    integers of [Date.now()], in milliseconds; [windowHours] and
    [maxRequests] are whole numbers. The methods are [async] but await
    nothing that can fail, so they are functions of the storage. *)

Module RateLimit.

Record RateLimitResult := {
  allowed : bool;
  remainingRequests : Z;
  resetTime : Z;                    (* [Date], as its time value *)
  totalRequests : Z
}.

(** The options a [RateLimiter] is constructed with. *)
Record RateLimiter := {
  windowHours : Z;
  maxRequests : Z
}.

(** [getRateLimiter]: the global instance. *)
Definition globalRateLimiter : RateLimiter :=
  {| windowHours := 24; maxRequests := 100 |}.

(** [this.userRequests.get(userId) || []] *)
Definition getUserRequests (s : gmap string (list Z)) (userId : string)
    : list Z :=
  default [] (s !! userId).

(** [requests.push(timestamp); this.userRequests.set(userId, requests)] *)
Definition addUserRequest (s : gmap string (list Z)) (userId : string)
    (timestamp : Z) : gmap string (list Z) :=
  <[userId := getUserRequests s userId ++ [timestamp]]> s.

Definition cleanupExpiredRequests (s : gmap string (list Z)) (userId : string)
    (cutoffTime : Z) : gmap string (list Z) :=
  let requests := getUserRequests s userId in
  let validRequests := List.filter (fun timestamp => cutoffTime <? timestamp) requests in
  if negb (length validRequests =? length requests)%nat
  then <[userId := validRequests]> s
  else s.

(** [Math.min(...validRequests)] of a non-empty array. *)
Definition minimum (first : Z) (others : list Z) : Z :=
  foldr Z.min first others.

(** [checkLimit], at the clock reading [now]: the result and the storage it
    leaves. *)
Definition checkLimit (rl : RateLimiter) (s : gmap string (list Z)) (now : Z)
    (userId : string) (consumeRequest : bool)
    : RateLimitResult * gmap string (list Z) :=
  let windowStartTime := now - windowHours rl * 60 * 60 * 1000 in
  let s1 := cleanupExpiredRequests s userId windowStartTime in
  let userRequests := getUserRequests s1 userId in
  let validRequests :=
    List.filter (fun timestamp => windowStartTime <? timestamp) userRequests in
  let currentCount := Z.of_nat (length validRequests) in
  let allowed := currentCount <? maxRequests rl in
  let remainingRequests := Z.max 0 (maxRequests rl - currentCount) in
  let oldestRequestTime :=
    match validRequests with
    | [] => now
    | first :: others => minimum first others
    end in
  let resetTime := oldestRequestTime + windowHours rl * 60 * 60 * 1000 in
  if allowed && consumeRequest then
    ({| allowed := allowed;
        remainingRequests := Z.max 0 (remainingRequests - 1);
        resetTime := resetTime;
        totalRequests := currentCount + 1 |},
     addUserRequest s1 userId now)
  else
    ({| allowed := allowed; remainingRequests := remainingRequests;
        resetTime := resetTime; totalRequests := currentCount |},
     s1).

(** [getUsageStats]: [checkLimit(userId, false)], with the options. *)
Definition getUsageStats (rl : RateLimiter) (s : gmap string (list Z)) (now : Z)
    (userId : string) : (Z * Z * Z * Z * Z) * gmap string (list Z) :=
  let '(result, s') := checkLimit rl s now userId false in
  ((totalRequests result, remainingRequests result, resetTime result,
    windowHours rl, maxRequests rl), s').

(** Requests [(now, userId)] served in order, each one consuming a slot if
    it is allowed: the requests that were allowed. *)
Fixpoint serve (rl : RateLimiter) (s : gmap string (list Z))
    (requests : list (Z * string)) : list (Z * string) :=
  match requests with
  | [] => []
  | (now, userId) :: rest =>
      let '(result, s') := checkLimit rl s now userId true in
      (if allowed result then [(now, userId)] else [])
      ++ serve rl s' rest
  end.

(** The requests of [userId] among [hist] made after the time [x]. *)
Definition after (userId : string) (x : Z) (hist : list (Z * string)) : nat :=
  length (List.filter
            (fun r : Z * string => String.eqb r.2 userId && (x <? r.1)) hist).

(** The requests of [userId] among [hist] in the window that ends at [T]. *)
Definition in_window (rl : RateLimiter) (userId : string) (T : Z)
    (hist : list (Z * string)) : nat :=
  length (List.filter
            (fun r : Z * string =>
               String.eqb r.2 userId
               && (T - windowHours rl * 60 * 60 * 1000 <? r.1) && (r.1 <=? T))
            hist).

(** The clock readings of the requests do not go back. *)
Fixpoint clock_order (last : Z) (requests : list (Z * string)) : Prop :=
  match requests with
  | [] => True
  | (now, _) :: rest => last <= now ∧ clock_order now rest
  end.

(** The requests of the user that the storage holds in the window that ends
    at [now]: what [checkLimit] counts. *)
Definition counted (rl : RateLimiter) (s : gmap string (list Z)) (now : Z)
    (userId : string) : Z :=
  Z.of_nat (length (List.filter
                      (fun t => now - windowHours rl * 60 * 60 * 1000 <? t)
                      (getUserRequests s userId))).

(** What the storage and the requests allowed so far have to do with each
    other, when the clock has reached [last]: above a cutoff that is not
    before the window ending at [last], the storage holds as many timestamps
    of a user as requests of that user were allowed; and no window holds
    more than [maxRequests] allowed requests of a user. *)
Definition tracks (rl : RateLimiter) (s : gmap string (list Z))
    (hist : list (Z * string)) (last : Z) : Prop :=
  (∀ userId x, last - windowHours rl * 60 * 60 * 1000 <= x ->
     length (List.filter (fun t => x <? t) (getUserRequests s userId))
     = after userId x hist)
  ∧ (∀ userId T,
       (in_window rl userId T hist <= Z.to_nat (maxRequests rl))%nat).

End RateLimit.

(** [ExponentialBackoff.execute]. The operation is given by what its
    successive invocations do ([attempts k] for the invocation number [k],
    from 0); the function answers with the result, the delays it has slept
    and the number of invocations it has made. The options are whole
    numbers, of those a double holds; the delay is computed in double
    precision, where a power of two overflows to [Infinity] from the
    exponent 1024 on. *)

Module Backoff.

Record ExponentialBackoff := {
  maxRetries : Z;
  baseDelay : Z;
  maxDelay : Z
}.

(** The options left out of the constructor. *)
Definition defaults : ExponentialBackoff :=
  {| maxRetries := 3; baseDelay := 1000; maxDelay := 10000 |}.

(** The numbers a delay can be: a whole number, an infinity or [NaN]. *)
Inductive number :=
| Finite (z : Z)
| PosInfinity
| NegInfinity
| NaN.

(** The first power of two that a double does not hold. *)
Definition overflow : Z := 2 ^ 1024.

(** [base * Math.pow(2, attempt)] for a whole number [base]:
    [Math.pow(2, attempt)] is exact below the exponent 1024 and [Infinity]
    from there on; the product of a double by a power of two is exact
    unless it overflows; and [0 * Infinity] is [NaN]. *)
Definition scaled (base : Z) (attempt : nat) : number :=
  if (attempt <? 1024)%nat then
    let product := base * 2 ^ Z.of_nat attempt in
    if overflow <=? product then PosInfinity
    else if product <=? - overflow then NegInfinity
    else Finite product
  else if base =? 0 then NaN
  else if 0 <? base then PosInfinity
  else NegInfinity.

(** [Math.min(x, bound)] for a whole number [bound]. *)
Definition math_min (x : number) (bound : Z) : number :=
  match x with
  | Finite z => Finite (Z.min z bound)
  | PosInfinity => Finite bound
  | NegInfinity => NegInfinity
  | NaN => NaN
  end.

(** [Math.min(this.baseDelay * Math.pow(2, attempt), this.maxDelay)] *)
Definition delay (b : ExponentialBackoff) (attempt : nat) : number :=
  math_min (scaled (baseDelay b) attempt) (maxDelay b).

(** The [for] loop from [attempt] on; [turns] is the number of turns left
    before [attempt <= this.maxRetries] fails. *)
Fixpoint loop {T : Type} (b : ExponentialBackoff) (attempts : nat -> outcome T)
    (isRetriableError : error -> bool) (turns attempt : nat)
    (lastError : error) : outcome T * list number * nat :=
  match turns with
  | O => (Thrown lastError, [], O)
  | S turns' =>
      match attempts attempt with
      | Returned result => (Returned result, [], 1%nat)
      | Thrown e =>
          if (Z.of_nat attempt =? maxRetries b) || negb (isRetriableError e)
          then (Thrown e, [], 1%nat)
          else
            let '(r, delays, calls) :=
              loop b attempts isRetriableError turns' (S attempt) e in
            (r, delay b attempt :: delays, S calls)
      end
  end.

(** [execute(operation, isRetriableError)]; [lastError] starts
    [undefined]. *)
Definition execute {T : Type} (b : ExponentialBackoff)
    (attempts : nat -> outcome T) (isRetriableError : error -> bool)
    : outcome T * list number * nat :=
  loop b attempts isRetriableError (Z.to_nat (maxRetries b + 1)) 0 "undefined".

End Backoff.

(** ** telegramFileResolver

    What Telegram answers is given in advance: the bot token of the
    process, the answer of [getFile] for a file id and the download of a file
    path, each of which may throw. Bytes are numbers below 256. *)

Module FileResolver.

(** [fileData]: [ok], [result.file_path] and [description]. *)
Record file_info := {
  fi_ok : bool;
  fi_file_path : option string;
  fi_description : option string
}.

(** [downloadResponse]: [ok], the [content-type] header and the body. *)
Record download := {
  dl_ok : bool;
  dl_content_type : option string;
  dl_body : list N
}.

Record telegram := {
  bot_token : option string;
  getFile : string -> outcome file_info;
  fetch_file : string -> outcome download
}.

Fixpoint includes_char (c : N) (s : string) : bool :=
  match s with
  | EmptyString => false
  | String a rest => (Ascii.N_of_ascii a =? c)%N || includes_char c rest
  end.

(** [!input.startsWith('http') && !input.includes('/')] *)
Definition isFileId (input : string) : bool :=
  negb (String.prefix "http" input) && negb (includes_char 47 input).

(** [signature.startsWith(...)] on the hexadecimal form of the first four
    bytes: the body begins with the bytes [magic]. *)
Fixpoint begins_with (magic body : list N) : bool :=
  match magic, body with
  | [], _ => true
  | m :: magic', b :: body' => (b =? m)%N && begins_with magic' body'
  | _ :: _, [] => false
  end.

(** [buffer.toString('ascii', 8, 12) === 'WEBP']: decoding as ascii clears
    the high bit of every byte. *)
Definition webp_tag (body : list N) : bool :=
  match List.map (fun b => N.land b 127) (take 4 (drop 8 body)) with
  | [87; 69; 66; 80]%N => true
  | _ => false
  end.

(** The MIME type read off the signature of the file. *)
Definition mime_by_signature (body : list N) : string :=
  if begins_with [255; 216; 255]%N body then "image/jpeg"
  else if begins_with [137; 80; 78; 71]%N body then "image/png"
  else if begins_with [71; 73; 70; 56]%N body then "image/gif"
  else if begins_with [82; 73; 70; 70]%N body then
    if webp_tag body then "image/webp" else "image/jpeg"
  else "image/jpeg".

(** The MIME type of the data URL: the [content-type] of the download,
    unless it is missing, empty or [application/octet-stream]. *)
Definition mime_type (d : download) : string :=
  let mimeType := or_else (dl_content_type d) "" in
  if String.eqb mimeType "" || String.eqb mimeType "application/octet-stream"
  then mime_by_signature (dl_body d)
  else mimeType.

Section Resolve.

(** [Buffer.from(arrayBuffer).toString('base64')] *)
Variable base64 : list N -> string.

(** [resolveFileId]: the data URL of the file, or [null]. Every exception
    ends in [null]. *)
Definition resolveFileId (tg : telegram) (fileId : string) : option string :=
  if negb (truthy (bot_token tg)) then None
  else
    match getFile tg fileId with
    | Thrown _ => None
    | Returned fileData =>
        if negb (fi_ok fileData) || negb (truthy (fi_file_path fileData))
        then None
        else
          match fetch_file tg (default "" (fi_file_path fileData)) with
          | Thrown _ => None
          | Returned downloadResponse =>
              if negb (dl_ok downloadResponse) then None
              else
                Some ("data:" +:+ mime_type downloadResponse +:+ ";base64,"
                      +:+ base64 (dl_body downloadResponse))
          end
    end.

(** [resolveImageUrls]: a file id is replaced by its data URL, or dropped
    when it does not resolve; anything else is taken for a URL and kept. *)
Fixpoint resolveImageUrls (tg : telegram) (inputs : list string) : list string :=
  match inputs with
  | [] => []
  | input :: rest =>
      if isFileId input then
        let url := resolveFileId tg input in
        if truthy url then default "" url :: resolveImageUrls tg rest
        else resolveImageUrls tg rest
      else input :: resolveImageUrls tg rest
  end.

End Resolve.

End FileResolver.

(** ** subscriptionCheckTool

    [execute] reads the bot token and makes one request, [getChatMember];
    it is a function of the token and of what the request answers. *)

Module Subscription.

(** The JSON of the answer: [ok], [result?.status], [error_code] and
    [description]. *)
Record chat_member := {
  ok : bool;
  status : option string;
  error_code : option Z;
  description : option string
}.

Record SubscriptionStatus := {
  is_subscribed : bool;
  member_status : option string;     (* [status] *)
  message : string;
  channel : string
}.

Definition channelUsername : string := "@ferixdi_ai".

(** [s?.includes(needle)] *)
Definition includes (s : option string) (needle : string) : bool :=
  match s with
  | Some s =>
      match String.index 0 needle s with
      | Some _ => true
      | None => false
      end
  | None => false
  end.

Definition subscribedStatuses : list string :=
  ["member"; "administrator"; "creator"].

(** [subscribedStatuses.includes(memberStatus)] *)
Definition is_subscribed_status (memberStatus : option string) : bool :=
  match memberStatus with
  | Some s => existsb (String.eqb s) subscribedStatuses
  | None => false
  end.

(** The [switch] on [memberStatus]. *)
Definition status_message (memberStatus : option string) : string :=
  match memberStatus with
  | Some s =>
      if String.eqb s "member" then "✅ Пользователь подписан на канал."
      else if String.eqb s "administrator"
      then "✅ Пользователь является администратором канала."
      else if String.eqb s "creator"
      then "✅ Пользователь является создателем канала."
      else if String.eqb s "left"
      then "❌ Пользователь покинул канал. Подпишитесь на @ferixdi_ai для доступа."
      else if String.eqb s "kicked" then "🚫 Пользователь заблокирован в канале."
      else if String.eqb s "restricted" then "⚠️ Пользователь ограничен в канале."
      else "❓ Неизвестный статус подписки."
  | None => "❓ Неизвестный статус подписки."
  end.

Definition execute (token : option string) (answer : outcome chat_member)
    : SubscriptionStatus :=
  if negb (truthy token) then
    {| is_subscribed := false; member_status := Some "unknown";
       message := "❌ Не удалось проверить подписку. Сервис временно недоступен.";
       channel := channelUsername |}
  else
    match answer with
    | Thrown _ =>
        {| is_subscribed := false; member_status := Some "error";
           message := "❌ Произошла ошибка при проверке подписки. Попробуйте позже.";
           channel := channelUsername |}
    | Returned result =>
        if negb (ok result) then
          if bool_decide (error_code result = Some 400)
             && includes (description result) "user not found" then
            {| is_subscribed := false; member_status := Some "not_found";
               message := "❌ Пользователь не найден в канале.";
               channel := channelUsername |}
          else if bool_decide (error_code result = Some 400)
                  && includes (description result) "chat not found" then
            {| is_subscribed := false; member_status := Some "channel_not_found";
               message := "❌ Канал не найден. Проверьте настройки.";
               channel := channelUsername |}
          else
            {| is_subscribed := false; member_status := Some "error";
               message := "❌ Не удалось проверить подписку. Попробуйте позже.";
               channel := channelUsername |}
        else
          let memberStatus := status result in
          {| is_subscribed := is_subscribed_status memberStatus;
             member_status := memberStatus;
             message := status_message memberStatus;
             channel := channelUsername |}
    end.

End Subscription.

(** ** More sample worlds *)

(** [sample_env], where the generator of step1 reports a failure. *)
Definition generator_fails : environment :=
  {| fault := fault sample_env;
     process_env := process_env sample_env; date_now := date_now sample_env;
     admin_users := admin_users sample_env;
     storage_limit_reached := storage_limit_reached sample_env;
     method_reply := method_reply sample_env;
     hubai_reply :=
       {| hg_success := false; hg_imageBase64 := None;
          hg_description := None; hg_error := Some "❌ safety filter" |};
     temp_path := temp_path sample_env; temp_content := temp_content sample_env;
     send_photo_reply := send_photo_reply sample_env;
     send_message_reply := send_message_reply sample_env |}.

(** [sample_env], without [HUBAI_API_KEY]. *)
Definition without_key : environment :=
  {| fault := fault sample_env;
     process_env := fun name =>
       if String.eqb name "HUBAI_API_KEY" then None
       else process_env sample_env name;
     date_now := date_now sample_env;
     admin_users := admin_users sample_env;
     storage_limit_reached := storage_limit_reached sample_env;
     method_reply := method_reply sample_env;
     hubai_reply := hubai_reply sample_env;
     temp_path := temp_path sample_env; temp_content := temp_content sample_env;
     send_photo_reply := send_photo_reply sample_env;
     send_message_reply := send_message_reply sample_env |}.

(** [sample_env], where the storage says that every user has reached the
    daily limit, and every method would deliver. *)
Definition over_limit : environment :=
  {| fault := fault sample_env;
     process_env := process_env sample_env; date_now := date_now sample_env;
     admin_users := admin_users sample_env;
     storage_limit_reached := fun _ => true;
     method_reply := fun _ => delivers "Zmlyc3Q=";
     hubai_reply := hubai_reply sample_env;
     temp_path := temp_path sample_env; temp_content := temp_content sample_env;
     send_photo_reply := send_photo_reply sample_env;
     send_message_reply := send_message_reply sample_env |}.

(** The greeting, and a message of the administrator. *)
Definition sample_greeting : Workflow.WorkflowInput :=
  {| Workflow.message := "/start";
     Workflow.fileIds := None;
     Workflow.in_chatId := "42"; Workflow.in_userId := "42";
     Workflow.userName := Some "bob"; Workflow.in_messageId := Some "4";
     Workflow.threadId := "telegram/42";
     Workflow.chatType := Some "private" |}.

Definition sample_admin_message : Workflow.WorkflowInput :=
  {| Workflow.message := "a banana on the moon";
     Workflow.fileIds := None;
     Workflow.in_chatId := "6913446846"; Workflow.in_userId := "6913446846";
     Workflow.userName := Some "admin"; Workflow.in_messageId := Some "9";
     Workflow.threadId := "telegram/6913446846";
     Workflow.chatType := Some "private" |}.

(** A limiter of two requests an hour; four requests of the user ["42"]
    and one of ["43"], with the clock in milliseconds. *)
Definition sample_limiter : RateLimit.RateLimiter :=
  {| RateLimit.windowHours := 1; RateLimit.maxRequests := 2 |}.

Definition sample_requests : list (Z * string) :=
  [(1000, "42"); (2000, "42"); (2500, "43"); (3000, "42"); (3602000, "42")].

(** What the storage holds after the first two requests of ["42"]. *)
Definition sample_storage : gmap string (list Z) :=
  {[ "42" := [1000; 2000] ]}.

(** An operation that times out twice and then answers 7. *)
Definition sample_attempts (k : nat) : outcome Z :=
  if (k <? 2)%nat then Thrown "timeout" else Returned 7.

(** ** referralUtils

    [processReferral] on the two tables it reads and writes: the users with
    their referral codes, in the order in which the database returns them,
    and the referrals. Each of its three database calls may throw
    ([fails k] for the call number [k] of one invocation); the [catch]
    answers [success: false]. *)

Module Referral.

Record referral := {
  referrer_user_id : string;
  referred_user_id : string;
  referral_code : string;
  created_at : Z
}.

Record db := {
  ref_users : list (string * option string);   (* user_id, referral_code *)
  ref_rows : list referral
}.

(** [{ success, referrerUserId }] *)
Record ReferralResult := {
  success : bool;
  referrerUserId : option string
}.

Definition refused : ReferralResult :=
  {| success := false; referrerUserId := None |}.

Definition processReferral (fails : nat -> bool) (now : Z) (d : db)
    (referredUserId referralCode : string) : ReferralResult * db :=
  if fails 0%nat then (refused, d)
  else
    match List.find (fun u : string * option string =>
                       bool_decide (u.2 = Some referralCode)) (ref_users d) with
    | None => (refused, d)
    | Some referrer =>
        let referrerUserId := referrer.1 in
        if String.eqb referrerUserId referredUserId then (refused, d)
        else if fails 1%nat then (refused, d)
        else if existsb (fun r => String.eqb (referred_user_id r) referredUserId)
                  (ref_rows d)
        then (refused, d)
        else if fails 2%nat then (refused, d)
        else
          ({| success := true; referrerUserId := Some referrerUserId |},
           {| ref_users := ref_users d;
              ref_rows :=
                ref_rows d
                ++ [{| referrer_user_id := referrerUserId;
                       referred_user_id := referredUserId;
                       referral_code := referralCode;
                       created_at := now |}] |})
    end.

(** An invocation: what fails, the clock, the referred user and the code. *)
Record invocation := {
  inv_fails : nat -> bool;
  inv_now : Z;
  inv_user : string;
  inv_code : string
}.

(** Invocations made one after the other. *)
Fixpoint process_all (invocations : list invocation) (d : db) : db :=
  match invocations with
  | [] => d
  | i :: rest =>
      process_all rest
        (processReferral (inv_fails i) (inv_now i) d (inv_user i) (inv_code i)).2
  end.

(** No user is referred twice, nobody has referred themselves, and every
    referrer is a user. *)
Definition sound (d : db) : Prop :=
  NoDup (referred_user_id <$> ref_rows d)
  ∧ Forall (fun r => referrer_user_id r ≠ referred_user_id r) (ref_rows d)
  ∧ Forall (fun r => referrer_user_id r ∈ (ref_users d).*1) (ref_rows d).

(** Two users with codes, and three invocations: a referral, the same user
    again with another code, and a user giving their own code. *)
Definition sample_db : db :=
  {| ref_users := [("42", Some "0042ABC"); ("43", Some "0043XYZ"); ("44", None)];
     ref_rows := [] |}.

Definition sample_invocations : list invocation :=
  [ {| inv_fails := fun _ => false; inv_now := 1000;
       inv_user := "44"; inv_code := "0042ABC" |};
    {| inv_fails := fun _ => false; inv_now := 2000;
       inv_user := "44"; inv_code := "0043XYZ" |};
    {| inv_fails := fun _ => false; inv_now := 3000;
       inv_user := "43"; inv_code := "0043XYZ" |} ].

End Referral.
(** ** Facts about calls and statements *)

Lemma eqb_other (a b : string) : a ≠ b -> String.eqb a b = false.
Proof. intros H. now apply String.eqb_neq. Qed.

Lemma handle_quiet {X : Type} (o : op X) (w : world) :
  quiet w -> handle o w = perform o (record_call (Call o) w).
Proof.
  intros Hq. unfold handle. rewrite Hq. now destruct (can_fail o).
Qed.

Lemma perform_today {X : Type} (o : op X) (w : world) :
  today (perform o w).2 = today w.
Proof.
  now destruct o.
Qed.

Lemma handle_today {X : Type} (o : op X) (w : world) :
  today (handle o w).2 = today w.
Proof.
  unfold handle.
  destruct (if can_fail o then _ else _); [reflexivity|].
  now rewrite perform_today.
Qed.

(** The upsert leaves the row of today: the count in force, a reset date
    that is not in the past. *)
Lemma sql_upsert_user_lookup (d : Z) (u n : string) (t : gmap string user_row) :
  ∃ r, sql_upsert_user d u n t !! u = Some r
       ∧ username r = n
       ∧ daily_image_count r = effective_count d (t !! u)
       ∧ (last_reset_date r <? d) = false.
Proof.
  unfold sql_upsert_user, effective_count.
  destruct (t !! u) as [r|] eqn:Hr;
    (eexists; rewrite lookup_insert_eq; split; [reflexivity|]; cbn).
  - destruct (last_reset_date r <? d) eqn:Hd; repeat split;
      first [apply Z.ltb_irrefl | exact Hd].
  - repeat split. apply Z.ltb_irrefl.
Qed.

Lemma sql_upsert_user_other (d : Z) (u n v : string) (t : gmap string user_row) :
  u ≠ v -> sql_upsert_user d u n t !! v = t !! v.
Proof.
  intros Hne. unfold sql_upsert_user.
  destruct (t !! u); now rewrite lookup_insert_ne.
Qed.

(** The upsert does not change the count in force. *)
Lemma sql_upsert_user_effective (d : Z) (u n : string) (t : gmap string user_row) :
  effective_count d (sql_upsert_user d u n t !! u) = effective_count d (t !! u).
Proof.
  destruct (sql_upsert_user_lookup d u n t) as (r & Hr & _ & Hc & Hd).
  rewrite Hr. cbn. now rewrite Hd.
Qed.

Section SequentialQuota.

Import UserLimits.

Variable w : world.
Hypothesis no_faults : quiet w.

Ltac exec :=
  repeat (unfold handle; cbn; rewrite ?no_faults; cbn).

(** C2. A request of a user who is not the administrator, whose record was
    last reset today and holds the count [c]: under the limit [L] of the chat
    type, the call returns [canGenerate = true] exactly when [c < L]; then
    the persisted count becomes [c + 1] and [dailyCount = c + 1]; when
    [L <= c] the call returns [canGenerate = false] with
    [limitReached = true], and the count and the reset date of the record
    stay as they were (the upsert has refreshed the user name only). *)
Theorem reserve_on_current_record (userId uname chatType : string)
    (row : user_row) :
  userId ≠ ADMIN_USER_ID ->
  users w !! userId = Some row ->
  last_reset_date row = today w ->
  ∃ res w',
    run (reserveGenerationSlot userId uname chatType) w = (Returned res, w')
    ∧ (canGenerate res = true <-> daily_image_count row < dailyLimitFor chatType)
    ∧ (daily_image_count row < dailyLimitFor chatType ->
         dailyCount res = daily_image_count row + 1
         ∧ limitReached res = false
         ∧ users w' =
             <[userId := {| username := uname;
                            daily_image_count := daily_image_count row + 1;
                            last_reset_date := last_reset_date row |}]> (users w))
    ∧ (dailyLimitFor chatType <= daily_image_count row ->
         canGenerate res = false
         ∧ limitReached res = true
         ∧ users w' =
             <[userId := {| username := uname;
                            daily_image_count := daily_image_count row;
                            last_reset_date := last_reset_date row |}]> (users w)).
Proof.
  intros Hadm Hrow Hd.
  unfold reserveGenerationSlot. rewrite (eqb_other _ _ Hadm).
  exec.
  unfold sql_upsert_user, sql_reserve_slot.
  rewrite Hrow, <- Hd, Z.ltb_irrefl, lookup_insert_eq. cbn.
  destruct (daily_image_count row <? dailyLimitFor chatType) eqn:Hlt; exec.
  - apply Z.ltb_lt in Hlt.
    eexists _, _. split; [reflexivity|]. cbn.
    split; [tauto|]. split; [|lia].
    intros _. rewrite insert_insert_eq. auto.
  - apply Z.ltb_ge in Hlt.
    eexists _, _. split; [reflexivity|]. cbn.
    split; [split; [discriminate|lia]|]. split; [lia|]. auto.
Qed.


Lemma dailyLimitFor_pos (chatType : string) : 0 < dailyLimitFor chatType.
Proof. unfold dailyLimitFor. now destruct (String.eqb chatType "private"). Qed.

(** C4. A record last reset before today, whatever count it holds: the next
    [reserveGenerationSlot] counts from 0 (it is granted, reports
    [dailyCount = 0 + 1] and leaves the record at count 1, reset today), and
    the next [getUserStats] reports [dailyCount = 0]. For the administrator
    both calls report [dailyCount = 0] and the record is not read at all. *)
Theorem lazy_reset_on_access (userId uname chatType : string) (row : user_row) :
  users w !! userId = Some row ->
  last_reset_date row < today w ->
  (∃ res w',
     run (reserveGenerationSlot userId uname chatType) w = (Returned res, w')
     ∧ canGenerate res = true
     ∧ (userId ≠ ADMIN_USER_ID ->
          dailyCount res = 0 + 1
          ∧ users w' !! userId =
              Some {| username := uname; daily_image_count := 0 + 1;
                      last_reset_date := today w |})
     ∧ (userId = ADMIN_USER_ID -> dailyCount res = 0 ∧ users w' = users w))
  ∧ (∃ res w',
       run (getUserStats userId chatType) w = (Returned (Some res), w')
       ∧ dailyCount res = 0
       ∧ canGenerate res = true
       ∧ (userId ≠ ADMIN_USER_ID -> remaining res = dailyLimitFor chatType)
       ∧ users w' = users w).
Proof.
  intros Hrow Hd. apply Z.ltb_lt in Hd.
  pose proof (dailyLimitFor_pos chatType) as Hpos.
  destruct (String.eqb_spec userId ADMIN_USER_ID) as [Hadm|Hadm].
  - subst userId. split.
    + unfold reserveGenerationSlot. exec.
      eexists _, _. split; [reflexivity|]. cbn.
      split; [reflexivity|]. split; [intros Hne; now contradiction Hne|].
      intros _. now split.
    + unfold getUserStats. exec.
      eexists _, _. split; [reflexivity|]. cbn.
      do 2 (split; [reflexivity|]).
      split; [intros Hne; now contradiction Hne|reflexivity].
  - split.
    + unfold reserveGenerationSlot. rewrite (eqb_other _ _ Hadm).
      exec.
      unfold sql_upsert_user, sql_reserve_slot.
      rewrite Hrow, Hd, lookup_insert_eq. cbn.
      destruct (0 <? dailyLimitFor chatType) eqn:Hlt; [|apply Z.ltb_ge in Hlt; lia].
      exec. eexists _, _. split; [reflexivity|]. cbn.
      split; [reflexivity|]. split; [|intros Heq; now contradiction Hadm].
      intros _. split; [reflexivity|]. now rewrite lookup_insert_eq.
    + unfold getUserStats. rewrite (eqb_other _ _ Hadm).
      exec. unfold sql_select_stats. rewrite Hrow, Hd. exec.
      destruct (dailyLimitFor chatType <=? 0) eqn:Hle; [apply Z.leb_le in Hle; lia|].
      eexists _, _. split; [reflexivity|]. cbn.
      do 2 (split; [reflexivity|]). split; [intros _; lia|reflexivity].
Qed.

(** C5. For a user who is not the administrator, [releaseReservedSlot] takes
    exactly 1 off the persisted count when the record was last reset today
    and the count is positive, which keeps it at 0 or above; when the count
    is 0 (or below), when the record was last reset on another day, or when
    there is no record, the table is left as it was. *)
Theorem release_decrements_today_only (userId : string) :
  userId ≠ ADMIN_USER_ID ->
  ∃ w',
    run (releaseReservedSlot userId) w = (Returned tt, w')
    ∧ (∀ row, users w !! userId = Some row ->
         last_reset_date row = today w -> 0 < daily_image_count row ->
         users w' =
           <[userId := {| username := username row;
                          daily_image_count := daily_image_count row - 1;
                          last_reset_date := last_reset_date row |}]> (users w)
         ∧ 0 <= daily_image_count row - 1)
    ∧ (∀ row, users w !! userId = Some row ->
         last_reset_date row ≠ today w ∨ daily_image_count row <= 0 ->
         users w' = users w)
    ∧ (users w !! userId = None -> users w' = users w).
Proof.
  intros Hadm.
  unfold releaseReservedSlot. rewrite (eqb_other _ _ Hadm).
  exec. unfold sql_release_slot.
  destruct (users w !! userId) as [row|] eqn:Hrow.
  - destruct (last_reset_date row =? today w) eqn:Hd;
      [destruct (0 <? daily_image_count row) eqn:Hc|]; exec;
      (eexists; split; [reflexivity|]); cbn.
    + apply Z.eqb_eq in Hd. apply Z.ltb_lt in Hc.
      split; [|split]; [| |discriminate].
      * intros row' [= <-] _ _. split; [|lia]. now rewrite Z.max_l by lia.
      * intros row' [= <-] [Hne|Hle]; [contradiction|lia].
    + apply Z.ltb_ge in Hc.
      split; [|split]; [| |discriminate].
      * intros row' [= <-] _ Hpos. lia.
      * reflexivity.
    + apply Z.eqb_neq in Hd.
      split; [|split]; [| |discriminate].
      * intros row' [= <-] Heq _. contradiction.
      * reflexivity.
  - exec. eexists; split; [reflexivity|]. cbn.
    split; [|split]; [discriminate|discriminate|reflexivity].
Qed.

End SequentialQuota.

(** ** When the pool or a statement fails *)

Lemma calls_since_app (w w' : world) (cs : list call) :
  trace w' = trace w ++ cs -> calls_since w w' = cs.
Proof. intros H. unfold calls_since. rewrite H. apply drop_app_length. Qed.

(** Puts the position of every pending call in the form
    [length (trace w) + k] and rewrites with the faults assumed. *)
Ltac at_positions :=
  rewrite ?length_app; cbn [length];
  rewrite <- ?Nat.add_assoc; cbn [Nat.add];
  repeat match goal with
         | H : fault _ _ = _ |- _ => rewrite H
         end.

Ltac exec_faults :=
  unfold fault_at in *; rewrite ?Nat.add_0_r in *;
  repeat (unfold handle; cbn; at_positions; cbn).

Section AdministratorBypass.

Import UserLimits.

(** C9 (amended). For the administrator, once a client of the pool is
    acquired, [reserveGenerationSlot] returns [canGenerate = true],
    [isAdmin = true] and [remaining = 999], and [releaseReservedSlot]
    returns; neither runs a SQL statement and the [users] table is left as it
    was. Both calls do take a client from the shared pool and give it back:
    these are their only two calls. *)
Theorem admin_bypasses_statements (w : world) (uname chatType : string) :
  fault_at w 0 = None ->
  (∃ w',
     run (reserveGenerationSlot ADMIN_USER_ID uname chatType) w =
       (Returned {| canGenerate := true; dailyCount := 0; remaining := 999;
                    isAdmin := true; limitReached := false;
                    message := AdminUnlimited |}, w')
     ∧ users w' = users w
     ∧ calls_since w w' = [Call PoolConnect; Call ClientRelease])
  ∧ (∃ w',
       run (releaseReservedSlot ADMIN_USER_ID) w = (Returned tt, w')
       ∧ users w' = users w
       ∧ calls_since w w' = [Call PoolConnect; Call ClientRelease]).
Proof.
  intros Hc. split.
  - unfold reserveGenerationSlot. exec_faults.
    eexists. split; [reflexivity|]. cbn. split; [reflexivity|].
    apply calls_since_app. cbn. now rewrite <- app_assoc.
  - unfold releaseReservedSlot. exec_faults.
    eexists. split; [reflexivity|]. cbn. split; [reflexivity|].
    apply calls_since_app. cbn. now rewrite <- app_assoc.
Qed.

End AdministratorBypass.

Section StorageFailure.

Import UserLimits.

(** C10. [getUserStats] returns [null] for a user who is not the
    administrator and has no record, and it returns [null] when the query
    throws. *)
Theorem stats_null_cases (w : world) (userId chatType : string) :
  userId ≠ ADMIN_USER_ID ->
  fault_at w 0 = None ->
  (users w !! userId = None -> fault_at w 1 = None ->
     (run (getUserStats userId chatType) w).1 = Returned None)
  ∧ (∀ e, fault_at w 1 = Some e ->
       (run (getUserStats userId chatType) w).1 = Returned None).
Proof.
  intros Hadm Hc. split.
  - intros Hnone Hq. unfold getUserStats. rewrite (eqb_other _ _ Hadm).
    exec_faults. unfold sql_select_stats. now rewrite Hnone.
  - intros e Hq. unfold getUserStats. rewrite (eqb_other _ _ Hadm).
    now exec_faults.
Qed.

(** C6 (amended). For a user who is not the administrator: when the upsert
    or the conditional update throws, [reserveGenerationSlot] gives the
    client back and returns [canGenerate = false], [limitReached = true],
    counts 0 and the advisory "reservation error, try later", and the count
    of the user has not been incremented; when the client cannot be acquired
    the call throws. *)
Theorem reserve_fails_closed (w : world) (userId uname chatType : string)
    (e : error) :
  userId ≠ ADMIN_USER_ID ->
  let denied :=
    {| canGenerate := false; dailyCount := 0; remaining := 0;
       isAdmin := false; limitReached := true; message := ReservationError |} in
  (fault_at w 0 = Some e ->
     ∃ w', run (reserveGenerationSlot userId uname chatType) w = (Thrown e, w')
           ∧ users w' = users w)
  ∧ (fault_at w 0 = None -> fault_at w 1 = Some e ->
       ∃ w', run (reserveGenerationSlot userId uname chatType) w
               = (Returned denied, w')
             ∧ users w' = users w
             ∧ calls_since w w' =
                 [Call PoolConnect; Call (SqlUpsertUser userId uname);
                  Call ClientRelease])
  ∧ (fault_at w 0 = None -> fault_at w 1 = None -> fault_at w 2 = Some e ->
       ∃ w', run (reserveGenerationSlot userId uname chatType) w
               = (Returned denied, w')
             ∧ users w' = sql_upsert_user (today w) userId uname (users w)
             ∧ calls_since w w' =
                 [Call PoolConnect; Call (SqlUpsertUser userId uname);
                  Call (SqlReserveSlot userId (dailyLimitFor chatType));
                  Call ClientRelease]).
Proof.
  intros Hadm denied. subst denied.
  unfold reserveGenerationSlot. rewrite (eqb_other _ _ Hadm).
  split; [|split].
  - intros H0. exec_faults. eexists. split; reflexivity.
  - intros H0 H1. exec_faults. eexists. split; [reflexivity|]. cbn.
    split; [reflexivity|]. apply calls_since_app. cbn.
    now rewrite <- !app_assoc.
  - intros H0 H1 H2. exec_faults.
    eexists. split; [reflexivity|]. cbn.
    split; [reflexivity|]. apply calls_since_app. cbn.
    now rewrite <- !app_assoc.
Qed.

End StorageFailure.

(** ** Concurrent reservations *)

Section ConcurrentReservations.

Import UserLimits.

Variables (userId : string) (dailyLimit : Z).

Lemma in_force_upsert (d : Z) (n : string) (t : gmap string user_row) :
  in_force userId d (sql_upsert_user d userId n t).
Proof.
  destruct (sql_upsert_user_lookup d userId n t) as (r & Hr & _ & _ & Hd).
  now exists r.
Qed.

(** The conditional update on a record in force: it returns no row and
    changes nothing when the limit is reached, and otherwise adds one to the
    count in force, which stays within the limit. *)
Lemma sql_reserve_slot_in_force (d : Z) (t : gmap string user_row) :
  in_force userId d t ->
  (sql_reserve_slot userId dailyLimit t = (t, None))
  ∨ (∃ c t', sql_reserve_slot userId dailyLimit t = (t', Some c)
             ∧ in_force userId d t'
             ∧ effective_count d (t' !! userId)
               = effective_count d (t !! userId) + 1
             ∧ effective_count d (t !! userId) + 1 <= dailyLimit).
Proof.
  intros (r & Hr & Hd). unfold sql_reserve_slot. rewrite Hr.
  destruct (daily_image_count r <? dailyLimit) eqn:Hlt; [|now left].
  right. apply Z.ltb_lt in Hlt. eexists _, _. split; [reflexivity|].
  split; [|split].
  - eexists. rewrite lookup_insert_eq. split; [reflexivity|]. exact Hd.
  - rewrite lookup_insert_eq. cbn. now rewrite Hd.
  - cbn. rewrite Hd. lia.
Qed.

Lemma slots_taken_insert (fl : list (bool * bool)) (i : nat) (f f' : bool * bool) :
  fl !! i = Some f ->
  slots_taken (<[i := f']> fl)
  = slots_taken fl - (if f.2 then 1 else 0) + (if f'.2 then 1 else 0).
Proof.
  revert i. induction fl as [|g fl IH]; intros [|i] H; try discriminate.
  - injection H as ->. cbn. lia.
  - cbn in H. cbn [insert list_insert slots_taken foldr].
    change (foldr _ 0 (<[i:=f']> fl)) with (slots_taken (<[i:=f']> fl)).
    change (foldr _ 0 fl) with (slots_taken fl).
    rewrite (IH _ H). lia.
Qed.

Lemma handle_fault_or_perform {X : Type} (o : op X) (w : world) :
  (∃ e, handle o w = (Thrown e, record_call (Call o) w))
  ∨ handle o w = perform o (record_call (Call o) w).
Proof.
  unfold handle.
  destruct (if can_fail o then _ else _) as [e|]; [left; now exists e|now right].
Qed.

Lemma step_consistent (c0 : Z) (fl : list (bool * bool))
    (ts ts' : list (prog UserLimitResult)) (w w' : world) (i : nat) :
  reservations_consistent userId dailyLimit c0 fl ts w ->
  step_thread i ts w = (ts', w') ->
  today w' = today w ∧ ∃ fl', reservations_consistent userId dailyLimit c0 fl' ts' w'.
Proof.
  intros (Hts & Heff & Hbound) Hstep. unfold step_thread in Hstep.
  destruct (ts !! i) as [p|] eqn:Hp;
    [|injection Hstep as <- <-; split; [reflexivity|exists fl; now repeat split]].
  destruct p as [a|e|X o k];
    try (injection Hstep as <- <-; split; [reflexivity|exists fl; now repeat split]).
  destruct (handle o w) as [r w1] eqn:Hh. injection Hstep as <- <-.
  pose proof (handle_today o w) as Htoday. rewrite Hh in Htoday. cbn in Htoday.
  split; [exact Htoday|].
  destruct (Forall2_lookup_r _ _ _ _ _ Hts Hp) as (f & Hf & Hdisc & Hfresh).
  cbn in Hdisc. specialize (Hdisc r).
  (* every case but the update and the upsert leaves the table alone *)
  assert (Hsame : ∀ u t : bool,
             users w1 = users w ->
             disciplined userId dailyLimit u t (k r) ->
             u = f.1 -> t = f.2 ->
             ∃ fl', reservations_consistent userId dailyLimit c0 fl' (<[i := k r]> ts) w1).
  { intros u t Hu Hd -> ->. exists (<[i := f]> fl).
    rewrite (list_insert_id _ _ _ Hf).
    split; [|split].
    - rewrite <- (list_insert_id _ _ _ Hf) at 1.
      apply Forall2_insert.
      + eapply Forall2_impl; [exact Hts|].
        intros g q [Hg1 Hg2]. split; [exact Hg1|]. now rewrite Htoday, Hu.
      + split; [exact Hd|]. now rewrite Htoday, Hu.
    - now rewrite Htoday, Hu.
    - exact Hbound. }
  destruct (handle_fault_or_perform o w) as [[e He]|Hperf];
    rewrite Hh in *.
  - (* the call threw: nothing changed *)
    injection He as -> ->.
    destruct o; cbn in Hdisc; try contradiction.
    + eapply Hsame; eauto.
    + eapply Hsame; eauto.
    + destruct Hdisc as [_ Hd]. rewrite orb_false_r in Hd.
      eapply Hsame; eauto.
    + destruct Hdisc as (_ & _ & _ & Ht & Hd).
      eapply Hsame; eauto.
  - destruct o; cbn in Hdisc; try contradiction; cbn in Hperf.
    + injection Hperf as -> ->. eapply Hsame; eauto.
    + injection Hperf as -> ->. eapply Hsame; eauto.
    + (* the upsert *)
      injection Hperf as -> ->. destruct Hdisc as [-> Hd].
      rewrite orb_true_r in Hd. cbn in *.
      exists (<[i := (true, f.2)]> fl). split; [|split].
      * apply Forall2_insert.
        -- eapply Forall2_impl; [exact Hts|].
           intros g q [Hg1 Hg2]. split; [exact Hg1|]. intros _.
           apply in_force_upsert.
        -- split; [exact Hd|]. intros _. apply in_force_upsert.
      * cbn. rewrite sql_upsert_user_effective, Heff.
        rewrite (slots_taken_insert _ _ _ _ Hf). cbn. lia.
      * rewrite (slots_taken_insert _ _ _ _ Hf). cbn.
        replace (slots_taken fl - (if f.2 then 1 else 0) + (if f.2 then 1 else 0))
          with (slots_taken fl) by lia.
        exact Hbound.
    + (* the conditional update *)
      destruct Hdisc as (-> & -> & Hup & Htk & Hd).
      specialize (Hfresh Hup). cbn in Hperf.
      destruct (sql_reserve_slot_in_force _ _ Hfresh)
        as [Hnone|(c & t' & Hsome & Hfresh' & Heff' & Hle)].
      * cbn in Hperf. rewrite Hnone in Hperf. injection Hperf as -> ->.
        eapply Hsame; eauto.
      * cbn in Hperf. rewrite Hsome in Hperf. injection Hperf as -> ->.
        exists (<[i := (f.1, true)]> fl). cbn in *. split; [|split].
        -- apply Forall2_insert.
           ++ eapply Forall2_impl; [exact Hts|].
              intros g q [Hg1 Hg2]. split; [exact Hg1|]. intros _. exact Hfresh'.
           ++ split; [exact Hd|]. intros _. exact Hfresh'.
        -- rewrite (slots_taken_insert _ _ _ _ Hf). cbn. rewrite Htk.
           rewrite Heff', Heff. lia.
        -- right. rewrite (slots_taken_insert _ _ _ _ Hf). cbn. rewrite Htk.
           rewrite Heff in Hle. lia.
Qed.

Lemma schedule_consistent (c0 : Z) (schedule : list nat) :
  ∀ (fl : list (bool * bool)) (ts ts' : list (prog UserLimitResult))
    (w w' : world),
    reservations_consistent userId dailyLimit c0 fl ts w ->
    run_schedule schedule ts w = (ts', w') ->
    ∃ fl', reservations_consistent userId dailyLimit c0 fl' ts' w'.
Proof.
  induction schedule as [|i rest IH]; intros fl ts ts' w w' Hinv Hrun; cbn in Hrun.
  - injection Hrun as <- <-. now exists fl.
  - destruct (step_thread i ts w) as [ts1 w1] eqn:Hstep.
    destruct (step_consistent _ _ _ _ _ _ _ Hinv Hstep) as (_ & fl1 & Hinv1).
    eapply IH; eauto.
Qed.

Lemma granted_le_taken (w : world) (fl : list (bool * bool))
    (ts : list (prog UserLimitResult)) :
  Forall2 (thread_ok userId dailyLimit w) fl ts -> Z.of_nat (granted ts) <= slots_taken fl.
Proof.
  unfold granted. induction 1 as [|f p fl ts [Hd _] _ IH]; [cbn; lia|].
  cbn [List.filter slots_taken foldr].
  change (foldr _ 0 fl) with (slots_taken fl).
  destruct (is_granted p) eqn:Hg.
  - destruct p as [res| |]; try discriminate. cbn in Hg, Hd.
    rewrite (Hd Hg). cbn [length]. lia.
  - destruct f.2; lia.
Qed.

End ConcurrentReservations.

Section ReservationBound.

Import UserLimits.

Lemma reserve_disciplined (userId uname chatType : string) :
  userId ≠ ADMIN_USER_ID ->
  disciplined userId (dailyLimitFor chatType) false false
    (reserveGenerationSlot userId uname chatType).
Proof.
  intros Hadm. unfold reserveGenerationSlot. rewrite (eqb_other _ _ Hadm).
  cbn. intros [[]|e]; cbn; [|exact I].
  intros [[]|e]; cbn; (split; [reflexivity|]).
  - intros [[c|]|e]; cbn; repeat (split; [reflexivity|]);
      intros []; cbn; auto.
  - intros []; cbn; auto.
Qed.

Lemma slots_taken_initial {A : Type} (l : list A) :
  slots_taken ((fun _ => (false, false)) <$> l) = 0.
Proof. induction l as [|a l IH]; cbn; [reflexivity|]. exact IH. Qed.

(** C1 (amended). Requests of one user who is not the administrator, for one
    chat type, in flight together: however their calls interleave and
    whichever of them fail, the number of requests that have returned
    [canGenerate = true] never exceeds [max 0 (limit - c)], where [c] is the
    count in force when they started: the persisted count of a record last
    reset today, and 0 for an older record or for none. *)
Theorem concurrent_grants_bounded (userId chatType : string)
    (names : list string) (schedule : list nat) (w w' : world)
    (ts' : list (prog UserLimitResult)) :
  userId ≠ ADMIN_USER_ID ->
  run_schedule schedule
    ((fun n => reserveGenerationSlot userId n chatType) <$> names) w
    = (ts', w') ->
  Z.of_nat (granted ts')
  <= Z.max 0 (dailyLimitFor chatType
              - effective_count (today w) (users w !! userId)).
Proof.
  intros Hadm Hrun.
  set (c0 := effective_count (today w) (users w !! userId)).
  assert (Hinit : reservations_consistent userId (dailyLimitFor chatType) c0
                    ((fun _ => (false, false)) <$> names)
                    ((fun n => reserveGenerationSlot userId n chatType) <$> names)
                    w).
  { split; [|split].
    - apply Forall2_fmap, Forall_Forall2_diag, Forall_forall.
      intros n _. split; [|discriminate]. now apply reserve_disciplined.
    - rewrite slots_taken_initial. subst c0. lia.
    - left. apply slots_taken_initial. }
  destruct (schedule_consistent _ _ _ _ _ _ _ _ _ Hinit Hrun)
    as (fl' & Hts & _ & Hbound).
  pose proof (granted_le_taken _ _ _ _ _ Hts) as Hle.
  lia.
Qed.

(** A request scheduled alone through [run_schedule] ends as [run] says. *)
Lemma alone_as_run {A : Type} (p : prog A) :
  ∀ w, ∃ n,
    run_schedule (replicate n 0%nat) [p] w
    = ([match (run p w).1 with Returned a => Ret a | Thrown e => Throw e end],
       (run p w).2).
Proof.
  induction p as [a|e|X o k IH]; intros w.
  - now exists 0%nat.
  - now exists 0%nat.
  - cbn. destruct (handle o w) as [r w1] eqn:Hh.
    destruct (IH r w1) as [n Hn]. exists (S n). cbn. now rewrite Hh.
Qed.

End ReservationBound.

(** ** The fallback executor *)

Lemma run_bind {A B : Type} (p : prog A) (f : A -> prog B) :
  ∀ w, run (bind p f) w
       = match run p w with
         | (Returned a, w') => run (f a) w'
         | (Thrown e, w') => (Thrown e, w')
         end.
Proof.
  induction p as [a|e|X o k IH]; intros w; cbn; try reflexivity.
  destruct (handle o w) as [r w']. apply IH.
Qed.

Lemma run_try_catch {A : Type} (p : prog A) (h : error -> prog A) :
  ∀ w, run (try_catch p h) w
       = match run p w with
         | (Returned a, w') => (Returned a, w')
         | (Thrown e, w') => run (h e) w'
         end.
Proof.
  induction p as [a|e|X o k IH]; intros w; cbn; try reflexivity.
  destruct (handle o w) as [r w']. apply IH.
Qed.

Section Fallback.

Import NanoBanano.

Variables (request : NanoBananoRequest) (ev : environment).
Hypothesis ev_quiet : ∀ n, fault ev n = None.

Ltac exec_ev :=
  repeat (unfold handle; cbn;
          repeat match goal with
                 | H : env _ = ev |- _ => rewrite H
                 end;
          rewrite ?ev_quiet; cbn).

(** One turn of the loop on a method that does not deliver: the method is
    called, nothing is written, and the loop goes on with its error. *)
Lemma loop_body_fails (m : generation_method) (w : world) :
  env w = ev ->
  method_fails ev m = true ->
  ∃ w' cs,
    run (loop_body request m) w = (Returned (Continue (method_error ev m)), w')
    ∧ env w' = ev ∧ users w' = users w ∧ today w' = today w
    ∧ trace w' = trace w ++ cs
    ∧ method_calls cs = [m] ∧ error_log cs = [].
Proof.
  intros Hev Hfail. unfold method_fails, method_error in *.
  unfold loop_body. exec_ev.
  destruct (method_reply ev m) as [r|e]; exec_ev.
  - rewrite negb_true_iff in Hfail. rewrite Hfail. exec_ev.
    eexists _, _. split; [reflexivity|]. cbn.
    split; [exact Hev|]. do 3 (split; [reflexivity|]). now split.
  - eexists _, _. split; [reflexivity|]. cbn.
    split; [exact Hev|]. do 2 (split; [reflexivity|]).
    split; [now rewrite <- app_assoc|]. now split.
Qed.

(** One turn of the loop on a method that delivers, when the user has a
    record and the two writes go through: the function returns the image. *)
Lemma loop_body_succeeds (m : generation_method) (w : world)
    (r : method_result) (row : user_row) :
  env w = ev ->
  method_reply ev m = Returned r ->
  mr_success r = true -> truthy (mr_imageBase64 r) = true ->
  users w !! userId request = Some row ->
  ∃ res w' cs,
    run (loop_body request m) w = (Returned (Return res), w')
    ∧ success res = true ∧ imageBase64 res = mr_imageBase64 r
    ∧ trace w' = trace w ++ cs
    ∧ method_calls cs = [m].
Proof.
  intros Hev Hm Hs Hi Hrow. unfold loop_body. exec_ev.
  rewrite Hm. exec_ev. rewrite Hs, Hi. exec_ev.
  unfold storage_increment. rewrite Hrow. exec_ev.
  eexists _, _, _. split; [reflexivity|]. cbn.
  do 2 (split; [reflexivity|]).
  split; [now rewrite <- !app_assoc|]. reflexivity.
Qed.

Lemma method_calls_app (cs cs' : list call) :
  method_calls (cs ++ cs') = method_calls cs ++ method_calls cs'.
Proof. apply omap_app. Qed.

Lemma error_log_app (cs cs' : list call) :
  error_log (cs ++ cs') = error_log cs ++ error_log cs'.
Proof. apply omap_app. Qed.

(** The loop over methods that all fail calls each of them, in order, and
    ends with the error of the last one. *)
Lemma for_methods_all_fail (methods : list generation_method) :
  ∀ (w : world) (lastError : string),
    env w = ev ->
    (∀ m, m ∈ methods -> method_fails ev m = true) ->
    ∃ w' cs,
      run (for_methods request methods lastError) w
      = (Returned (Continue (last_error ev methods lastError)), w')
      ∧ env w' = ev ∧ users w' = users w ∧ today w' = today w
      ∧ trace w' = trace w ++ cs
      ∧ method_calls cs = methods ∧ error_log cs = [].
Proof.
  induction methods as [|m rest IH]; intros w lastError Hev Hall.
  - exists w, []. cbn. rewrite app_nil_r. now repeat split.
  - destruct (loop_body_fails m w Hev) as (w1 & cs1 & Hrun1 & Hev1 & Hu1 & Ht1 & Htr1 & Hm1 & Hl1).
    { apply Hall. left. }
    destruct (IH w1 (method_error ev m) Hev1) as (w2 & cs2 & Hrun2 & Hev2 & Hu2 & Ht2 & Htr2 & Hm2 & Hl2).
    { intros m' Hm'. apply Hall. now right. }
    exists w2, (cs1 ++ cs2).
    cbn [for_methods last_error]. unfold mbind, prog_bind.
    rewrite run_bind, Hrun1, Hrun2.
    split; [reflexivity|]. split; [exact Hev2|].
    split; [congruence|]. split; [congruence|].
    split; [rewrite Htr2, Htr1; now rewrite app_assoc|].
    rewrite method_calls_app, error_log_app, Hm1, Hm2, Hl1, Hl2.
    now split.
Qed.

(** The loop returns the image of the first method that delivers; the
    methods after it are not called. *)
Lemma for_methods_first_success (before after : list generation_method)
    (m : generation_method) (r : method_result) (row : user_row) :
  ∀ (w : world) (lastError : string),
    env w = ev ->
    (∀ m', m' ∈ before -> method_fails ev m' = true) ->
    method_reply ev m = Returned r ->
    mr_success r = true -> truthy (mr_imageBase64 r) = true ->
    users w !! userId request = Some row ->
    ∃ res w' cs,
      run (for_methods request (before ++ m :: after) lastError) w
      = (Returned (Return res), w')
      ∧ success res = true ∧ imageBase64 res = mr_imageBase64 r
      ∧ trace w' = trace w ++ cs
      ∧ method_calls cs = before ++ [m].
Proof.
  induction before as [|b before IH]; intros w lastError Hev Hall Hm Hs Hi Hrow.
  - destruct (loop_body_succeeds m w r row Hev Hm Hs Hi Hrow)
      as (res & w' & cs & Hrun & Hsucc & Himg & Htr & Hmc).
    exists res, w', cs. cbn [app for_methods]. unfold mbind, prog_bind.
    rewrite run_bind, Hrun. now repeat split.
  - destruct (loop_body_fails b w Hev)
      as (w2 & cs2 & Hrun2 & Hev2 & Hu2 & _ & Htr2 & Hm2 & _).
    { apply Hall. left. }
    destruct (IH w2 (method_error ev b) Hev2)
      as (res & w' & cs & Hrun & Hsucc & Himg & Htr & Hmc); auto.
    { intros m' Hm'. apply Hall. now right. }
    { now rewrite Hu2. }
    exists res, w', (cs2 ++ cs).
    cbn [app for_methods]. unfold mbind, prog_bind.
    rewrite run_bind, Hrun2, Hrun.
    split; [reflexivity|]. split; [exact Hsucc|]. split; [exact Himg|].
    split; [rewrite Htr, Htr2; now rewrite app_assoc|].
    now rewrite method_calls_app, Hm2, Hmc.
Qed.

End Fallback.

Lemma storage_upsert_user_lookup (d : Z) (u n : string) (t : gmap string user_row) :
  ∃ r, storage_upsert_user d u n t !! u = Some r.
Proof.
  unfold storage_upsert_user.
  destruct (t !! u); eexists; apply lookup_insert_eq.
Qed.

Section FallbackExecutor.

Import NanoBanano.

Variables (w : world) (request : NanoBananoRequest).
Hypothesis no_faults : quiet w.
Hypothesis key_configured : truthy (process_env (env w) "HUBAI_API_KEY") = true.
Hypothesis not_blocked :
  storage_limit_reached (env w) (userId request) = false
  ∨ userId request ∈ admin_users (env w).

Lemma not_blocked_bool :
  storage_limit_reached (env w) (userId request)
  && negb (bool_decide (userId request ∈ admin_users (env w))) = false.
Proof.
  destruct not_blocked as [->|Hadm]; [reflexivity|].
  rewrite (bool_decide_eq_true_2 _ Hadm). apply andb_false_r.
Qed.

Ltac enter_loop :=
  unfold generateNanoBananoImage; rewrite run_try_catch;
  repeat (unfold handle; cbn -[for_methods generationMethods];
          rewrite ?no_faults; cbn -[for_methods generationMethods]);
  rewrite key_configured; cbn -[for_methods generationMethods];
  repeat (unfold handle; cbn -[for_methods generationMethods];
          rewrite ?no_faults; cbn -[for_methods generationMethods]);
  rewrite not_blocked_bool; cbn -[for_methods generationMethods].

(** C7 (amended). With the API key configured, the user not blocked by the
    daily limit and no call failing for a reason of the environment (so that
    the history record and the counter increment that follow a successful
    generation are written): when a method of [generationMethods] delivers a
    success with a non-empty image and every method before it has failed,
    [generateNanoBananoImage] returns that image, and the methods called are
    the ones before it and itself, in the order of the list; no later method
    is called. *)
Theorem first_success_is_returned (before after : list generation_method)
    (m : generation_method) (r : method_result) :
  generationMethods = before ++ m :: after ->
  (∀ m', m' ∈ before -> method_fails (env w) m' = true) ->
  method_reply (env w) m = Returned r ->
  mr_success r = true -> truthy (mr_imageBase64 r) = true ->
  ∃ res w',
    run (generateNanoBananoImage request) w = (Returned res, w')
    ∧ success res = true
    ∧ imageBase64 res = mr_imageBase64 r
    ∧ method_calls (calls_since w w') = before ++ [m].
Proof.
  intros Hsplit Hbefore Hm Hs Hi.
  enter_loop. rewrite Hsplit.
  unfold mbind, prog_bind. rewrite run_bind.
  match goal with
  | |- context [run (for_methods _ _ _) ?w4] =>
      destruct (storage_upsert_user_lookup (today w) (userId request)
                  (or_else (username request) ("user_" +:+ userId request))
                  (users w)) as [row Hrow];
      destruct (for_methods_first_success request (env w) no_faults
                  before after m r row w4 "" eq_refl Hbefore Hm Hs Hi Hrow)
        as (res & w' & cs & Hrun & Hsucc & Himg & Htr & Hmc)
  end.
  rewrite Hrun. cbn.
  exists res, w'. split; [reflexivity|]. split; [exact Hsucc|].
  split; [exact Himg|].
  unfold calls_since. rewrite Htr. cbn.
  rewrite <- !app_assoc, drop_app_length. cbn. exact Hmc.
Qed.

(** C8 (amended). In the same setting, when every method of
    [generationMethods] fails, by a reported failure or by an exception, all
    four are called in order and [generateNanoBananoImage] returns a fixed
    failure result: [success = false], [limitReached = false], no image, no
    count, and a message that does not depend on the errors. The error of
    the last method is what the function writes to the error log. *)
Theorem all_failures_give_fixed_result :
  (∀ m, m ∈ generationMethods -> method_fails (env w) m = true) ->
  ∃ w',
    run (generateNanoBananoImage request) w
    = (Returned {| success := false; imageBase64 := None;
                   message := "❌ Nano Banano не смог сгенерировать изображение. Попробуйте другое описание!";
                   dailyCount := None; limitReached := false |}, w')
    ∧ method_calls (calls_since w w') = generationMethods
    ∧ error_log (calls_since w w')
      = [("❌ [NanoBanano] All generation methods failed",
          method_error (env w) tryDeepAIGeneration)].
Proof.
  intros Hall.
  enter_loop.
  unfold mbind, prog_bind. rewrite run_bind.
  match goal with
  | |- context [run (for_methods _ _ _) ?w4] =>
      destruct (for_methods_all_fail request (env w) no_faults
                  generationMethods w4 "" eq_refl Hall)
        as (w' & cs & Hrun & Hev & _ & _ & Htr & Hmc & Hlog)
  end.
  rewrite Hrun. unfold handle. cbn.
  eexists. split; [reflexivity|].
  unfold calls_since. cbn. rewrite Htr. cbn.
  rewrite <- !app_assoc, drop_app_length. cbn.
  rewrite method_calls_app, error_log_app, Hmc, Hlog. cbn.
  now split.
Qed.

End FallbackExecutor.

(** ** The delivery step *)

Section Delivery.

Import Workflow.

Ltac branch :=
  repeat progress
    (unfold handle; cbn;
     try first
       [ match goal with
         | |- context [fault ?e ?n] => destruct (fault e n) eqn:?
         end
       | match goal with
         | |- context [if ?b then _ else _] => destruct b eqn:?
         end ]).



End Delivery.

(** ** The theorems at the sample worlds *)

Section Samples.

Import UserLimits.

Lemma sample_env_quiet (count date : Z) : quiet (sample_world sample_env count date).
Proof. intros n. reflexivity. Defined.

(** C2 at the user ["42"] with one generation today: the second is granted. *)
Lemma reserve_on_current_record_witness :
  ∃ res w',
    run (reserveGenerationSlot "42" "bob" "private")
      (sample_world sample_env 1 20000) = (Returned res, w')
    ∧ canGenerate res = true ∧ dailyCount res = 2.
Proof.
  destruct (reserve_on_current_record (sample_world sample_env 1 20000)
              (sample_env_quiet 1 20000) "42" "bob" "private"
              {| username := "bob"; daily_image_count := 1;
                 last_reset_date := 20000 |})
    as (res & w' & Hrun & Hiff & Hlt & _).
  - discriminate.
  - reflexivity.
  - reflexivity.
  - exists res, w'. split; [exact Hrun|]. split.
    + apply Hiff. vm_compute. reflexivity.
    + apply Hlt. vm_compute. reflexivity.
Defined.

(** C4 at a record of yesterday with three generations. *)
Lemma lazy_reset_on_access_witness :
  ∃ res w',
    run (getUserStats "42" "private") (sample_world sample_env 3 19999)
    = (Returned (Some res), w')
    ∧ dailyCount res = 0.
Proof.
  destruct (lazy_reset_on_access (sample_world sample_env 3 19999)
              (sample_env_quiet 3 19999) "42" "bob" "private"
              {| username := "bob"; daily_image_count := 3;
                 last_reset_date := 19999 |})
    as (_ & res & w' & Hrun & Hcount & _).
  - reflexivity.
  - vm_compute. reflexivity.
  - exists res, w'. split; [exact Hrun|exact Hcount].
Defined.

(** C5 at a record of today with two generations. *)
Lemma release_decrements_today_only_witness :
  ∃ w',
    run (releaseReservedSlot "42") (sample_world sample_env 2 20000)
    = (Returned tt, w')
    ∧ users w' = {[ "42" := {| username := "bob"; daily_image_count := 2 - 1;
                               last_reset_date := 20000 |} ]}.
Proof.
  destruct (release_decrements_today_only (sample_world sample_env 2 20000)
              (sample_env_quiet 2 20000) "42")
    as (w' & Hrun & Hdec & _).
  - discriminate.
  - exists w'. split; [exact Hrun|].
    destruct (Hdec {| username := "bob"; daily_image_count := 2;
                      last_reset_date := 20000 |}) as [Hu _].
    + reflexivity.
    + reflexivity.
    + vm_compute. reflexivity.
    + rewrite Hu. apply insert_singleton_eq.
Defined.


(** C10 at a user without a record. *)
Lemma stats_null_cases_witness :
  (run (getUserStats "43" "private") (sample_world sample_env 1 20000)).1
  = Returned None.
Proof.
  destruct (stats_null_cases (sample_world sample_env 1 20000) "43" "private")
    as [Hnone _].
  - discriminate.
  - reflexivity.
  - apply Hnone; reflexivity.
Defined.

(** C9 (amended) at the administrator. *)
Lemma admin_bypasses_statements_witness :
  ∃ w',
    run (releaseReservedSlot ADMIN_USER_ID) (sample_world sample_env 1 20000)
    = (Returned tt, w')
    ∧ users w' = users (sample_world sample_env 1 20000)
    ∧ calls_since (sample_world sample_env 1 20000) w'
      = [Call PoolConnect; Call ClientRelease].
Proof.
  destruct (admin_bypasses_statements (sample_world sample_env 1 20000)
              "admin" "private") as [_ Hrelease].
  - reflexivity.
  - exact Hrelease.
Defined.

(** C9, as stated, fails: the bypass of the administrator takes a client
    from the shared pool and gives it back, and when no client can be had
    the call throws instead of returning [canGenerate = true]. *)
Lemma admin_bypass_touches_pool :
  List.filter touches_pool
    (trace (run (reserveGenerationSlot ADMIN_USER_ID "admin" "private")
              (sample_world sample_env 1 20000)).2)
  = [Call PoolConnect; Call ClientRelease]
  ∧ (run (reserveGenerationSlot ADMIN_USER_ID "admin" "private")
       (sample_world (with_fault 0 "timeout exceeded when trying to connect"
                        sample_env) 1 20000)).1
    = Thrown "timeout exceeded when trying to connect".
Proof. split; reflexivity. Qed.

(** C6 (amended) at a failing upsert. *)
Lemma reserve_fails_closed_witness :
  ∃ w',
    run (reserveGenerationSlot "42" "bob" "private")
      (sample_world (with_fault 1 "connection terminated" sample_env) 1 20000)
    = (Returned {| canGenerate := false; dailyCount := 0; remaining := 0;
                   isAdmin := false; limitReached := true;
                   message := ReservationError |}, w')
    ∧ users w'
      = users (sample_world (with_fault 1 "connection terminated" sample_env)
                 1 20000).
Proof.
  destruct (reserve_fails_closed
              (sample_world (with_fault 1 "connection terminated" sample_env)
                 1 20000)
              "42" "bob" "private" "connection terminated")
    as (_ & Hupsert & _).
  - discriminate.
  - destruct Hupsert as (w' & Hrun & Husers & _).
    + reflexivity.
    + reflexivity.
    + exists w'. split; [exact Hrun|exact Husers].
Defined.

(** C6, as stated, fails. When the upsert throws, the result carries
    [limitReached = true] and step1 answers the user with the text of the
    private limit, not with a text about a temporary failure; when no client
    can be had, [reserveGenerationSlot] does not return at all. *)
Lemma storage_failure_shown_as_limit :
  (limitReached <$>
     returned (run (reserveGenerationSlot "42" "bob" "private")
                 (sample_world (with_fault 1 "connection terminated" sample_env)
                    1 20000)).1)
  = Some true
  ∧ (Workflow.response <$>
       returned (run (Workflow.step1 sample_message)
                   (sample_world (with_fault 1 "connection terminated" sample_env)
                      1 20000)).1)
    = Some "Ваш лимит на сегодня закончен: 3/3. Приходите завтра. Хочешь безлимит? Пиши @dmitriy_ferixdi"
  ∧ returned (run (reserveGenerationSlot "42" "bob" "private")
                (sample_world (with_fault 0 "timeout exceeded when trying to connect"
                                 sample_env) 1 20000)).1
    = None.
Proof. repeat split; reflexivity. Qed.

(** C1 (amended) at five requests in flight for a user with one generation
    today. *)
Lemma concurrent_grants_bounded_witness :
  Z.of_nat
    (granted
       (run_schedule sample_schedule five_requests
          (sample_world sample_env 1 20000)).1)
  <= Z.max 0 (dailyLimitFor "private"
              - effective_count 20000
                  (users (sample_world sample_env 1 20000) !! "42")).
Proof.
  apply (concurrent_grants_bounded "42" "private"
           ["bob"; "bob"; "bob"; "bob"; "bob"] sample_schedule
           (sample_world sample_env 1 20000)
           (run_schedule sample_schedule five_requests
              (sample_world sample_env 1 20000)).2
           (run_schedule sample_schedule five_requests
              (sample_world sample_env 1 20000)).1).
  - discriminate.
  - apply surjective_pairing.
Defined.

(** C1, as stated, fails for a record that is not of today: with a persisted
    count of 3 under the limit 3, [limit - countAtStart] is 0, and a request
    is granted all the same, because the record of yesterday counts as 0. It
    fails for the administrator as well, whose requests are all granted. *)
Lemma persisted_count_does_not_bound_grants :
  (daily_image_count <$> users (sample_world sample_env 3 19999) !! "42")
  = Some 3
  ∧ granted
      (run_schedule [0; 0; 0; 0]%nat
         [reserveGenerationSlot "42" "bob" "private"]
         (sample_world sample_env 3 19999)).1
    = 1%nat
  ∧ ¬ (Z.of_nat 1 <= dailyLimitFor "private" - 3)
  ∧ granted
      (run_schedule [0; 1; 0; 1]%nat
         [reserveGenerationSlot ADMIN_USER_ID "admin" "private";
          reserveGenerationSlot ADMIN_USER_ID "admin" "private"]
         (sample_world sample_env 3 20000)).1
    = 2%nat.
Proof.
  split; [reflexivity|]. split; [reflexivity|]. split; [|reflexivity].
  vm_compute. intros H. now apply H.
Qed.

(** The bound of C1 (amended) is reached: from a record of yesterday, five
    requests in flight under the limit 3 end with three granted. *)
Example stale_record_grants_limit :
  granted
    (run_schedule sample_schedule five_requests
       (sample_world sample_env 7 19999)).1
  = 3%nat.
Proof. reflexivity. Qed.



(** C3 at the failing input: the delivery of a photo increments the
    counter of the user once more. The slot reserved by step1 has brought
    the count to 1, and the successful delivery by step2 leaves it at 2; the
    whole workflow takes the user from 0 to 2 for one image. *)
Lemma delivery_increments_quota :
  (Workflow.sent <$>
     returned (run (Workflow.step2 sample_generated)
                 (sample_world sample_env 1 20000)).1)
  = Some true
  ∧ List.filter writes_quota
      (trace (run (Workflow.step2 sample_generated)
                (sample_world sample_env 1 20000)).2)
    = [Call (incrementUserImageCount "42")]
  ∧ (daily_image_count <$>
       users (run (Workflow.step2 sample_generated)
                (sample_world sample_env 1 20000)).2 !! "42")
    = Some 2
  ∧ (daily_image_count <$>
       users (run (Workflow.telegramBotWorkflow sample_message)
                (sample_world sample_env 0 20000)).2 !! "42")
    = Some 2.
Proof. repeat split; reflexivity. Qed.

(** C7 (amended) where the first method throws and the second delivers. *)
Lemma first_success_is_returned_witness :
  ∃ res w',
    run (NanoBanano.generateNanoBananoImage sample_request)
      (sample_world second_method_delivers 0 20000) = (Returned res, w')
    ∧ NanoBanano.imageBase64 res = Some "c2Vjb25k"
    ∧ method_calls (calls_since (sample_world second_method_delivers 0 20000) w')
      = [tryOpenAIImagesAPI; tryGeminiWithImagePrompt].
Proof.
  destruct (first_success_is_returned
              (sample_world second_method_delivers 0 20000) sample_request)
    with (before := [tryOpenAIImagesAPI])
         (after := [tryHuggingFaceAPI; tryDeepAIGeneration])
         (m := tryGeminiWithImagePrompt)
         (r := {| mr_success := true; mr_imageBase64 := Some "c2Vjb25k";
                  mr_message := None |})
    as (res & w' & Hrun & _ & Himg & Hcalls).
  - intros n. reflexivity.
  - reflexivity.
  - left. reflexivity.
  - reflexivity.
  - intros m' Hm'. apply list_elem_of_singleton in Hm'. subst m'. reflexivity.
  - reflexivity.
  - reflexivity.
  - reflexivity.
  - exists res, w'. split; [exact Hrun|]. split; [exact Himg|exact Hcalls].
Defined.

(** C7, as stated, fails: the first method delivers an image, the write of
    the history record throws, the loop takes this for a failure of the
    method and calls the second method, whose image is the one returned. *)
Lemma later_method_called_after_success :
  method_fails history_write_fails tryOpenAIImagesAPI = false
  ∧ method_calls
      (trace (run (NanoBanano.generateNanoBananoImage sample_request)
                (sample_world history_write_fails 0 20000)).2)
    = [tryOpenAIImagesAPI; tryGeminiWithImagePrompt]
  ∧ (NanoBanano.imageBase64 <$>
       returned (run (NanoBanano.generateNanoBananoImage sample_request)
                   (sample_world history_write_fails 0 20000)).1)
    = Some (Some "c2Vjb25k").
Proof. repeat split; reflexivity. Qed.

(** C8 (amended) where every method reports a failure. *)
Lemma all_failures_give_fixed_result_witness :
  ∃ w',
    (run (NanoBanano.generateNanoBananoImage sample_request)
       (sample_world sample_env 0 20000)).2 = w'
    ∧ error_log (calls_since (sample_world sample_env 0 20000) w')
      = [("❌ [NanoBanano] All generation methods failed",
          "HuggingFace API failed")].
Proof.
  destruct (all_failures_give_fixed_result
              (sample_world sample_env 0 20000) sample_request)
    as (w' & Hrun & _ & Hlog).
  - intros n. reflexivity.
  - reflexivity.
  - left. reflexivity.
  - intros m _. now destruct m.
  - exists w'. split; [now rewrite Hrun|exact Hlog].
Defined.

(** C8, as stated, fails: the result does not carry the last error. Two runs
    whose methods fail with different errors return the same result, whose
    message is a fixed text. *)
Lemma failure_result_ignores_last_error :
  method_error (with_methods (fun _ => reports "quota exceeded") sample_env)
    tryDeepAIGeneration
  ≠ method_error (with_methods (fun _ => Thrown "socket hang up") sample_env)
      tryDeepAIGeneration
  ∧ (run (NanoBanano.generateNanoBananoImage sample_request)
       (sample_world (with_methods (fun _ => reports "quota exceeded") sample_env)
          0 20000)).1
    = (run (NanoBanano.generateNanoBananoImage sample_request)
         (sample_world (with_methods (fun _ => Thrown "socket hang up") sample_env)
            0 20000)).1
  ∧ (NanoBanano.message <$>
       returned (run (NanoBanano.generateNanoBananoImage sample_request)
                   (sample_world
                      (with_methods (fun _ => reports "quota exceeded") sample_env)
                      0 20000)).1)
    = Some "❌ Nano Banano не смог сгенерировать изображение. Попробуйте другое описание!".
Proof. split; [discriminate|]. split; reflexivity. Qed.

End Samples.

(** ** More about the quota store *)

Lemma perform_env {X : Type} (o : op X) (w : world) :
  env (perform o w).2 = env w.
Proof. now destruct o. Qed.

Lemma handle_env {X : Type} (o : op X) (w : world) :
  env (handle o w).2 = env w.
Proof.
  unfold handle.
  destruct (if can_fail o then _ else _); [reflexivity|].
  now rewrite perform_env.
Qed.

Lemma run_env {A : Type} (p : prog A) : ∀ w, env (run p w).2 = env w.
Proof.
  induction p as [a|e|X o k IH]; intros w; cbn; try reflexivity.
  destruct (handle o w) as [r w1] eqn:Hh. rewrite IH.
  pose proof (handle_env o w) as He. now rewrite Hh in He.
Qed.

Lemma run_today {A : Type} (p : prog A) : ∀ w, today (run p w).2 = today w.
Proof.
  induction p as [a|e|X o k IH]; intros w; cbn; try reflexivity.
  destruct (handle o w) as [r w1] eqn:Hh. rewrite IH.
  pose proof (handle_today o w) as He. now rewrite Hh in He.
Qed.

Lemma quiet_env (w w' : world) : env w' = env w -> quiet w -> quiet w'.
Proof. intros He Hq n. rewrite He. apply Hq. Qed.

(** Splits a run along the faults and the tests it meets. *)
Ltac split_run :=
  repeat progress
    (unfold handle; cbn;
     try first
       [ match goal with
         | |- context [fault ?e ?n] => destruct (fault e n) eqn:?
         end
       | match goal with
         | |- context [if ?b then _ else _] => destruct b eqn:?
         end ]).

(** Takes the result of a run that has been computed. *)
Ltac take_result :=
  let H := fresh in
  intros H; first [discriminate H | injection H as <- <-].

Section QuotaStoreAlone.

Import UserLimits.

(** The conditional update returns a row only with a count within the
    limit. *)
Lemma sql_reserve_slot_within (u : string) (l c : Z) (t : gmap string user_row) :
  (sql_reserve_slot u l t).2 = Some c -> c <= l.
Proof.
  unfold sql_reserve_slot. destruct (t !! u) as [r|]; [|discriminate].
  destruct (daily_image_count r <? l) eqn:Hlt; [|discriminate].
  apply Z.ltb_lt in Hlt. cbn. intros [= <-]. lia.
Qed.

(** X1. [getUserStats] never writes: whatever the user, the chat type and
    the failures of the pool or of the query, the [users] table and the
    history are after the call what they were before, and the call runs no
    statement but the SELECT. *)
Theorem stats_never_writes (w : world) (userId chatType : string) :
  users (run (getUserStats userId chatType) w).2 = users w
  ∧ generations (run (getUserStats userId chatType) w).2 = generations w
  ∧ List.filter writes_quota
      (calls_since w (run (getUserStats userId chatType) w).2) = [].
Proof.
  unfold getUserStats.
  destruct (String.eqb userId ADMIN_USER_ID); split_run;
    try destruct (sql_select_stats _ _ _); split_run;
    (split; [reflexivity|]); (split; [reflexivity|]);
    unfold calls_since; cbn;
    rewrite <- ?app_assoc, ?drop_app_length, ?drop_all; reflexivity.
Qed.

(** X2. Every result [reserveGenerationSlot] returns is well formed,
    whatever fails on the way, and the call rejects only when no client of
    the pool can be acquired, with the error of the pool. In a result,
    [limitReached] is the negation of [canGenerate], [remaining] is not
    negative, the result says [isAdmin] exactly for the administrator, a
    refusal leaves nothing remaining, and a grant to a user who is not the
    administrator reports a count within the limit of the chat type with
    [remaining = limit - dailyCount]. *)
Theorem reservation_result_well_formed (w : world)
    (userId uname chatType : string) :
  match (run (reserveGenerationSlot userId uname chatType) w).1 with
  | Thrown e => fault_at w 0 = Some e
  | Returned r =>
      fault_at w 0 = None
      ∧ limitReached r = negb (canGenerate r)
      ∧ 0 <= remaining r
      ∧ (isAdmin r = true <-> userId = ADMIN_USER_ID)
      ∧ (canGenerate r = false -> remaining r = 0)
      ∧ (canGenerate r = true -> isAdmin r = false ->
           dailyCount r <= dailyLimitFor chatType
           ∧ remaining r = dailyLimitFor chatType - dailyCount r)
  end.
Proof.
  unfold reserveGenerationSlot, fault_at. rewrite Nat.add_0_r.
  destruct (String.eqb_spec userId ADMIN_USER_ID) as [Hadm|Hadm].
  - split_run; repeat split; (lia || discriminate || auto).
  - split_run;
      try (destruct (sql_reserve_slot _ _ _).2 as [c|] eqn:Hc; cbn);
      try apply sql_reserve_slot_within in Hc;
      repeat split; (lia || discriminate || auto).
Qed.

End QuotaStoreAlone.

Section QuotaStoreInSequence.

Import UserLimits.

Ltac exec_quiet H :=
  repeat (unfold handle; cbn; rewrite ?H; cbn).

(** What one reservation does when nothing fails, in terms of the count in
    force. *)
Lemma reserve_step (w : world) (userId uname chatType : string) :
  quiet w -> userId ≠ ADMIN_USER_ID ->
  let e := effective_count (today w) (users w !! userId) in
  let l := dailyLimitFor chatType in
  ∃ r w',
    run (reserveGenerationSlot userId uname chatType) w = (Returned r, w')
    ∧ env w' = env w ∧ today w' = today w
    ∧ canGenerate r = (e <? l)
    ∧ isAdmin r = false
    ∧ (canGenerate r = true -> dailyCount r = e + 1 ∧ remaining r = l - (e + 1))
    ∧ users w' =
        <[userId := {| username := uname;
                       daily_image_count := if e <? l then e + 1 else e;
                       last_reset_date :=
                         match users w !! userId with
                         | Some row => Z.max (last_reset_date row) (today w)
                         | None => today w
                         end |}]> (users w).
Proof.
  intros Hq Hadm e l. subst e l.
  unfold reserveGenerationSlot. rewrite (eqb_other _ _ Hadm).
  exec_quiet Hq.
  unfold sql_upsert_user, sql_reserve_slot, effective_count.
  destruct (users w !! userId) as [row|] eqn:Hrow;
    rewrite lookup_insert_eq; cbn.
  - destruct (last_reset_date row <? today w) eqn:Hd;
      [apply Z.ltb_lt in Hd|apply Z.ltb_ge in Hd].
    + destruct (0 <? dailyLimitFor chatType) eqn:Hlt; exec_quiet Hq;
        eexists _, _; (split; [reflexivity|]); cbn;
        rewrite ?insert_insert_eq, ?(Z.max_r _ _ (Z.lt_le_incl _ _ Hd));
        repeat split; try discriminate; try lia;
        try (apply Z.ltb_lt in Hlt; lia).
    + destruct (daily_image_count row <? dailyLimitFor chatType) eqn:Hlt;
        exec_quiet Hq;
        eexists _, _; (split; [reflexivity|]); cbn;
        rewrite ?insert_insert_eq, ?(Z.max_l _ _ Hd);
        repeat split; try discriminate; try lia;
        try (apply Z.ltb_lt in Hlt; lia).
  - destruct (0 <? dailyLimitFor chatType) eqn:Hlt; exec_quiet Hq;
      eexists _, _; (split; [reflexivity|]); cbn;
      rewrite ?insert_insert_eq;
      repeat split; try discriminate; try lia;
        try (apply Z.ltb_lt in Hlt; lia).
Qed.

Lemma reserve_step_effective (w : world) (userId uname chatType : string) :
  quiet w -> userId ≠ ADMIN_USER_ID ->
  let e := effective_count (today w) (users w !! userId) in
  let l := dailyLimitFor chatType in
  ∃ r w',
    run (reserveGenerationSlot userId uname chatType) w = (Returned r, w')
    ∧ quiet w' ∧ today w' = today w
    ∧ canGenerate r = (e <? l)
    ∧ effective_count (today w') (users w' !! userId)
      = if e <? l then e + 1 else e.
Proof.
  intros Hq Hadm e l.
  destruct (reserve_step w userId uname chatType Hq Hadm)
    as (r & w' & Hrun & Hev & Htd & Hcan & _ & _ & Hu).
  exists r, w'. split; [exact Hrun|]. split; [now apply (quiet_env w)|].
  split; [exact Htd|]. split; [exact Hcan|].
  rewrite Hu, Htd, lookup_insert_eq. cbn.
  destruct (users w !! userId) as [row|]; cbn.
  - destruct (Z.max (last_reset_date row) (today w) <? today w) eqn:Hm;
      [apply Z.ltb_lt in Hm; lia|reflexivity].
  - now rewrite Z.ltb_irrefl.
Qed.

(** X3. Reservations in sequence: of [n] calls of [reserveGenerationSlot]
    made one after the other for a user who is not the administrator, with
    nothing failing, exactly [min n (max 0 (limit - c))] are granted, where
    [c] is the count in force before the first one. *)
Theorem sequential_reservations_granted (n : nat) :
  ∀ (w : world) (userId uname chatType : string),
    quiet w -> userId ≠ ADMIN_USER_ID ->
    ∃ rs w',
      run (reserve_times n userId uname chatType) w = (Returned rs, w')
      ∧ length rs = n
      ∧ Z.of_nat (grants rs)
        = Z.min (Z.of_nat n)
            (Z.max 0 (dailyLimitFor chatType
                      - effective_count (today w) (users w !! userId))).
Proof.
  induction n as [|n IH]; intros w userId uname chatType Hq Hadm.
  - exists [], w. cbn. repeat split. lia.
  - destruct (reserve_step_effective w userId uname chatType Hq Hadm)
      as (r & w1 & Hrun1 & Hq1 & Htd1 & Hcan & Heff).
    destruct (IH w1 userId uname chatType Hq1 Hadm)
      as (rs & w2 & Hrun2 & Hlen & Hgr).
    exists (r :: rs), w2.
    cbn [reserve_times]. unfold mbind, prog_bind.
    rewrite run_bind, Hrun1, run_bind, Hrun2. cbn [run].
    split; [reflexivity|]. split; [cbn; now rewrite Hlen|].
    unfold grants in *. cbn [List.filter]. rewrite Hcan.
    rewrite Heff in Hgr.
    destruct (_ <? _) eqn:Hlt;
      [apply Z.ltb_lt in Hlt|apply Z.ltb_ge in Hlt]; cbn [length]; lia.
Qed.

(** What one release does when nothing fails. *)
Lemma release_step (w : world) (userId : string) :
  quiet w -> userId ≠ ADMIN_USER_ID ->
  ∃ w',
    run (releaseReservedSlot userId) w = (Returned tt, w')
    ∧ env w' = env w ∧ today w' = today w
    ∧ users w' = (sql_release_slot (today w) userId (users w)).1.
Proof.
  intros Hq Hadm.
  unfold releaseReservedSlot. rewrite (eqb_other _ _ Hadm).
  exec_quiet Hq. eexists. split; [reflexivity|]. now cbn.
Qed.

(** X4. A slot that is reserved and then released is given back: for a user
    who is not the administrator, with a sound record or none and nothing
    failing, a granted [reserveGenerationSlot] followed by
    [releaseReservedSlot] leaves the record at the count that was in force
    before the reservation, reset today. *)
Theorem reserve_then_release_restores (w : world)
    (userId uname chatType : string) :
  quiet w -> userId ≠ ADMIN_USER_ID ->
  sound_record (today w) (users w !! userId) ->
  effective_count (today w) (users w !! userId) < dailyLimitFor chatType ->
  ∃ r w1 w2,
    run (reserveGenerationSlot userId uname chatType) w = (Returned r, w1)
    ∧ canGenerate r = true
    ∧ run (releaseReservedSlot userId) w1 = (Returned tt, w2)
    ∧ users w2 !! userId =
        Some {| username := uname;
                daily_image_count :=
                  effective_count (today w) (users w !! userId);
                last_reset_date := today w |}.
Proof.
  intros Hq Hadm Hsound Hlt.
  destruct (reserve_step w userId uname chatType Hq Hadm)
    as (r & w1 & Hrun1 & Hev1 & Htd1 & Hcan & _ & _ & Hu1).
  destruct (release_step w1 userId (quiet_env _ _ Hev1 Hq) Hadm)
    as (w2 & Hrun2 & _ & _ & Hu2).
  exists r, w1, w2. split; [exact Hrun1|].
  apply Z.ltb_lt in Hlt. rewrite Hlt in *.
  split; [exact Hcan|]. split; [exact Hrun2|].
  rewrite Hu2, Hu1, Htd1. unfold sql_release_slot.
  rewrite lookup_insert_eq. cbn.
  assert (Hdate : match users w !! userId with
                  | Some row => Z.max (last_reset_date row) (today w)
                  | None => today w
                  end = today w).
  { revert Hsound. destruct (users w !! userId) as [row|]; [|reflexivity].
    cbn. lia. }
  assert (Hnn : 0 <= effective_count (today w) (users w !! userId)).
  { revert Hsound. unfold effective_count.
    destruct (users w !! userId) as [row|]; [|lia].
    cbn. intros [_ Hc]. now destruct (last_reset_date row <? today w). }
  rewrite Hdate, Z.eqb_refl.
  destruct (0 <? _) eqn:Hpos; [|apply Z.ltb_ge in Hpos; lia].
  cbn. rewrite lookup_insert_eq. f_equal. f_equal. lia.
Qed.

(** X5. Releases in sequence never go below zero: for a user who is not the
    administrator, whose record was last reset today and holds a count
    [c >= 0], [n] calls of [releaseReservedSlot] with nothing failing leave
    the count at [max 0 (c - n)]. *)
Theorem repeated_release_floor (n : nat) :
  ∀ (w : world) (userId : string) (row : user_row),
    quiet w -> userId ≠ ADMIN_USER_ID ->
    users w !! userId = Some row ->
    last_reset_date row = today w ->
    0 <= daily_image_count row ->
    ∃ w',
      run (release_times n userId) w = (Returned tt, w')
      ∧ users w' !! userId =
          Some {| username := username row;
                  daily_image_count :=
                    Z.max 0 (daily_image_count row - Z.of_nat n);
                  last_reset_date := last_reset_date row |}.
Proof.
  induction n as [|n IH]; intros w userId row Hq Hadm Hrow Hd Hc.
  - exists w. split; [reflexivity|]. rewrite Hrow. f_equal.
    destruct row; cbn in *. f_equal. lia.
  - destruct (release_step w userId Hq Hadm) as (w1 & Hrun1 & Hev1 & Htd1 & Hu1).
    unfold sql_release_slot in Hu1. rewrite Hrow, Hd, Z.eqb_refl in Hu1.
    cbn [andb] in Hu1.
    destruct (0 <? daily_image_count row) eqn:Hpos;
      [apply Z.ltb_lt in Hpos|apply Z.ltb_ge in Hpos]; cbn in Hu1.
    + destruct (IH w1 userId
                  {| username := username row;
                     daily_image_count := Z.max (daily_image_count row - 1) 0;
                     last_reset_date := today w |})
        as (w2 & Hrun2 & Hu2);
        cbn [daily_image_count last_reset_date username]; try lia.
      * now apply (quiet_env w).
      * exact Hadm.
      * rewrite Hu1. apply lookup_insert_eq.
      * exists w2.
        change (release_times (S n) userId)
          with (bind (releaseReservedSlot userId)
                  (fun _ => release_times n userId)).
        rewrite run_bind, Hrun1. split; [exact Hrun2|].
        rewrite Hu2. cbn. rewrite Hd. f_equal. f_equal. lia.
    + destruct (IH w1 userId row) as (w2 & Hrun2 & Hu2); try lia.
      * now apply (quiet_env w).
      * exact Hadm.
      * now rewrite Hu1.
      * exists w2.
        change (release_times (S n) userId)
          with (bind (releaseReservedSlot userId)
                  (fun _ => release_times n userId)).
        rewrite run_bind, Hrun1. split; [exact Hrun2|].
        rewrite Hu2. f_equal. f_equal. lia.
Qed.

(** X6. [getUserStats] foretells the reservation: for a user who is not the
    administrator and has a record, with nothing failing, the statistics say
    [canGenerate] exactly when a [reserveGenerationSlot] made in the same
    world is granted, and then the reservation reports one more generation
    and one less remaining than the statistics. *)
Theorem stats_foretell_reservation (w : world)
    (userId uname chatType : string) (row : user_row) :
  quiet w -> userId ≠ ADMIN_USER_ID ->
  users w !! userId = Some row ->
  ∃ s r,
    (run (getUserStats userId chatType) w).1 = Returned (Some s)
    ∧ (run (reserveGenerationSlot userId uname chatType) w).1 = Returned r
    ∧ canGenerate s = canGenerate r
    ∧ (canGenerate r = true ->
         dailyCount r = dailyCount s + 1
         ∧ remaining r = remaining s - 1).
Proof.
  intros Hq Hadm Hrow.
  destruct (reserve_step w userId uname chatType Hq Hadm)
    as (r & w1 & Hrun1 & _ & _ & Hcan & _ & Hgr & _).
  rewrite Hrun1. cbn [fst].
  unfold getUserStats. rewrite (eqb_other _ _ Hadm).
  exec_quiet Hq. unfold sql_select_stats. rewrite Hrow. cbn.
  eexists _, r. split; [reflexivity|]. split; [reflexivity|]. cbn.
  unfold effective_count in *. rewrite Hrow in *.
  rewrite Hcan. rewrite Z.leb_antisym.
  split; [apply negb_involutive|].
  intros Hg. rewrite Hg in Hcan. apply Z.ltb_lt in Hg.
  destruct (Hgr Hcan) as [-> ->]. lia.
Qed.

End QuotaStoreInSequence.

(** ** Functions that cannot reject *)

Lemma returns_ret {A : Type} (a : A) : always_returns (Ret a).
Proof. intros w. now exists a, w. Qed.

Lemma returns_bind {A B : Type} (p : prog A) (f : A -> prog B) :
  always_returns p -> (∀ a, always_returns (f a)) -> always_returns (bind p f).
Proof.
  intros Hp Hf w. rewrite run_bind.
  destruct (Hp w) as (a & w1 & ->). apply Hf.
Qed.

(** A [try] whose [catch] block cannot throw returns, whatever it tries. *)
Lemma returns_try_catch {A : Type} (p : prog A) (h : error -> prog A) :
  (∀ e, always_returns (h e)) -> always_returns (try_catch p h).
Proof.
  intros Hh w. rewrite run_try_catch.
  destruct (run p w) as [[a|e] w1]; [now exists a, w1|apply Hh].
Qed.

Lemma only_ret {A : Type} (P : A -> Prop) (a : A) : P a -> returns_only P (Ret a).
Proof. intros H w a' w' [= <- _]. exact H. Qed.

Lemma only_throw {A : Type} (P : A -> Prop) (e : error) :
  returns_only P (Throw e).
Proof. intros w a w' H. discriminate H. Qed.

Lemma only_await {X : Type} (P : X -> Prop) (o : op X) :
  (∀ x, P x) -> returns_only P (await o).
Proof. intros H w a w' _. apply H. Qed.

Lemma only_bind {A B : Type} (P : B -> Prop) (p : prog A) (f : A -> prog B) :
  (∀ a, returns_only P (f a)) -> returns_only P (bind p f).
Proof.
  intros Hf w b w'. rewrite run_bind.
  destruct (run p w) as [[a|e] w1]; [apply Hf|discriminate].
Qed.

Lemma only_try_catch {A : Type} (P : A -> Prop) (p : prog A)
    (h : error -> prog A) :
  returns_only P p -> (∀ e, returns_only P (h e)) ->
  returns_only P (try_catch p h).
Proof.
  intros Hp Hh w a w'. rewrite run_try_catch.
  destruct (run p w) as [[a1|e] w1] eqn:Hrun.
  - intros [= <- <-]. exact (Hp _ _ _ Hrun).
  - apply Hh.
Qed.

Section NeverThrows.

Import Workflow.

Lemma step1_catch_returns (inputData : WorkflowInput)
    (slotReservation : option UserLimits.UserLimitResult) :
  always_returns (step1_catch inputData slotReservation).
Proof.
  unfold step1_catch, mbind, prog_bind. apply returns_bind.
  - destruct slotReservation as [r|]; [|apply returns_ret].
    destruct (_ && _); [|apply returns_ret].
    apply returns_try_catch. intros e. apply returns_ret.
  - intros []. apply returns_ret.
Qed.

Lemma step1_returns (inputData : WorkflowInput) :
  always_returns (step1 inputData).
Proof.
  unfold step1.
  destruct (String.eqb _ _); [apply returns_ret|].
  destruct (match fileIds inputData with Some (_ :: _) => _ | _ => _ end);
    [apply returns_ret|].
  unfold mbind, prog_bind. apply returns_bind.
  - unfold capture. apply returns_try_catch. intros e. apply returns_ret.
  - intros [slotReservation|e].
    + apply returns_try_catch. intros e. apply step1_catch_returns.
    + apply step1_catch_returns.
Qed.

(** X7. step1 cannot reject, and what it returns is addressed to the
    sender: whatever the message, the state of the tables and the calls that
    fail (the pool, a statement, the generator, the temporary file, the
    release of the slot), [execute] returns an output for step2 that carries
    the chat, the message and the user of the request, and it carries an
    image only when it reports success. *)
Theorem step1_never_throws (inputData : WorkflowInput) (w : world) :
  ∃ out w',
    run (step1 inputData) w = (Returned out, w')
    ∧ chatId out = in_chatId inputData
    ∧ messageId out = in_messageId inputData
    ∧ userId out = in_userId inputData
    ∧ (imagePath out ≠ None -> success out = true).
Proof.
  destruct (step1_returns inputData w) as (out & w' & Hrun).
  exists out, w'. split; [exact Hrun|].
  revert w out w' Hrun.
  change (returns_only
            (fun out => chatId out = in_chatId inputData
                        ∧ messageId out = in_messageId inputData
                        ∧ userId out = in_userId inputData
                        ∧ (imagePath out ≠ None -> success out = true))
            (step1 inputData)).
  assert (Hcatch : ∀ slotReservation,
            returns_only
              (fun out => chatId out = in_chatId inputData
                          ∧ messageId out = in_messageId inputData
                          ∧ userId out = in_userId inputData
                          ∧ (imagePath out ≠ None -> success out = true))
              (step1_catch inputData slotReservation)).
  { intros slotReservation. unfold step1_catch, mbind, prog_bind.
    apply only_bind. intros _. apply only_ret. cbn. now repeat split. }
  unfold step1.
  destruct (String.eqb _ _); [apply only_ret; cbn; now repeat split|].
  destruct (match fileIds inputData with Some (_ :: _) => _ | _ => _ end);
    [apply only_ret; cbn; now repeat split|].
  unfold mbind, prog_bind. apply only_bind. intros [slotReservation|e];
    [|apply Hcatch].
  apply only_try_catch; [|intros e; apply Hcatch].
  unfold step1_generate.
  destruct (negb (UserLimits.canGenerate slotReservation));
    [apply only_ret; cbn; now repeat split|].
  unfold mbind, prog_bind. apply only_bind. intros result.
  apply only_bind. intros _.
  destruct (hg_success result && truthy (hg_imageBase64 result)) eqn:Hok.
  - apply andb_true_iff in Hok as [Hs _].
    apply only_try_catch.
    + apply only_bind. intros tempFilePath. apply only_ret. cbn.
      now repeat split.
    + intros fileError. apply only_ret. cbn. now repeat split.
  - apply only_ret. cbn. now repeat split.
Qed.

(** X8. The workflow cannot reject: step1 followed by step2 returns a
    [success] flag in every world, so a failure of the database, of the
    generator or of Telegram never escapes as an exception. *)
Theorem workflow_never_throws (inputData : WorkflowInput) :
  always_returns (telegramBotWorkflow inputData).
Proof.
  unfold telegramBotWorkflow, mbind, prog_bind. apply returns_bind.
  - apply step1_returns.
  - intros out. unfold step2. apply returns_try_catch.
    intros e. apply returns_ret.
Qed.

End NeverThrows.

Section GeneratorResults.

Import NanoBanano.

(** A result as the executor builds it. *)
Local Abbreviation well_formed :=
  (fun res : NanoBananoResult =>
     (success res = true -> truthy (imageBase64 res) = true)
     ∧ (success res = false -> imageBase64 res = None)
     ∧ (limitReached res = true -> success res = false)).

Lemma loop_body_well_formed (request : NanoBananoRequest)
    (m : generation_method) :
  returns_only
    (fun turn => match turn with
                 | Return res => well_formed res
                 | Continue _ => True
                 end)
    (loop_body request m).
Proof.
  unfold loop_body, mbind, prog_bind.
  apply only_try_catch.
  - apply only_bind. intros result.
    destruct (mr_success result && truthy (mr_imageBase64 result)) eqn:Hok;
      [|now apply only_ret].
    apply andb_true_iff in Hok as [_ Himg].
    apply only_bind. intros now. apply only_bind. intros _.
    apply only_bind. intros [u|]; [|apply only_throw].
    apply only_ret. cbn. repeat split; intros; (assumption || discriminate).
  - intros e. apply only_bind. intros _. now apply only_ret.
Qed.

Lemma for_methods_well_formed (request : NanoBananoRequest)
    (methods : list generation_method) :
  ∀ lastError,
    returns_only
      (fun turn => match turn with
                   | Return res => well_formed res
                   | Continue _ => True
                   end)
      (for_methods request methods lastError).
Proof.
  induction methods as [|m rest IH]; intros lastError; cbn [for_methods].
  - now apply only_ret.
  - unfold mbind, prog_bind. intros w turn w'. rewrite run_bind.
    destruct (run (loop_body request m) w) as [[[res|e]|e] w1] eqn:Hrun;
      [| |discriminate].
    + intros [= <- <-]. exact (loop_body_well_formed request m _ _ _ Hrun).
    + apply IH.
Qed.

(** X9. [generateNanoBananoImage] cannot reject, and its results are well
    formed: in every world it returns a result, the outer [catch] turning
    any exception of the storage into a failure result; a result that
    reports success carries a non-empty image, a failure carries none, and
    [limitReached] is only said of a failure. *)
Theorem generator_never_throws (request : NanoBananoRequest) (w : world) :
  ∃ res w',
    run (generateNanoBananoImage request) w = (Returned res, w')
    ∧ (success res = true -> truthy (imageBase64 res) = true)
    ∧ (success res = false -> imageBase64 res = None)
    ∧ (limitReached res = true -> success res = false).
Proof.
  assert (Hret : always_returns (generateNanoBananoImage request)).
  { unfold generateNanoBananoImage. apply returns_try_catch.
    intros e w0. cbn. unfold handle. cbn. eexists _, _. reflexivity. }
  destruct (Hret w) as (res & w' & Hrun).
  exists res, w'. split; [exact Hrun|].
  revert w res w' Hrun.
  change (returns_only well_formed (generateNanoBananoImage request)).
  unfold generateNanoBananoImage, mbind, prog_bind.
  apply only_try_catch.
  - apply only_bind. intros key.
    destruct (negb (truthy key)).
    + apply only_bind. intros _. apply only_ret. cbn.
      repeat split; intros; (reflexivity || discriminate).
    + apply only_bind. intros _. apply only_bind. intros isAdmin.
      apply only_bind. intros limitReached.
      destruct (limitReached && negb isAdmin).
      * apply only_ret. cbn. repeat split; intros; (reflexivity || discriminate).
      * intros w0 res0 w0'. rewrite run_bind.
        destruct (run (for_methods request generationMethods "") w0)
          as [[[res1|e]|e] w1] eqn:Hrun; [| |discriminate].
        -- intros [= <- <-].
           exact (for_methods_well_formed request _ _ _ _ _ Hrun).
        -- clear Hrun. revert w1 res0 w0'.
           change (returns_only well_formed
                     (bind (await (ConsoleError
                                     "❌ [NanoBanano] All generation methods failed" e))
                        (fun _ => Ret {| success := false; imageBase64 := None;
                                        message := "❌ Nano Banano не смог сгенерировать изображение. Попробуйте другое описание!";
                                        dailyCount := None;
                                        limitReached := false |}))).
           apply only_bind. intros _. apply only_ret. cbn.
           repeat split; intros; (reflexivity || discriminate).
  - intros e. apply only_bind. intros _. apply only_ret. cbn.
    repeat split; intros; (reflexivity || discriminate).
Qed.

End GeneratorResults.

(** ** step1: reservation, generation, compensation *)

(** The conditional update right after the upsert, in terms of the count in
    force before both. *)
Lemma sql_reserve_after_upsert (d : Z) (u n : string) (l : Z)
    (t : gmap string user_row) :
  sql_reserve_slot u l (sql_upsert_user d u n t)
  = if effective_count d (t !! u) <? l
    then (<[u := {| username := n;
                    daily_image_count := effective_count d (t !! u) + 1;
                    last_reset_date :=
                      match t !! u with
                      | Some row => Z.max (last_reset_date row) d
                      | None => d
                      end |}]> t,
          Some (effective_count d (t !! u) + 1))
    else (sql_upsert_user d u n t, None).
Proof.
  unfold sql_reserve_slot.
  destruct (sql_upsert_user_lookup d u n t) as (r & Hr & Hn & Hc & Hd).
  rewrite Hr, Hc.
  destruct (effective_count d (t !! u) <? l); [|reflexivity].
  f_equal. unfold sql_upsert_user in *.
  destruct (t !! u) as [row|] eqn:Hrow; rewrite insert_insert_eq;
    rewrite lookup_insert_eq in Hr; injection Hr as <-; cbn.
  - do 2 f_equal.
    destruct (last_reset_date row <? d) eqn:Hlt;
      [apply Z.ltb_lt in Hlt|apply Z.ltb_ge in Hlt]; lia.
  - reflexivity.
Qed.

Section StepOne.

Import Workflow.

Variables (w : world) (inputData : WorkflowInput).

(** The limit of the chat type and the count in force for the sender. *)
Local Abbreviation limit :=
  (UserLimits.dailyLimitFor (or_else (chatType inputData) "private")).
Local Abbreviation count :=
  (effective_count (today w) (users w !! in_userId inputData)).

Hypothesis asks : asks_generation inputData = true.
Hypothesis not_admin : in_userId inputData ≠ UserLimits.ADMIN_USER_ID.
Hypothesis connects : fault_at w 0 = None.
Hypothesis upserts : fault_at w 1 = None.
Hypothesis updates : fault_at w 2 = None.

Ltac past_early_returns :=
  unfold step1;
  let H := fresh in
  pose proof asks as H; unfold asks_generation in H;
  apply andb_true_iff in H; destruct H as [H1 H2];
  apply negb_true_iff in H1; apply negb_true_iff in H2;
  rewrite H1, H2; clear H1 H2.

(** X10. A user at the limit is refused before anything is generated: when
    the count in force has reached the limit of the chat type, step1 answers
    [success = false] with the text of the limit, having called neither the
    generator nor [releaseReservedSlot]; its only calls are the four of the
    reservation. *)
Theorem step1_refuses_at_limit :
  limit <= count ->
  ∃ out w',
    run (step1 inputData) w = (Returned out, w')
    ∧ success out = false ∧ imagePath out = None
    ∧ response out
      = (if match chatType inputData with
            | Some t => String.eqb t "group" || String.eqb t "supergroup"
            | None => false
            end
         then "🚫 Лимит запросов для чата по генерации изображений Nano Banano закончился (30/30). Лимиты обновляются каждые сутки в 00:00 МСК."
         else "Ваш лимит на сегодня закончен: 3/3. Приходите завтра. Хочешь безлимит? Пиши @dmitriy_ferixdi")
    ∧ calls_since w w'
      = [Call PoolConnect;
         Call (SqlUpsertUser (in_userId inputData)
                 (or_else (userName inputData) "Unknown"));
         Call (SqlReserveSlot (in_userId inputData)
                 (UserLimits.dailyLimitFor (or_else (chatType inputData) "private")));
         Call ClientRelease].
Proof.
  intros Hle. apply Z.ltb_ge in Hle.
  past_early_returns.
  unfold capture, UserLimits.reserveGenerationSlot.
  rewrite (eqb_other _ _ not_admin).
  pose proof connects as H0; pose proof upserts as H1; pose proof updates as H2.
  exec_faults.
  rewrite sql_reserve_after_upsert, Hle. cbn.
  exec_faults.
  eexists _, _. split; [reflexivity|]. cbn.
  do 3 (split; [reflexivity|]).
  apply calls_since_app. cbn. now rewrite <- !app_assoc.
Qed.


(** X11. A failed generation gives the slot back: when the reservation is
    granted and the generator then reports a failure or throws, step1 calls
    [releaseReservedSlot] and answers [success = false] without an image;
    with a sound record (or none) and a release that goes through, the
    record is left at the count that was in force before the request. *)
Theorem step1_compensates_failed_generation :
  count < limit ->
  sound_record (today w) (users w !! in_userId inputData) ->
  (fault_at w 4 ≠ None
   ∨ (fault_at w 4 = None ∧ hg_success (hubai_reply (env w)) = false)) ->
  fault_at w 5 = None -> fault_at w 6 = None ->
  ∃ out w',
    run (step1 inputData) w = (Returned out, w')
    ∧ success out = false ∧ imagePath out = None
    ∧ users w' !! in_userId inputData
      = Some {| username := or_else (userName inputData) "Unknown";
                daily_image_count := count;
                last_reset_date := today w |}
    ∧ List.filter writes_quota (calls_since w w')
      = [Call (SqlUpsertUser (in_userId inputData)
                 (or_else (userName inputData) "Unknown"));
         Call (SqlReserveSlot (in_userId inputData) limit);
         Call (SqlReleaseSlot (in_userId inputData))].
Proof.
  intros Hlt Hsound Hgen H5 H6.
  assert (Hdate : match users w !! in_userId inputData with
                  | Some row => Z.max (last_reset_date row) (today w)
                  | None => today w
                  end = today w).
  { revert Hsound. destruct (users w !! in_userId inputData) as [row|];
      [|reflexivity]. cbn. lia. }
  assert (Hnn : 0 <= count).
  { revert Hsound. unfold effective_count.
    destruct (users w !! in_userId inputData) as [row|]; [|lia].
    cbn. intros [_ Hc]. now destruct (last_reset_date row <? today w). }
  assert (Hpos : (0 <? count + 1) = true) by (apply Z.ltb_lt; lia).
  apply Z.ltb_lt in Hlt.
  past_early_returns.
  unfold capture, UserLimits.reserveGenerationSlot.
  rewrite (eqb_other _ _ not_admin).
  pose proof connects as H0; pose proof upserts as H1; pose proof updates as H2.
  unfold fault_at in Hgen.
  destruct Hgen as [Hgen|[Hgen Hfail]];
    [destruct (fault (env w) (length (trace w) + 4)) as [e|] eqn:H4;
       [clear Hgen|now contradiction Hgen]
    |pose proof Hgen as H4].
  all: exec_faults.
  all: rewrite ?sql_reserve_after_upsert, ?Hlt; cbn.
  all: exec_faults.
  all: rewrite ?Hfail; cbn.
  all: unfold UserLimits.releaseReservedSlot;
       rewrite (eqb_other _ _ not_admin).
  all: exec_faults.
  all: rewrite ?sql_reserve_after_upsert, ?Hlt; cbn.
  all: unfold sql_release_slot; rewrite ?lookup_insert_eq; cbn;
       rewrite ?Hdate, ?Z.eqb_refl, ?Hpos; cbn.
  all: eexists _, _; (split; [reflexivity|]); cbn.
  all: do 2 (split; [reflexivity|]).
  all: split;
       [rewrite lookup_insert_eq; f_equal; f_equal; lia
       |unfold calls_since; cbn;
        rewrite <- ?app_assoc, ?drop_app_length; reflexivity].
Qed.

End StepOne.

Lemma append_empty_r (s : string) : s +:+ "" = s.
Proof.
  induction s as [|c s IH]; [reflexivity|].
  change (String c s +:+ "") with (String c (s +:+ "")). now rewrite IH.
Qed.

Section StepOneEdges.

Import Workflow.

(** X12. The greeting and a message of photos without text cost nothing: for
    ["/start"], and for a message that comes with photos and whose text is
    empty or white space, step1 returns [success = true] without an image
    and makes no call at all: no slot is reserved and nothing is generated. *)
Theorem step1_early_answers_cost_nothing (w : world) (inputData : WorkflowInput) :
  asks_generation inputData = false ->
  ∃ out,
    run (step1 inputData) w = (Returned out, w)
    ∧ success out = true ∧ imagePath out = None
    ∧ userId out = in_userId inputData ∧ chatId out = in_chatId inputData.
Proof.
  unfold asks_generation, step1. intros H.
  destruct (String.eqb (message inputData) "/start").
  - eexists. split; [reflexivity|]. now cbn.
  - cbn in H. apply negb_false_iff in H. rewrite H.
    eexists. split; [reflexivity|]. now cbn.
Qed.

(** X13. The administrator has no slot to give back: when a generation
    asked by the administrator fails, step1 answers [success = false] with
    the error of the generator alone, without the line about remaining
    attempts, and its only calls are the pool client taken and released by
    the reservation and the call of the generator; [releaseReservedSlot] is
    not called. *)
Theorem step1_admin_failure_releases_nothing (w : world)
    (inputData : WorkflowInput) :
  asks_generation inputData = true ->
  in_userId inputData = UserLimits.ADMIN_USER_ID ->
  fault_at w 0 = None -> fault_at w 2 = None ->
  hg_success (hubai_reply (env w)) = false ->
  ∃ out w',
    run (step1 inputData) w = (Returned out, w')
    ∧ success out = false ∧ imagePath out = None
    ∧ response out
      = or_else (hg_error (hubai_reply (env w)))
          "❌ Nano Banana не смог сгенерировать изображение. Попробуйте другое описание!"
    ∧ users w' = users w
    ∧ calls_since w w'
      = [Call PoolConnect; Call ClientRelease;
         Call (generateImageWithHubaiGemini (message inputData)
                 (fileIds inputData))].
Proof.
  intros Hasks Hadm H0 H2 Hfail.
  unfold step1. unfold asks_generation in Hasks.
  apply andb_true_iff in Hasks. destruct Hasks as [Ha Hb].
  apply negb_true_iff in Ha. apply negb_true_iff in Hb. rewrite Ha, Hb.
  unfold capture, UserLimits.reserveGenerationSlot. rewrite Hadm.
  exec_faults. rewrite Hfail. cbn.
  eexists _, _. split; [reflexivity|]. cbn.
  do 2 (split; [reflexivity|]).
  split; [now rewrite append_empty_r|].
  split; [reflexivity|].
  apply calls_since_app. cbn. now rewrite <- !app_assoc.
Qed.

End StepOneEdges.

(** ** step2: what is sent, and to whom *)

Section StepTwo.

Import Workflow.

(** X14. step2 sends at most one message to the chat, the photo when there
    is an image and the text otherwise, and it forwards at most once: only a
    photo that has been delivered, only to the monitoring chat, and never
    when the chat is the monitoring chat itself. *)
Theorem step2_sends_once (w : world) (inputData : StepOneOutput) :
  let cs := calls_since w (run (step2 inputData) w).2 in
  (List.filter is_send cs = []
   ∨ (truthy (imagePath inputData) = true
      ∧ ∃ image, List.filter is_send cs
                 = [Call (SendPhoto (chatId inputData) image
                            (reply_to (messageId inputData)))])
   ∨ (truthy (imagePath inputData) = false
      ∧ List.filter is_send cs
        = [Call (SendMessage (chatId inputData) (response inputData)
                   (reply_to (messageId inputData)))]))
  ∧ (List.filter is_forward cs = []
     ∨ (List.filter is_forward cs
        = [Call (ForwardMessage "6913446846" (chatId inputData)
                   (tg_message_id (send_photo_reply (env w))))]
        ∧ chatId inputData ≠ "6913446846"
        ∧ truthy (imagePath inputData) = true
        ∧ (sent <$> returned (run (step2 inputData) w).1) = Some true)).
Proof.
  unfold step2.
  destruct (String.eqb_spec (chatId inputData) "6913446846") as [Hc|Hc];
    destruct (truthy (imagePath inputData)) eqn:Himg;
    destruct (truthy (process_env (env w) "TELEGRAM_BOT_TOKEN")) eqn:Htok;
    destruct (is_temp_path (default "" (imagePath inputData))) eqn:Htmp;
    destruct (tg_ok (send_photo_reply (env w))) eqn:Hok1;
    destruct (tg_ok (send_message_reply (env w))) eqn:Hok2;
    cbn;
    repeat progress
      (unfold handle; cbn; rewrite ?Htok, ?Himg, ?Htmp, ?Hok1, ?Hok2; cbn;
       try match goal with
           | |- context [fault ?e ?n] => destruct (fault e n) eqn:?
           end).
  all: unfold calls_since; cbn;
       rewrite <- ?app_assoc, ?drop_app_length, ?drop_all; cbn.
  all: split;
       [first [left; reflexivity
              |right; left; split; [reflexivity|eexists; reflexivity]
              |right; right; split; reflexivity]
       |first [left; reflexivity
              |right; repeat split; (reflexivity || assumption)]].
Qed.

(** X15. Once the photo is delivered the step succeeds, whatever fails
    afterwards: with the bot token configured, an image that can be read
    when it is a temporary file, and [sendPhoto] answering [ok], step2
    returns [success = true] with the id of the sent message, even if the
    removal of the temporary file, the increment of the counter or the
    forwarding throws. *)
Theorem step2_delivery_survives_later_failures (w : world)
    (inputData : StepOneOutput) :
  truthy (process_env (env w) "TELEGRAM_BOT_TOKEN") = true ->
  truthy (imagePath inputData) = true ->
  (is_temp_path (default "" (imagePath inputData)) = true ->
   fault_at w 1 = None) ->
  fault_at w (if is_temp_path (default "" (imagePath inputData)) then 3 else 1)
  = None ->
  tg_ok (send_photo_reply (env w)) = true ->
  (run (step2 inputData) w).1
  = Returned {| sent := true;
                sentMessageId :=
                  pretty <$> tg_message_id (send_photo_reply (env w)) |}.
Proof.
  intros Htok Himg Hread Hsend Hok.
  unfold step2. unfold fault_at in *.
  destruct (is_temp_path (default "" (imagePath inputData))) eqn:Htmp.
  - specialize (Hread eq_refl).
    unfold handle; cbn. rewrite Htok, Himg. cbn.
    unfold handle; cbn. rewrite length_app. cbn [length]. rewrite Hread. cbn.
    repeat progress
      (unfold handle; cbn;
       rewrite ?length_app; cbn [length];
       rewrite <- ?Nat.add_assoc; cbn [Nat.add];
       rewrite ?Hsend; cbn; rewrite ?Hok; cbn;
       try match goal with
           | |- context [fault ?e ?n] => destruct (fault e n) eqn:?
           end;
       try match goal with
           | |- context [if ?b then _ else _] => destruct b eqn:?
           end).
    all: reflexivity.
  - clear Hread.
    repeat progress
      (unfold handle; cbn;
       rewrite ?length_app; cbn [length];
       rewrite <- ?Nat.add_assoc; cbn [Nat.add];
       rewrite ?Hsend; cbn;
       rewrite ?Htok, ?Himg, ?Hok; cbn;
       try match goal with
           | |- context [fault ?e ?n] => destruct (fault e n) eqn:?
           end;
       try match goal with
           | |- context [if ?b then _ else _] => destruct b eqn:?
           end).
    all: reflexivity.
Qed.

End StepTwo.

(** ** The fallback executor: what it writes *)

Section GeneratorWrites.

Import NanoBanano.

Variables (request : NanoBananoRequest) (ev : environment).
Hypothesis ev_quiet : ∀ n, fault ev n = None.

Ltac exec_ev :=
  repeat (unfold handle; cbn;
          repeat match goal with
                 | H : env _ = ev |- _ => rewrite H
                 end;
          rewrite ?ev_quiet; cbn).

Lemma storage_writes_app (cs cs' : list call) :
  List.filter is_storage_write (cs ++ cs')
  = List.filter is_storage_write cs ++ List.filter is_storage_write cs'.
Proof. apply List.filter_app. Qed.

(** A turn of the loop on a method that does not deliver writes nothing. *)
Lemma loop_body_fails_writes_nothing (m : generation_method) (w : world) :
  env w = ev ->
  method_fails ev m = true ->
  ∃ lastError w' cs,
    run (loop_body request m) w = (Returned (Continue lastError), w')
    ∧ env w' = ev ∧ users w' = users w ∧ generations w' = generations w
    ∧ today w' = today w
    ∧ trace w' = trace w ++ cs
    ∧ List.filter is_storage_write cs = [].
Proof.
  intros Hev Hfail. unfold method_fails in *.
  unfold loop_body. exec_ev.
  destruct (method_reply ev m) as [r|e]; exec_ev.
  - rewrite negb_true_iff in Hfail. rewrite Hfail. exec_ev.
    eexists _, _, _. split; [reflexivity|]. cbn.
    split; [exact Hev|]. do 4 (split; [reflexivity|]). reflexivity.
  - eexists _, _, _. split; [reflexivity|]. cbn.
    split; [exact Hev|]. do 3 (split; [reflexivity|]).
    split; [now rewrite <- app_assoc|]. reflexivity.
Qed.

Lemma for_methods_all_fail_writes_nothing (methods : list generation_method) :
  ∀ (w : world) (lastError : string),
    env w = ev ->
    (∀ m, m ∈ methods -> method_fails ev m = true) ->
    ∃ lastError' w' cs,
      run (for_methods request methods lastError) w
      = (Returned (Continue lastError'), w')
      ∧ env w' = ev ∧ users w' = users w ∧ generations w' = generations w
      ∧ today w' = today w
      ∧ trace w' = trace w ++ cs
      ∧ List.filter is_storage_write cs = [].
Proof.
  induction methods as [|m rest IH]; intros w lastError Hev Hall.
  - exists lastError, w, []. cbn. rewrite app_nil_r. now repeat split.
  - destruct (loop_body_fails_writes_nothing m w Hev)
      as (e1 & w1 & cs1 & Hrun1 & Hev1 & Hu1 & Hg1 & Ht1 & Htr1 & Hw1).
    { apply Hall. left. }
    destruct (IH w1 e1 Hev1)
      as (e2 & w2 & cs2 & Hrun2 & Hev2 & Hu2 & Hg2 & Ht2 & Htr2 & Hw2).
    { intros m' Hm'. apply Hall. now right. }
    exists e2, w2, (cs1 ++ cs2).
    cbn [for_methods]. unfold mbind, prog_bind.
    rewrite run_bind, Hrun1, Hrun2.
    split; [reflexivity|]. split; [exact Hev2|].
    do 3 (split; [congruence|]).
    split; [rewrite Htr2, Htr1; now rewrite app_assoc|].
    now rewrite storage_writes_app, Hw1, Hw2.
Qed.

(** A turn of the loop on a method that delivers writes the history record
    and then the counter, once each. *)
Lemma loop_body_succeeds_writes (m : generation_method) (w : world)
    (r : method_result) (row : user_row) :
  env w = ev ->
  method_reply ev m = Returned r ->
  mr_success r = true -> truthy (mr_imageBase64 r) = true ->
  users w !! userId request = Some row ->
  ∃ res w' cs,
    run (loop_body request m) w = (Returned (Return res), w')
    ∧ success res = true
    ∧ generations w'
      = storage_save_generation (userId request) (prompt request)
          ("nano-banano://generated/" +:+ pretty (date_now ev) +:+ "-"
           +:+ userId request)
          (generations w)
    ∧ (∃ row', users w' !! userId request = Some row'
               ∧ dailyCount res = Some (daily_image_count row')
               ∧ daily_image_count row'
                 = effective_count (today w) (Some row) + 1)
    ∧ trace w' = trace w ++ cs
    ∧ List.filter is_storage_write cs
      = [Call (saveImageGeneration (userId request) (prompt request)
                 ("nano-banano://generated/" +:+ pretty (date_now ev) +:+ "-"
                  +:+ userId request));
         Call (incrementUserImageCount (userId request))].
Proof.
  intros Hev Hm Hs Hi Hrow. unfold loop_body. exec_ev.
  rewrite Hm. exec_ev. rewrite Hs, Hi. exec_ev.
  unfold storage_increment. rewrite Hrow. exec_ev.
  eexists _, _, _. split; [reflexivity|]. cbn.
  do 2 (split; [reflexivity|]).
  split.
  { eexists. split; [apply lookup_insert_eq|]. now split. }
  split; [now rewrite <- !app_assoc|]. reflexivity.
Qed.

End GeneratorWrites.

Section GeneratorEdges.

Import NanoBanano.

Variables (w : world) (request : NanoBananoRequest).

(** X16. Without the API key nothing is attempted: when [HUBAI_API_KEY] is
    missing or empty, [generateNanoBananoImage] returns the failure "service
    unavailable" after reading the environment and logging the error; it
    calls neither the storage nor a generation method, and the tables are
    left as they were. *)
Theorem generator_without_key :
  truthy (process_env (env w) "HUBAI_API_KEY") = false ->
  ∃ w',
    run (generateNanoBananoImage request) w
    = (Returned {| success := false; imageBase64 := None;
                   message := "❌ Сервис генерации изображений временно недоступен. API ключ не настроен.";
                   dailyCount := None; limitReached := false |}, w')
    ∧ users w' = users w ∧ generations w' = generations w
    ∧ calls_since w w'
      = [Call (ProcessEnv "HUBAI_API_KEY");
         Call (ConsoleError "❌ [NanoBanano] No HUBAI_API_KEY found in environment" "")].
Proof.
  intros Hkey. unfold generateNanoBananoImage.
  unfold handle; cbn. unfold handle; cbn. rewrite Hkey. cbn.
  unfold handle; cbn.
  eexists. split; [reflexivity|]. cbn. do 2 (split; [reflexivity|]).
  apply calls_since_app. cbn. now rewrite <- app_assoc.
Qed.

(** X17. A user over the daily limit is turned away before any generation
    method is called: with the key configured and the storage answering,
    when [hasReachedDailyLimit] says yes and the user is not an
    administrator, the function returns [limitReached = true] with the fixed
    count 15, calls no method and writes no history; an administrator in the
    same situation is not turned away by this test. *)
Theorem generator_turns_away_over_limit :
  truthy (process_env (env w) "HUBAI_API_KEY") = true ->
  fault_at w 1 = None -> fault_at w 3 = None ->
  storage_limit_reached (env w) (userId request) = true ->
  userId request ∉ admin_users (env w) ->
  ∃ w',
    run (generateNanoBananoImage request) w
    = (Returned {| success := false; imageBase64 := None;
                   message := "🚫 Превышен дневной лимит генерации. Попробуйте завтра!";
                   dailyCount := Some 15; limitReached := true |}, w')
    ∧ method_calls (calls_since w w') = []
    ∧ List.filter is_storage_write (calls_since w w') = []
    ∧ generations w' = generations w.
Proof.
  intros Hkey H1 H3 Hlim Hadm. unfold generateNanoBananoImage.
  unfold fault_at in *.
  repeat (unfold handle; cbn -[for_methods generationMethods];
          rewrite ?Hkey, ?Hlim, ?(bool_decide_eq_false_2 _ Hadm);
          rewrite ?length_app; cbn [length];
          rewrite <- ?Nat.add_assoc; cbn [Nat.add];
          rewrite ?H1, ?H3; cbn -[for_methods generationMethods]).
  eexists. split; [reflexivity|]. cbn.
  unfold calls_since. cbn. rewrite <- !app_assoc, drop_app_length. cbn.
  now repeat split.
Qed.

Hypothesis no_faults : quiet w.
Hypothesis key_configured : truthy (process_env (env w) "HUBAI_API_KEY") = true.
Hypothesis not_blocked :
  storage_limit_reached (env w) (userId request) = false
  ∨ userId request ∈ admin_users (env w).

Ltac enter_loop :=
  unfold generateNanoBananoImage; rewrite run_try_catch;
  repeat (unfold handle; cbn -[for_methods generationMethods];
          rewrite ?no_faults; cbn -[for_methods generationMethods]);
  rewrite key_configured; cbn -[for_methods generationMethods];
  repeat (unfold handle; cbn -[for_methods generationMethods];
          rewrite ?no_faults; cbn -[for_methods generationMethods]);
  rewrite (not_blocked_bool w request not_blocked);
  cbn -[for_methods generationMethods].

(** X18. A request that produces no image leaves no trace in the storage:
    when every generation method fails, with nothing else failing, the
    history has no new record, the counter is not incremented (the only
    write is the upsert of the user), and neither [saveImageGeneration] nor
    [incrementUserImageCount] is called. *)
Theorem failed_generation_writes_nothing :
  (∀ m, m ∈ generationMethods -> method_fails (env w) m = true) ->
  ∃ res w',
    run (generateNanoBananoImage request) w = (Returned res, w')
    ∧ success res = false
    ∧ generations w' = generations w
    ∧ users w'
      = storage_upsert_user (today w) (userId request)
          (or_else (username request) ("user_" +:+ userId request)) (users w)
    ∧ List.filter is_storage_write (calls_since w w') = [].
Proof.
  intros Hall. enter_loop.
  unfold mbind, prog_bind. rewrite run_bind.
  match goal with
  | |- context [run (for_methods _ _ _) ?w4] =>
      destruct (for_methods_all_fail_writes_nothing request (env w) no_faults
                  generationMethods w4 "" eq_refl Hall)
        as (e & w' & cs & Hrun & Hev & Hu & Hg & _ & Htr & Hwr)
  end.
  rewrite Hrun. unfold handle. cbn.
  eexists _, _. split; [reflexivity|]. cbn.
  split; [reflexivity|]. split; [exact Hg|]. split; [exact Hu|].
  unfold calls_since. cbn. rewrite Htr. cbn.
  rewrite <- !app_assoc, drop_app_length. cbn.
  rewrite storage_writes_app, Hwr. reflexivity.
Qed.

(** X19. An image that is returned is recorded once: when the first method
    delivers, with nothing failing, the history gets exactly one new record,
    for the user and the prompt of the request, with the locator
    [nano-banano://generated/<Date.now()>-<userId>], and the counter is
    incremented once; the [dailyCount] of the result is the count of the
    user after that increment. *)
Theorem returned_image_recorded_once (r : method_result) :
  method_reply (env w) tryOpenAIImagesAPI = Returned r ->
  mr_success r = true -> truthy (mr_imageBase64 r) = true ->
  ∃ res w' row,
    run (generateNanoBananoImage request) w = (Returned res, w')
    ∧ success res = true
    ∧ generations w'
      = generations w
        ++ [{| gen_id := Z.of_nat (length (generations w)) + 1;
               gen_user_id := userId request;
               gen_prompt := prompt request;
               gen_image_url :=
                 "nano-banano://generated/" +:+ pretty (date_now (env w))
                 +:+ "-" +:+ userId request |}]
    ∧ users w' !! userId request = Some row
    ∧ dailyCount res = Some (daily_image_count row)
    ∧ daily_image_count row
      = effective_count (today w) (users w !! userId request) + 1
    ∧ List.filter is_storage_write (calls_since w w')
      = [Call (saveImageGeneration (userId request) (prompt request)
                 ("nano-banano://generated/" +:+ pretty (date_now (env w))
                  +:+ "-" +:+ userId request));
         Call (incrementUserImageCount (userId request))].
Proof.
  intros Hm Hs Hi. enter_loop.
  unfold generationMethods. cbn [for_methods].
  unfold mbind, prog_bind. rewrite !run_bind.
  destruct (storage_upsert_user_lookup (today w) (userId request)
              (or_else (username request) ("user_" +:+ userId request))
              (users w)) as [row Hrow].
  match goal with
  | |- context [run (loop_body _ _) ?w4] =>
      destruct (loop_body_succeeds_writes request (env w) no_faults
                  tryOpenAIImagesAPI w4 r row eq_refl Hm Hs Hi Hrow)
        as (res & w' & cs & Hrun & Hsucc & Hg & (row' & Hrow' & Hdc & Hcnt)
            & Htr & Hwr)
  end.
  rewrite Hrun. cbn.
  exists res, w', row'. split; [reflexivity|].
  split; [exact Hsucc|]. split; [exact Hg|]. split; [exact Hrow'|].
  split; [exact Hdc|].
  split.
  - rewrite Hcnt. cbn in Hrow. unfold storage_upsert_user in Hrow.
    unfold effective_count.
    destruct (users w !! userId request) as [row0|];
      rewrite lookup_insert_eq in Hrow; injection Hrow as <-; cbn.
    + reflexivity.
    + now rewrite Z.ltb_irrefl.
  - unfold calls_since. rewrite Htr. cbn.
    rewrite <- !app_assoc, drop_app_length. cbn. now rewrite Hwr.
Qed.

End GeneratorEdges.

(** ** The rolling window of the rate limiter *)

Section RollingWindow.

Import RateLimit.

Variable rl : RateLimiter.

Local Abbreviation window := (windowHours rl * 60 * 60 * 1000).
Local Abbreviation counted := (RateLimit.counted rl).
Local Abbreviation tracks := (RateLimit.tracks rl).

Lemma filter_same_length {A : Type} (f : A -> bool) (l : list A) :
  length (List.filter f l) = length l -> List.filter f l = l.
Proof.
  induction l as [|a l IH]; cbn; [reflexivity|].
  destruct (f a); cbn; intros H.
  - f_equal. apply IH. lia.
  - pose proof (List.filter_length_le f l). lia.
Qed.

Lemma later_of_later (c x : Z) (l : list Z) :
  c <= x ->
  List.filter (fun t => x <? t) (List.filter (fun t => c <? t) l)
  = List.filter (fun t => x <? t) l.
Proof.
  intros Hcx. induction l as [|t l IH]; cbn; [reflexivity|].
  destruct (c <? t) eqn:Hc; cbn; rewrite IH; [reflexivity|].
  destruct (x <? t) eqn:Hx; [|reflexivity].
  apply Z.ltb_lt in Hx. apply Z.ltb_ge in Hc. lia.
Qed.

Lemma cleanup_same (s : gmap string (list Z)) (userId : string) (c : Z) :
  getUserRequests (cleanupExpiredRequests s userId c) userId
  = List.filter (fun t => c <? t) (getUserRequests s userId).
Proof.
  unfold cleanupExpiredRequests.
  destruct (length _ =? length _)%nat eqn:Hlen; cbn.
  - apply Nat.eqb_eq in Hlen. now rewrite (filter_same_length _ _ Hlen).
  - unfold getUserRequests at 1. now rewrite lookup_insert_eq.
Qed.

Lemma cleanup_other (s : gmap string (list Z)) (userId other : string) (c : Z) :
  userId ≠ other ->
  getUserRequests (cleanupExpiredRequests s userId c) other
  = getUserRequests s other.
Proof.
  intros Hne. unfold cleanupExpiredRequests.
  destruct (negb _); [|reflexivity].
  unfold getUserRequests. now rewrite lookup_insert_ne.
Qed.

Lemma add_same (s : gmap string (list Z)) (userId : string) (t : Z) :
  getUserRequests (addUserRequest s userId t) userId
  = getUserRequests s userId ++ [t].
Proof. unfold addUserRequest, getUserRequests at 1. now rewrite lookup_insert_eq. Qed.

Lemma add_other (s : gmap string (list Z)) (userId other : string) (t : Z) :
  userId ≠ other ->
  getUserRequests (addUserRequest s userId t) other = getUserRequests s other.
Proof.
  intros Hne. unfold addUserRequest, getUserRequests at 1 3.
  now rewrite lookup_insert_ne.
Qed.

Lemma checkLimit_counts (s : gmap string (list Z)) (now : Z) (userId : string)
    (consumeRequest : bool) :
  checkLimit rl s now userId consumeRequest
  = let s1 := cleanupExpiredRequests s userId (now - window) in
    let validRequests :=
      List.filter (fun t => now - window <? t) (getUserRequests s userId) in
    let oldest := match validRequests with
                  | [] => now
                  | first :: others => minimum first others
                  end in
    if (counted s now userId <? maxRequests rl) && consumeRequest then
      ({| allowed := true;
          remainingRequests :=
            Z.max 0 (Z.max 0 (maxRequests rl - counted s now userId) - 1);
          resetTime := oldest + window;
          totalRequests := counted s now userId + 1 |},
       addUserRequest s1 userId now)
    else
      ({| allowed := counted s now userId <? maxRequests rl;
          remainingRequests := Z.max 0 (maxRequests rl - counted s now userId);
          resetTime := oldest + window;
          totalRequests := counted s now userId |},
       s1).
Proof.
  unfold checkLimit, counted. cbn zeta.
  rewrite cleanup_same, later_of_later by lia.
  destruct (_ <? maxRequests rl); reflexivity.
Qed.

(** X20. The fields of a [RateLimitResult] agree with each other, whatever
    the storage holds: [remainingRequests] is [max(0, maxRequests -
    totalRequests)], also after the request has been consumed; a request is
    allowed exactly when the user has fewer than [maxRequests] requests in
    the window; a request that is refused leaves nothing remaining, and one
    that is consumed is counted within the maximum. *)
Theorem rate_limit_result_consistent (s : gmap string (list Z)) (now : Z)
    (userId : string) (consumeRequest : bool) :
  let result := (checkLimit rl s now userId consumeRequest).1 in
  remainingRequests result
  = Z.max 0 (maxRequests rl - totalRequests result)
  ∧ (allowed result = true <-> counted s now userId < maxRequests rl)
  ∧ (allowed result = false -> remainingRequests result = 0)
  ∧ (allowed result = true -> consumeRequest = true ->
     totalRequests result = counted s now userId + 1
     ∧ totalRequests result <= maxRequests rl).
Proof.
  rewrite checkLimit_counts. cbn zeta.
  destruct (counted s now userId <? maxRequests rl) eqn:Hlt;
    destruct consumeRequest; cbn;
    (apply Z.ltb_lt in Hlt || apply Z.ltb_ge in Hlt);
    repeat split; intros; try discriminate; try lia.
Qed.

(** X21. Looking does not consume: [checkLimit(userId, false)], and so
    [getUsageStats], only drops the expired timestamps of that user. A check
    made afterwards, for any user, with a clock that has not gone back,
    answers as it would have without the look; for the same user it also
    leaves the same storage. *)
Theorem usage_stats_do_not_consume (s : gmap string (list Z)) (now now' : Z)
    (userId other : string) (consumeRequest : bool) :
  now <= now' ->
  let looked := (getUsageStats rl s now userId).2 in
  (checkLimit rl looked now' other consumeRequest).1
  = (checkLimit rl s now' other consumeRequest).1
  ∧ checkLimit rl looked now' userId consumeRequest
    = checkLimit rl s now' userId consumeRequest.
Proof.
  intros Hclock. unfold getUsageStats.
  rewrite (checkLimit_counts s now userId false).
  rewrite andb_false_r. cbn.
  assert (Hget : List.filter (fun t => now' - window <? t)
                   (getUserRequests
                      (cleanupExpiredRequests s userId (now - window)) userId)
                 = List.filter (fun t => now' - window <? t)
                     (getUserRequests s userId)).
  { rewrite cleanup_same. apply later_of_later. lia. }
  assert (Hsame : checkLimit rl
                    (cleanupExpiredRequests s userId (now - window))
                    now' userId consumeRequest
                  = checkLimit rl s now' userId consumeRequest).
  { rewrite !checkLimit_counts. unfold counted. cbn zeta. rewrite Hget.
    assert (Hs : cleanupExpiredRequests
                   (cleanupExpiredRequests s userId (now - window)) userId
                   (now' - window)
                 = cleanupExpiredRequests s userId (now' - window)).
    { unfold cleanupExpiredRequests at 1 3.
      rewrite Hget. rewrite cleanup_same.
      set (l := getUserRequests s userId).
      set (fl := List.filter (fun t => now - window <? t) l).
      set (fl' := List.filter (fun t => now' - window <? t) l).
      assert (Hle : (length fl' <= length fl)%nat).
      { subst fl'. rewrite <- (later_of_later (now - window) (now' - window) l)
          by lia. apply List.filter_length_le. }
      assert (Hle' : (length fl <= length l)%nat)
        by apply List.filter_length_le.
      unfold cleanupExpiredRequests. fold l. fold fl.
      destruct (length fl =? length l)%nat eqn:H1; cbn.
      - apply Nat.eqb_eq in H1. now rewrite H1.
      - apply Nat.eqb_neq in H1.
        destruct (length fl' =? length fl)%nat eqn:H2; cbn.
        + apply Nat.eqb_eq in H2.
          assert ((length fl' =? length l)%nat = false) as ->
            by (apply Nat.eqb_neq; lia).
          cbn. f_equal.
          subst fl'. rewrite <- (later_of_later (now - window) (now' - window) l)
            by lia.
          fold fl. symmetry. apply filter_same_length.
          subst fl. rewrite later_of_later by lia. exact H2.
        + apply Nat.eqb_neq in H2.
          assert ((length fl' =? length l)%nat = false) as ->
            by (apply Nat.eqb_neq; lia).
          cbn. apply insert_insert_eq. }
    rewrite Hs. reflexivity. }
  split; [|exact Hsame].
  destruct (decide (userId = other)) as [<-|Hne].
  - now rewrite Hsame.
  - rewrite !checkLimit_counts. unfold counted. cbn zeta.
    rewrite (cleanup_other _ _ _ _ Hne).
    destruct (_ && _); reflexivity.
Qed.

(** *** The bound over every window *)

Lemma after_app (userId : string) (x : Z) (h h' : list (Z * string)) :
  after userId x (h ++ h') = (after userId x h + after userId x h')%nat.
Proof. unfold after. now rewrite List.filter_app, length_app. Qed.

Lemma in_window_app (userId : string) (T : Z) (h h' : list (Z * string)) :
  in_window rl userId T (h ++ h')
  = (in_window rl userId T h + in_window rl userId T h')%nat.
Proof. unfold in_window. now rewrite List.filter_app, length_app. Qed.

Lemma in_window_le_after (userId : string) (T x : Z) (h : list (Z * string)) :
  x <= T - window ->
  (in_window rl userId T h <= after userId x h)%nat.
Proof.
  intros Hx. unfold in_window, after.
  induction h as [|[t u] h IH]; cbn; [lia|].
  destruct (String.eqb u userId); cbn; [|exact IH].
  destruct (T - window <? t) eqn:H1; cbn.
  - apply Z.ltb_lt in H1.
    assert ((x <? t) = true) as -> by (apply Z.ltb_lt; lia).
    destruct (t <=? T); cbn; lia.
  - destruct (x <? t); cbn; lia.
Qed.

Lemma tracks_start (last : Z) : tracks ∅ [] last.
Proof.
  split; intros; cbn.
  - unfold getUserRequests. now rewrite lookup_empty.
  - unfold in_window. cbn. lia.
Qed.

Lemma eqb_user_refl (u : string) : String.eqb u u = true.
Proof. apply String.eqb_refl. Qed.

Lemma eqb_user_ne (u v : string) : u ≠ v -> String.eqb u v = false.
Proof. intros H. now apply String.eqb_neq. Qed.

Lemma tracks_step (s : gmap string (list Z)) (hist : list (Z * string))
    (last now : Z) (userId : string) :
  tracks s hist last -> last <= now ->
  let result := (checkLimit rl s now userId true).1 in
  tracks (checkLimit rl s now userId true).2
    (hist ++ (if allowed result then [(now, userId)] else [])) now.
Proof.
  intros [Hstore Hbound] Hclock. rewrite checkLimit_counts. cbn zeta.
  rewrite andb_true_r.
  assert (Hcount : counted s now userId
                   = Z.of_nat (after userId (now - window) hist)).
  { unfold counted. rewrite Hstore by lia. reflexivity. }
  destruct (counted s now userId <? maxRequests rl) eqn:Hlt; cbn.
  - apply Z.ltb_lt in Hlt. split.
    + intros v x Hx. rewrite after_app.
      destruct (decide (userId = v)) as [<-|Hne].
      * rewrite add_same, cleanup_same, List.filter_app, length_app.
        rewrite later_of_later by lia. rewrite Hstore by lia.
        f_equal. unfold after. cbn. rewrite eqb_user_refl. cbn.
        now destruct (x <? now).
      * rewrite (add_other _ _ _ _ Hne), (cleanup_other _ _ _ _ Hne).
        rewrite Hstore by lia. unfold after at 3. cbn.
        rewrite (eqb_user_ne _ _ Hne). cbn. lia.
    + intros v T. rewrite in_window_app.
      unfold in_window at 2. cbn.
      destruct (String.eqb userId v) eqn:Huv; cbn.
      2:{ specialize (Hbound v T). lia. }
      apply String.eqb_eq in Huv. subst v.
      destruct (T - window <? now) eqn:H1; cbn.
      2:{ specialize (Hbound userId T). lia. }
      destruct (now <=? T) eqn:H2; cbn.
      2:{ specialize (Hbound userId T). lia. }
      apply Z.ltb_lt in H1. apply Z.leb_le in H2.
      pose proof (in_window_le_after userId T (now - window) hist) as Hle.
      lia.
  - rewrite app_nil_r. split; [|exact Hbound].
    intros v x Hx.
    destruct (decide (userId = v)) as [<-|Hne].
    + rewrite cleanup_same, later_of_later by lia. apply Hstore. lia.
    + rewrite (cleanup_other _ _ _ _ Hne). apply Hstore. lia.
Qed.

Lemma serve_tracks (requests : list (Z * string)) :
  ∀ (s : gmap string (list Z)) (hist : list (Z * string)) (last : Z),
    tracks s hist last -> clock_order last requests ->
    ∀ userId T,
      (in_window rl userId T (hist ++ serve rl s requests)
       <= Z.to_nat (maxRequests rl))%nat.
Proof.
  induction requests as [|[now u] rest IH]; intros s hist last Htr Hord v T.
  - cbn. rewrite app_nil_r. apply Htr.
  - destruct Hord as [Hclock Hord]. cbn [serve].
    pose proof (tracks_step s hist last now u Htr Hclock) as Hstep.
    cbn zeta in Hstep.
    destruct (checkLimit rl s now u true) as [result s'] eqn:Hcheck.
    cbn [fst snd] in Hstep.
    rewrite app_assoc. exact (IH s' _ now Hstep Hord v T).
Qed.

(** X22. The limiter keeps its promise over every window, not only the one
    that ends now: when requests are served one after the other from an
    empty storage, each consuming a slot if it is allowed, and the clock
    never goes back, then for every user and every instant [T] the allowed
    requests of that user with a timestamp in the window ending at [T] are
    at most [maxRequests]. *)
Theorem rolling_window_never_exceeded (requests : list (Z * string))
    (start : Z) (userId : string) (T : Z) :
  clock_order start requests ->
  (in_window rl userId T (serve rl ∅ requests)
   <= Z.to_nat (maxRequests rl))%nat.
Proof.
  intros Hord.
  exact (serve_tracks requests ∅ [] start (tracks_start start) Hord userId T).
Qed.

(** *** The reset time *)

Lemma minimum_le_first (first : Z) (others : list Z) :
  minimum first others <= first.
Proof. unfold minimum. induction others; cbn; lia. Qed.

Lemma minimum_le_others (first : Z) (others : list Z) (t : Z) :
  t ∈ others -> minimum first others <= t.
Proof.
  unfold minimum. induction others as [|a l IH]; intros Hin; cbn.
  - inversion Hin.
  - apply elem_of_cons in Hin as [->|Hin]; [lia|]. specialize (IH Hin). lia.
Qed.

Lemma minimum_is_member (first : Z) (others : list Z) :
  minimum first others ∈ first :: others.
Proof.
  unfold minimum. induction others as [|a l IH]; cbn.
  - left.
  - destruct (Z.min_spec a (foldr Z.min first l)) as [[_ ->]|[_ ->]].
    + right. left.
    + apply elem_of_cons in IH as [IH|IH].
      * rewrite IH. left.
      * right. now right.
Qed.

Lemma filter_all (f : Z -> bool) (l : list Z) :
  (∀ t, t ∈ l -> f t = true) -> List.filter f l = l.
Proof.
  induction l as [|a l IH]; intros H; cbn; [reflexivity|].
  rewrite (H a) by left. f_equal. apply IH. intros t Ht. apply H. now right.
Qed.

Lemma filter_drops (f : Z -> bool) (l : list Z) (a : Z) :
  a ∈ l -> f a = false -> (length (List.filter f l) < length l)%nat.
Proof.
  induction l as [|b l IH]; intros Hin Hf; [inversion Hin|].
  cbn. apply elem_of_cons in Hin as [<-|Hin].
  - rewrite Hf. pose proof (List.filter_length_le f l). lia.
  - specialize (IH Hin Hf). destruct (f b); cbn; lia.
Qed.

(** X23. [resetTime] is the instant at which the oldest counted request
    leaves the window. After a look that counts at least one request, and
    with no request made in between, a later look counts the same number as
    long as the clock is before [resetTime], and strictly fewer from
    [resetTime] on. *)
Theorem reset_time_is_first_relief (s : gmap string (list Z)) (now now' : Z)
    (userId : string) :
  let first_look := checkLimit rl s now userId false in
  let second_look := checkLimit rl first_look.2 now' userId false in
  0 < totalRequests first_look.1 -> now <= now' ->
  (now' < resetTime first_look.1 ->
   totalRequests second_look.1 = totalRequests first_look.1)
  ∧ (resetTime first_look.1 <= now' ->
     totalRequests second_look.1 < totalRequests first_look.1).
Proof.
  cbn zeta. rewrite (checkLimit_counts s now userId false).
  rewrite andb_false_r. cbn. rewrite checkLimit_counts.
  rewrite andb_false_r. cbn. unfold counted.
  rewrite cleanup_same.
  set (valid := List.filter (fun t => now - window <? t)
                  (getUserRequests s userId)).
  intros Hpos Hclock.
  destruct valid as [|first others] eqn:Hvalid; [cbn in Hpos; lia|].
  split; intros Hreset.
  - rewrite filter_all; [reflexivity|].
    intros t Ht. apply Z.ltb_lt.
    assert (minimum first others <= t).
    { apply elem_of_cons in Ht as [->|Ht].
      - apply minimum_le_first.
      - now apply minimum_le_others. }
    lia.
  - apply inj_lt.
    apply (filter_drops _ (first :: others) (minimum first others)).
    + apply minimum_is_member.
    + apply Z.ltb_ge. lia.
Qed.

End RollingWindow.

(** ** Retries with exponential backoff *)

Section Retries.

Import Backoff.

Context {T : Type}.
Variables (b : ExponentialBackoff) (attempts : nat -> outcome T)
  (isRetriableError : error -> bool).

Lemma loop_bounded (turns : nat) :
  ∀ (attempt : nat) (lastError : error),
    turns = O ∨ Z.of_nat attempt + Z.of_nat turns = maxRetries b + 1 ->
    let '(_, delays, calls) :=
      loop b attempts isRetriableError turns attempt lastError in
    (calls <= turns)%nat
    ∧ ((0 < turns)%nat -> (1 <= calls)%nat)
    ∧ delays = delay b <$> seq attempt (calls - 1).
Proof.
  induction turns as [|turns' IH]; intros attempt lastError Hsum; cbn.
  - split; [lia|]. split; [lia|reflexivity].
  - destruct Hsum as [Hsum|Hsum]; [discriminate|].
    destruct (attempts attempt) as [result|e];
      [split; [lia|]; split; [lia|reflexivity]|].
    destruct (Z.of_nat attempt =? maxRetries b) eqn:Hlast; cbn;
      [split; [lia|]; split; [lia|reflexivity]|].
    destruct (negb (isRetriableError e)); cbn;
      [split; [lia|]; split; [lia|reflexivity]|].
    apply Z.eqb_neq in Hlast.
    specialize (IH (S attempt) e).
    destruct (loop b attempts isRetriableError turns' (S attempt) e)
      as [[r delays] calls] eqn:Hloop.
    destruct IH as (Hcalls & Hone & Hdelays); [right; lia|].
    assert (1 <= calls)%nat by (apply Hone; lia).
    split; [lia|]. split; [lia|].
    rewrite Hdelays. destruct calls as [|calls']; [lia|].
    cbn. now rewrite Nat.sub_0_r.
Qed.

Lemma loop_outcome (turns : nat) :
  ∀ (attempt : nat) (lastError : error),
    Z.of_nat attempt + Z.of_nat turns = maxRetries b + 1 ->
    (0 < turns)%nat ->
    let '(r, _, calls) :=
      loop b attempts isRetriableError turns attempt lastError in
    (1 <= calls)%nat
    ∧ r = attempts (attempt + calls - 1)%nat
    ∧ (∀ j, (attempt <= j < attempt + calls - 1)%nat ->
         ∃ e, attempts j = Thrown e ∧ isRetriableError e = true)
    ∧ (∀ e, r = Thrown e ->
         Z.of_nat (attempt + calls) = maxRetries b + 1
         ∨ isRetriableError e = false).
Proof.
  induction turns as [|turns' IH]; intros attempt lastError Hsum Hpos;
    [lia|]. cbn.
  destruct (attempts attempt) as [result|e] eqn:Hatt.
  - split; [lia|]. replace (attempt + 1 - 1)%nat with attempt by lia.
    split; [now symmetry|]. split; [intros j Hj; lia|]. discriminate.
  - destruct (Z.of_nat attempt =? maxRetries b) eqn:Hlast; cbn.
    + apply Z.eqb_eq in Hlast.
      split; [lia|]. replace (attempt + 1 - 1)%nat with attempt by lia.
      split; [now symmetry|]. split; [intros j Hj; lia|].
      intros e' _. left. lia.
    + apply Z.eqb_neq in Hlast.
      destruct (isRetriableError e) eqn:Hretry; cbn.
      2:{ split; [lia|]. replace (attempt + 1 - 1)%nat with attempt by lia.
          split; [now symmetry|]. split; [intros j Hj; lia|].
          intros e' [= <-]. now right. }
      specialize (IH (S attempt) e).
      destruct (loop b attempts isRetriableError turns' (S attempt) e)
        as [[r delays] calls] eqn:Hloop.
      destruct IH as (Hcalls & Hr & Hearlier & Hgive); [lia|lia|].
      split; [lia|].
      split; [rewrite Hr; f_equal; lia|].
      split.
      * intros j Hj. destruct (decide (j = attempt)) as [->|Hne].
        -- now exists e.
        -- apply Hearlier. lia.
      * intros e' He'. destruct (Hgive e' He') as [H|H]; [left; lia|now right].
Qed.

Lemma overflow_positive : 0 < overflow.
Proof. unfold overflow. now apply Z.pow_pos_nonneg. Qed.

Lemma overflow_reached (k : nat) :
  (1024 <= k)%nat -> overflow <= 2 ^ Z.of_nat k.
Proof. intros Hk. unfold overflow. apply Z.pow_le_mono_r; lia. Qed.

(** Where nothing overflows into [NaN] the delay is the one of the
    integers. *)
Lemma delay_exact (k : nat) :
  0 <= baseDelay b -> maxDelay b < overflow ->
  0 < baseDelay b ∨ (k < 1024)%nat ->
  delay b k = Finite (Z.min (baseDelay b * 2 ^ Z.of_nat k) (maxDelay b)).
Proof.
  intros Hbase Hmax Hk. unfold delay, scaled.
  pose proof overflow_positive as Hpos.
  assert (Hpow : 0 < 2 ^ Z.of_nat k) by (apply Z.pow_pos_nonneg; lia).
  assert (Hprod : 0 <= baseDelay b * 2 ^ Z.of_nat k)
    by (apply Z.mul_nonneg_nonneg; lia).
  destruct (k <? 1024)%nat eqn:Hlt; cbn zeta.
  - destruct (overflow <=? _) eqn:H1; cbn;
      [apply Z.leb_le in H1; f_equal; lia|].
    destruct (_ <=? - overflow) eqn:H2; cbn; [apply Z.leb_le in H2; lia|].
    reflexivity.
  - apply Nat.ltb_ge in Hlt. destruct Hk as [Hk|Hk]; [|lia].
    destruct (baseDelay b =? 0) eqn:H0; [apply Z.eqb_eq in H0; lia|].
    destruct (0 <? baseDelay b) eqn:H1; [|apply Z.ltb_ge in H1; lia].
    cbn. f_equal.
    pose proof (overflow_reached k Hlt) as Hreach.
    assert (2 ^ Z.of_nat k <= baseDelay b * 2 ^ Z.of_nat k) by nia.
    lia.
Qed.

(** X24. The retries are bounded and the waits are the exponential ones,
    computed as the code computes them, in double precision.  [execute]
    invokes the operation at most [maxRetries + 1] times (not at all when
    [maxRetries] is negative) and sleeps one time less than it invokes, the
    wait after the invocation number [k] being [Math.min(baseDelay *
    Math.pow(2, k), maxDelay)]. That wait is [NaN] exactly when [baseDelay]
    is 0 and [k] has reached 1024, where the power is [Infinity]; it is
    never [Infinity]; a wait that is a number never exceeds [maxDelay]. For
    a [baseDelay] that is not negative, every wait that is not [NaN] is the
    integer [min(baseDelay * 2^k, maxDelay)], and the waits never get
    shorter. *)
Theorem backoff_bounded :
  let '(_, delays, calls) := execute b attempts isRetriableError in
  Z.of_nat calls <= Z.max 0 (maxRetries b + 1)
  ∧ delays = delay b <$> seq 0 (calls - 1)
  ∧ (∀ k, delay b k = NaN <-> baseDelay b = 0 ∧ (1024 <= k)%nat)
  ∧ (∀ k, delay b k ≠ PosInfinity)
  ∧ (∀ k z, delay b k = Finite z -> z <= maxDelay b)
  ∧ (0 <= baseDelay b -> maxDelay b < overflow ->
     (∀ k, delay b k ≠ NaN ->
           delay b k
           = Finite (Z.min (baseDelay b * 2 ^ Z.of_nat k) (maxDelay b)))
     ∧ (∀ i j d d', (i <= j)%nat ->
          delays !! i = Some (Finite d) -> delays !! j = Some (Finite d') ->
          d <= d')).
Proof.
  unfold execute.
  pose proof (loop_bounded (Z.to_nat (maxRetries b + 1)) 0%nat "undefined")
    as H.
  destruct (loop _ _ _ _ _ _) as [[r delays] calls].
  destruct H as (Hcalls & _ & ->); [lia|].
  assert (Hnan : ∀ k, delay b k = NaN <-> baseDelay b = 0 ∧ (1024 <= k)%nat).
  { intros k. unfold delay, scaled.
    destruct (k <? 1024)%nat eqn:Hlt; cbn zeta.
    - apply Nat.ltb_lt in Hlt.
      destruct (overflow <=? _); [|destruct (_ <=? - overflow)]; cbn;
        (split; [discriminate|intros [_ Hk]; lia]).
    - apply Nat.ltb_ge in Hlt.
      destruct (baseDelay b =? 0) eqn:H0; cbn.
      + apply Z.eqb_eq in H0. now split.
      + apply Z.eqb_neq in H0.
        destruct (0 <? baseDelay b); cbn;
          (split; [discriminate|intros [Hb _]; contradiction]). }
  split; [lia|]. split; [reflexivity|]. split; [exact Hnan|].
  split; [|split].
  - intros k. unfold delay, scaled.
    destruct (k <? 1024)%nat; cbn zeta;
      [destruct (overflow <=? _); [|destruct (_ <=? - overflow)]
      |destruct (baseDelay b =? 0); [|destruct (0 <? baseDelay b)]];
      cbn; discriminate.
  - intros k z. unfold delay, scaled.
    destruct (k <? 1024)%nat; cbn zeta;
      [destruct (overflow <=? _); [|destruct (_ <=? - overflow)]
      |destruct (baseDelay b =? 0); [|destruct (0 <? baseDelay b)]];
      cbn; intros Hz; try discriminate Hz; injection Hz as <-; lia.
  - intros Hbase Hmax.
    assert (Hexact : ∀ k, delay b k ≠ NaN ->
              delay b k
              = Finite (Z.min (baseDelay b * 2 ^ Z.of_nat k) (maxDelay b))).
    { intros k Hk. apply delay_exact; [exact Hbase|exact Hmax|].
      destruct (decide (k < 1024)%nat) as [Hlt|Hge]; [now right|left].
      destruct (decide (baseDelay b = 0)) as [H0|H0]; [|lia].
      exfalso. apply Hk, Hnan. split; [exact H0|lia]. }
    split; [exact Hexact|].
    intros i j d d' Hij Hi Hj.
    rewrite list_lookup_fmap in Hi, Hj.
    destruct (seq 0 (calls - 1) !! i) as [ki|] eqn:Hki; [|discriminate].
    destruct (seq 0 (calls - 1) !! j) as [kj|] eqn:Hkj; [|discriminate].
    apply lookup_seq in Hki as [-> _]. apply lookup_seq in Hkj as [-> _].
    cbn [Nat.add fmap option_fmap option_map] in Hi, Hj.
    injection Hi as Hi. injection Hj as Hj.
    rewrite Hexact in Hi by (rewrite Hi; discriminate).
    rewrite Hexact in Hj by (rewrite Hj; discriminate).
    injection Hi as <-. injection Hj as <-.
    assert (2 ^ Z.of_nat i <= 2 ^ Z.of_nat j)
      by (apply Z.pow_le_mono_r; lia).
    assert (baseDelay b * 2 ^ Z.of_nat i <= baseDelay b * 2 ^ Z.of_nat j)
      by (apply Z.mul_le_mono_nonneg_l; lia).
    lia.
Qed.

(** X25. What [execute] answers is what the last invocation did. With
    [maxRetries] not negative the operation is invoked at least once; every
    invocation before the last one threw an error that [isRetriableError]
    accepts; the answer is the result, or the error, of the last
    invocation; and an error is passed on only when the invocations are
    used up or the error is not retriable. *)
Theorem backoff_answer_is_last_invocation :
  0 <= maxRetries b ->
  let '(r, _, calls) := execute b attempts isRetriableError in
  (1 <= calls)%nat
  ∧ r = attempts (calls - 1)%nat
  ∧ (∀ j, (j < calls - 1)%nat ->
       ∃ e, attempts j = Thrown e ∧ isRetriableError e = true)
  ∧ (∀ e, r = Thrown e ->
       Z.of_nat calls = maxRetries b + 1 ∨ isRetriableError e = false).
Proof.
  intros Hmax. unfold execute.
  pose proof (loop_outcome (Z.to_nat (maxRetries b + 1)) 0%nat "undefined")
    as H.
  destruct (loop _ _ _ _ _ _) as [[r delays] calls].
  destruct H as (Hcalls & Hr & Hearlier & Hgive); [lia|lia|].
  split; [exact Hcalls|]. split; [exact Hr|].
  split; [intros j Hj; apply Hearlier; lia|exact Hgive].
Qed.

End Retries.

(** ** Resolving Telegram files *)

Section ResolvingFiles.

Import FileResolver.

Variable base64 : list N -> string.
Variable tg : telegram.

Lemma data_url_truthy (fileId url : string) :
  resolveFileId base64 tg fileId = Some url -> truthy (Some url) = true.
Proof.
  unfold resolveFileId.
  destruct (negb (truthy (bot_token tg))); [discriminate|].
  destruct (getFile tg fileId) as [fileData|]; [|discriminate].
  destruct (_ || _); [discriminate|].
  destruct (fetch_file tg _) as [d|]; [|discriminate].
  destruct (negb (dl_ok d)); [discriminate|].
  intros [= <-]. reflexivity.
Qed.

(** X26. [resolveImageUrls] never touches what is not a file id: the inputs
    that begin with [http] or contain a slash come out unchanged and in
    their order, the output is never longer than the input, and a file id
    that resolves is never dropped. Without the bot token the output is
    exactly the inputs that are not file ids. *)
Theorem resolve_image_urls_keeps_urls (inputs : list string) :
  resolveImageUrls base64 tg inputs
  = omap (fun input =>
            if isFileId input then resolveFileId base64 tg input
            else Some input) inputs
  ∧ sublist (List.filter (fun input => negb (isFileId input)) inputs)
      (resolveImageUrls base64 tg inputs)
  ∧ (length (resolveImageUrls base64 tg inputs) <= length inputs)%nat
  ∧ (truthy (bot_token tg) = false ->
     resolveImageUrls base64 tg inputs
     = List.filter (fun input => negb (isFileId input)) inputs).
Proof.
  induction inputs as [|input rest (IH1 & IH2 & IH3 & IH4)].
  - cbn. repeat split; try reflexivity; try constructor.
  - cbn. destruct (isFileId input) eqn:Hid; cbn.
    + destruct (resolveFileId base64 tg input) as [url|] eqn:Hres.
      * rewrite (data_url_truthy _ _ Hres). cbn.
        split; [now rewrite IH1|]. split; [now apply sublist_cons|].
        split; [lia|]. intros Htok. exfalso. revert Hres.
        unfold resolveFileId. now rewrite Htok.
      * cbn. split; [exact IH1|]. split; [exact IH2|]. split; [lia|exact IH4].
    + split; [now rewrite IH1|]. split; [now apply sublist_skip|].
      split; [lia|]. intros Htok. now rewrite IH4.
Qed.

Lemma begins_with_spec (magic body : list N) :
  begins_with magic body = true <-> ∃ rest, body = magic ++ rest.
Proof.
  revert body. induction magic as [|m magic IH]; intros body; cbn.
  - split; [intros _; now exists body|reflexivity].
  - destruct body as [|b body]; cbn.
    + split; [discriminate|intros [rest Hrest]; discriminate Hrest].
    + rewrite andb_true_iff, N.eqb_eq, IH. split.
      * intros [-> [rest ->]]. now exists rest.
      * intros [rest [= -> ->]]. split; [reflexivity|now exists rest].
Qed.

(** The comparison with ['WEBP'] of the four characters read as ascii. *)
Lemma is_webp_text (text : list N) :
  match text with
  | [87; 69; 66; 80]%N => true
  | _ => false
  end = true
  <-> text = [87; 69; 66; 80]%N.
Proof.
  split; [|intros ->; reflexivity].
  repeat match goal with
         | |- context [match ?x with _ => _ end] => destruct x
         end;
    first [discriminate | reflexivity].
Qed.

Lemma webp_tag_spec (body : list N) :
  webp_tag body = true
  <-> ∃ head tag rest,
        body = head ++ tag ++ rest ∧ length head = 8%nat
        ∧ (fun b => N.land b 127) <$> tag = [87; 69; 66; 80]%N.
Proof.
  unfold webp_tag. rewrite is_webp_text. split.
  - intros Htag.
    exists (take 8 body), (take 4 (drop 8 body)), (drop 4 (drop 8 body)).
    rewrite take_drop, take_drop.
    assert (Hlen : length (take 4 (drop 8 body)) = 4%nat).
    { apply (f_equal length) in Htag. now rewrite List.length_map in Htag. }
    split; [reflexivity|]. split; [|exact Htag].
    rewrite length_take, length_drop in Hlen. rewrite length_take. lia.
  - intros (head & tag & rest & -> & Hhead & Htag).
    assert (Hlen : length tag = 4%nat).
    { apply (f_equal length) in Htag. now rewrite length_fmap in Htag. }
    rewrite <- Hhead, drop_app_length.
    rewrite <- Hlen, take_app_length. exact Htag.
Qed.

(** X27. The MIME type [resolveFileId] puts in a data URL. A content type
    that is present, not empty and not [application/octet-stream] is kept
    as it is; otherwise the type is read off the first bytes of the file.
    It is [image/png] exactly for a file that begins with 89 50 4E 47,
    [image/gif] exactly for one that begins with 47 49 46 38, [image/webp]
    exactly for one that begins with RIFF (52 49 46 46) and has, after four
    more bytes, four bytes that read WEBP once their high bit is cleared,
    and [image/jpeg] for every other file, recognised or not. So the type
    is never empty and never [application/octet-stream]. *)
Theorem mime_type_is_usable (d : download) :
  let contentType := or_else (dl_content_type d) "" in
  let body := dl_body d in
  (contentType ≠ "" -> contentType ≠ "application/octet-stream" ->
   mime_type d = contentType)
  ∧ (contentType = "" ∨ contentType = "application/octet-stream" ->
     mime_type d = mime_by_signature body)
  ∧ mime_type d ≠ ""
  ∧ mime_type d ≠ "application/octet-stream"
  ∧ (mime_by_signature body = "image/png"
     <-> ∃ rest, body = [137; 80; 78; 71]%N ++ rest)
  ∧ (mime_by_signature body = "image/gif"
     <-> ∃ rest, body = [71; 73; 70; 56]%N ++ rest)
  ∧ (mime_by_signature body = "image/webp"
     <-> ∃ size tag rest,
           body = [82; 73; 70; 70]%N ++ size ++ tag ++ rest
           ∧ length size = 4%nat
           ∧ (fun b => N.land b 127) <$> tag = [87; 69; 66; 80]%N)
  ∧ (mime_by_signature body ≠ "image/png" ->
     mime_by_signature body ≠ "image/gif" ->
     mime_by_signature body ≠ "image/webp" ->
     mime_by_signature body = "image/jpeg").
Proof.
  cbn zeta.
  set (contentType := or_else (dl_content_type d) "").
  set (body := dl_body d).
  assert (Hsig :
    (mime_by_signature body = "image/png"
     <-> ∃ rest, body = [137; 80; 78; 71]%N ++ rest)
    ∧ (mime_by_signature body = "image/gif"
       <-> ∃ rest, body = [71; 73; 70; 56]%N ++ rest)
    ∧ (mime_by_signature body = "image/webp"
       <-> ∃ size tag rest,
             body = [82; 73; 70; 70]%N ++ size ++ tag ++ rest
             ∧ length size = 4%nat
             ∧ (fun b => N.land b 127) <$> tag = [87; 69; 66; 80]%N)
    ∧ (mime_by_signature body ≠ "image/png" ->
       mime_by_signature body ≠ "image/gif" ->
       mime_by_signature body ≠ "image/webp" ->
       mime_by_signature body = "image/jpeg")
    ∧ mime_by_signature body ≠ ""
    ∧ mime_by_signature body ≠ "application/octet-stream").
  { unfold mime_by_signature.
    assert (Hriff :
      (∃ size tag rest,
         body = [82; 73; 70; 70]%N ++ size ++ tag ++ rest
         ∧ length size = 4%nat
         ∧ (fun b => N.land b 127) <$> tag = [87; 69; 66; 80]%N)
      <-> begins_with [82; 73; 70; 70]%N body = true ∧ webp_tag body = true).
    { rewrite begins_with_spec, webp_tag_spec. split.
      - intros (size & tag & rest & -> & Hsize & Htag). split.
        + now exists (size ++ tag ++ rest).
        + exists ([82; 73; 70; 70]%N ++ size), tag, rest.
          split; [now rewrite <- app_assoc|]. split; [|exact Htag].
          rewrite length_app, Hsize. reflexivity.
      - intros [[tail Htail] (head & tag & rest & Hbody & Hhead & Htag)].
        exists (drop 4 head), tag, rest.
        assert (Hfour : take 4 head = [82; 73; 70; 70]%N).
        { apply (f_equal (take 4)) in Hbody. rewrite Htail in Hbody.
          cbn [take app] in Hbody.
          rewrite take_app_le in Hbody by lia. symmetry. exact Hbody. }
        split; [|split; [rewrite length_drop; lia|exact Htag]].
        rewrite Hbody, <- Hfour, !app_assoc, take_drop. reflexivity. }
    rewrite Hriff.
    pose proof (begins_with_spec [255; 216; 255]%N body) as Hjpeg.
    pose proof (begins_with_spec [137; 80; 78; 71]%N body) as Hpng.
    pose proof (begins_with_spec [71; 73; 70; 56]%N body) as Hgif.
    pose proof (begins_with_spec [82; 73; 70; 70]%N body) as Hrf.
    destruct (begins_with [255; 216; 255]%N body) eqn:B1;
      destruct (begins_with [137; 80; 78; 71]%N body) eqn:B2;
      destruct (begins_with [71; 73; 70; 56]%N body) eqn:B3;
      destruct (begins_with [82; 73; 70; 70]%N body) eqn:B4;
      destruct (webp_tag body) eqn:B5.
    all: try (destruct (proj1 Hjpeg eq_refl) as [r1 E1]).
    all: try (destruct (proj1 Hpng eq_refl) as [r2 E2]).
    all: try (destruct (proj1 Hgif eq_refl) as [r3 E3]).
    all: try (destruct (proj1 Hrf eq_refl) as [r4 E4]).
    all: try (rewrite E1 in *); try (rewrite E2 in *); try (rewrite E3 in *);
      try (rewrite E4 in *).
    all: try discriminate.
    all: repeat split; intros; try discriminate; try congruence;
      try (eexists; reflexivity); try tauto.
    all: try match goal with
             | H : ∃ rest, _ = _ |- _ => destruct H as [? H]; discriminate H
             end.
    all: try match goal with
             | H : _ ∧ _ |- _ => destruct H; discriminate
             end.
    all: exfalso;
      match goal with
      | Hx : false = true <-> ?P, H : ?P |- _ => apply Hx in H; discriminate H
      end. }
  destruct Hsig as (Hp & Hg & Hw & Hj & He & Ho).
  unfold mime_type. fold contentType. fold body.
  destruct (String.eqb_spec contentType "") as [H1|H1];
    destruct (String.eqb_spec contentType "application/octet-stream")
      as [H2|H2]; cbn [orb].
  all: repeat split; try assumption; intros; try congruence; try tauto.
  all: try match goal with
           | H : _ ∨ _ |- _ => destruct H; congruence
           end.
Qed.

End ResolvingFiles.

(** ** The subscription check *)

Section SubscriptionCheck.

Import Subscription.

Lemma is_subscribed_status_spec (memberStatus : option string) :
  is_subscribed_status memberStatus = true
  <-> ∃ s, memberStatus = Some s ∧ s ∈ subscribedStatuses.
Proof.
  unfold is_subscribed_status, subscribedStatuses. split.
  - destruct memberStatus as [s|]; [|discriminate]. cbn.
    destruct (String.eqb s "member") eqn:H1;
      [apply String.eqb_eq in H1; subst; eexists; split; [reflexivity|set_solver]|].
    destruct (String.eqb s "administrator") eqn:H2;
      [apply String.eqb_eq in H2; subst; eexists; split; [reflexivity|set_solver]|].
    destruct (String.eqb s "creator") eqn:H3;
      [apply String.eqb_eq in H3; subst; eexists; split; [reflexivity|set_solver]|].
    discriminate.
  - intros (s & -> & Hs).
    repeat (apply elem_of_cons in Hs as [->|Hs]; [reflexivity|]).
    inversion Hs.
Qed.

(** X28. Access is given on positive evidence only: [is_subscribed] is true
    exactly when the bot token is configured, the request [getChatMember]
    was answered with [ok] and the status is [member], [administrator] or
    [creator]; every failure (no token, an exception, an error answer, a
    missing or unknown status) gives [is_subscribed = false]. The message
    agrees with the flag: it begins with the check mark exactly when the
    user is subscribed. The channel is always [@ferixdi_ai]. *)
Theorem subscription_on_positive_evidence (token : option string)
    (answer : outcome chat_member) :
  let r := execute token answer in
  (is_subscribed r = true
   <-> truthy token = true
       ∧ ∃ result s, answer = Returned result ∧ ok result = true
                     ∧ status result = Some s ∧ s ∈ subscribedStatuses)
  ∧ (is_subscribed r = true <-> String.prefix "✅" (message r) = true)
  ∧ channel r = "@ferixdi_ai".
Proof.
  cbn zeta. unfold execute.
  destruct (truthy token) eqn:Htok; cbn.
  2:{ repeat split; try discriminate. now intros [? _]. }
  destruct answer as [result|e]; cbn.
  2:{ repeat split; try discriminate. now intros (_ & ? & ? & ? & _). }
  destruct (ok result) eqn:Hok; cbn.
  - split; [|split; [|reflexivity]].
    + rewrite is_subscribed_status_spec. split.
      * intros (s & Hs & Hin). split; [reflexivity|]. now exists result, s.
      * intros (_ & result' & s & [= <-] & _ & Hs & Hin). now exists s.
    + unfold is_subscribed_status, status_message, subscribedStatuses.
      destruct (status result) as [s|]; cbn; [|split; discriminate].
      destruct (String.eqb s "member"); [split; reflexivity|].
      destruct (String.eqb s "administrator"); [split; reflexivity|].
      destruct (String.eqb s "creator"); [split; reflexivity|].
      cbn. destruct (String.eqb s "left"); [split; discriminate|].
      destruct (String.eqb s "kicked"); [split; discriminate|].
      destruct (String.eqb s "restricted"); split; discriminate.
  - assert (Hno : ¬ (true = true
                     ∧ ∃ result' s, Returned result = Returned result'
                                    ∧ ok result' = true
                                    ∧ status result' = Some s
                                    ∧ s ∈ subscribedStatuses)).
    { intros (_ & result' & s & [= <-] & Hok' & _). congruence. }
    destruct (bool_decide (error_code result = Some 400)
              && includes (description result) "user not found"); cbn;
      [|destruct (bool_decide (error_code result = Some 400)
                  && includes (description result) "chat not found"); cbn];
      (split; [split; [discriminate|intros H; destruct (Hno H)]|]);
      (split; [split; discriminate|reflexivity]).
Qed.

End SubscriptionCheck.

(** ** Referrals *)

Section Referrals.

Import Referral.

Lemma existsb_referred (rows : list referral) (u : string) :
  existsb (fun r => String.eqb (referred_user_id r) u) rows = false ->
  u ∉ referred_user_id <$> rows.
Proof.
  induction rows as [|r rows IH]; cbn; intros H Hin.
  - inversion Hin.
  - apply orb_false_iff in H as [Hr Hrest].
    apply elem_of_cons in Hin as [->|Hin].
    + now rewrite String.eqb_refl in Hr.
    + now apply IH.
Qed.

Lemma find_is_user (code : string) (l : list (string * option string))
    (u : string * option string) :
  List.find (fun u : string * option string => bool_decide (u.2 = Some code)) l
  = Some u ->
  u.1 ∈ l.*1.
Proof.
  induction l as [|a l IH]; cbn; [discriminate|].
  destruct (bool_decide _).
  - intros [= ->]. left.
  - intros H. right. now apply IH.
Qed.

Lemma processReferral_sound (fails : nat -> bool) (now : Z) (d : db)
    (referredUserId referralCode : string) :
  sound d ->
  let d' := (processReferral fails now d referredUserId referralCode).2 in
  sound d' ∧ ref_users d' = ref_users d
  ∧ ref_rows d `prefix_of` ref_rows d'.
Proof.
  intros (Hnd & Hself & Husers). unfold processReferral.
  destruct (fails 0%nat); [now repeat split|].
  destruct (List.find _ _) as [referrer|] eqn:Hfind; [|now repeat split].
  destruct (String.eqb referrer.1 referredUserId) eqn:Heq; [now repeat split|].
  destruct (fails 1%nat); [now repeat split|].
  destruct (existsb _ _) eqn:Hex; [now repeat split|].
  destruct (fails 2%nat); [now repeat split|].
  apply String.eqb_neq in Heq. apply existsb_referred in Hex.
  unfold sound. cbn [snd ref_rows ref_users].
  split; [|split; [reflexivity|now apply prefix_app_r]].
  split; [|split].
  - rewrite fmap_app. cbn. apply NoDup_app. split; [exact Hnd|].
    split; [|apply NoDup_singleton].
    intros x Hx Hx'. apply list_elem_of_singleton in Hx'. now subst x.
  - apply Forall_app. split; [exact Hself|]. now apply Forall_singleton.
  - apply Forall_app. split; [exact Husers|]. apply Forall_singleton.
    cbn. now apply (find_is_user referralCode).
Qed.

(** X29. Referrals stay sound, whatever is asked and whatever fails: after
    any number of [processReferral] invocations made one after the other on
    tables where no user is referred twice, nobody has referred themselves
    and every referrer is a user, the same holds; the invocations never
    change the users and only append to the referrals. *)
Theorem referrals_stay_sound (invocations : list invocation) :
  ∀ d : db,
    sound d ->
    sound (process_all invocations d)
    ∧ ref_users (process_all invocations d) = ref_users d
    ∧ ref_rows d `prefix_of` ref_rows (process_all invocations d).
Proof.
  induction invocations as [|i rest IH]; intros d Hd; cbn [process_all].
  - split; [exact Hd|]. split; reflexivity.
  - destruct (processReferral_sound (inv_fails i) (inv_now i) d (inv_user i)
                (inv_code i) Hd) as (Hs & Hu & Hp).
    destruct (IH _ Hs) as (Hs' & Hu' & Hp').
    split; [exact Hs'|]. split; [now rewrite Hu'|].
    now transitivity
          (ref_rows (processReferral (inv_fails i) (inv_now i) d (inv_user i)
                       (inv_code i)).2).
Qed.

(** X30. [processReferral] says [success] exactly when it has recorded the
    referral: a call that returns [success: true] has appended one record,
    for the referred user, the given code and a referrer who owns that code
    and is another user; a call that returns [success: false], for whatever
    reason (unknown code, own code, user already referred, a database call
    that throws), leaves both tables as they were. *)
Theorem referral_success_means_recorded (fails : nat -> bool) (now : Z)
    (d : db) (referredUserId referralCode : string) :
  let answer := processReferral fails now d referredUserId referralCode in
  (success answer.1 = false ->
   answer.2 = d ∧ referrerUserId answer.1 = None)
  ∧ (success answer.1 = true ->
     ∃ referrer,
       referrerUserId answer.1 = Some referrer
       ∧ referrer ≠ referredUserId
       ∧ (referrer, Some referralCode) ∈ ref_users d
       ∧ (referredUserId ∉ referred_user_id <$> ref_rows d)
       ∧ ref_users answer.2 = ref_users d
       ∧ ref_rows answer.2
         = ref_rows d
           ++ [{| referrer_user_id := referrer;
                  referred_user_id := referredUserId;
                  referral_code := referralCode;
                  created_at := now |}]).
Proof.
  cbn zeta. unfold processReferral.
  destruct (fails 0%nat); [now split|].
  destruct (List.find _ _) as [referrer|] eqn:Hfind; [|now split].
  destruct (String.eqb referrer.1 referredUserId) eqn:Heq; [now split|].
  destruct (fails 1%nat); [now split|].
  destruct (existsb _ _) eqn:Hex; [now split|].
  destruct (fails 2%nat); [now split|].
  cbn [fst snd success referrerUserId ref_users ref_rows].
  split; [discriminate|]. intros _. exists referrer.1.
  apply String.eqb_neq in Heq. apply existsb_referred in Hex.
  apply List.find_some in Hfind as [Hin Hcode].
  apply bool_decide_eq_true in Hcode.
  repeat split; try assumption.
  apply list_elem_of_In. destruct referrer as [u c]. cbn in *. now subst c.
Qed.

(** X29 at the sample tables: of the three invocations only the first is
    recorded. *)
Lemma referrals_stay_sound_witness :
  sound (process_all sample_invocations sample_db)
  ∧ length (ref_rows (process_all sample_invocations sample_db)) = 1%nat.
Proof.
  destruct (referrals_stay_sound sample_invocations sample_db) as (Hs & _).
  - split; [constructor|]. split; constructor.
  - split; [exact Hs|reflexivity].
Defined.

End Referrals.

(** ** The properties at the sample worlds *)

Section MoreSamples.

Import UserLimits.

(** X3 at the user ["42"] with one generation today: of five reservations
    in a private chat, two are granted. *)
Lemma sequential_reservations_granted_witness :
  ∃ rs w',
    run (reserve_times 5 "42" "bob" "private")
      (sample_world sample_env 1 20000) = (Returned rs, w')
    ∧ Z.of_nat (grants rs) = 2.
Proof.
  destruct (sequential_reservations_granted 5
              (sample_world sample_env 1 20000) "42" "bob" "private")
    as (rs & w' & Hrun & _ & Hgr).
  - apply sample_env_quiet.
  - discriminate.
  - exists rs, w'. split; [exact Hrun|]. rewrite Hgr. reflexivity.
Defined.

(** X4 at the user ["42"] with one generation today. *)
Lemma reserve_then_release_restores_witness :
  ∃ r w1 w2,
    run (reserveGenerationSlot "42" "bob" "private")
      (sample_world sample_env 1 20000) = (Returned r, w1)
    ∧ run (releaseReservedSlot "42") w1 = (Returned tt, w2)
    ∧ daily_image_count <$> (users w2 !! "42") = Some 1.
Proof.
  destruct (reserve_then_release_restores
              (sample_world sample_env 1 20000) "42" "bob" "private")
    as (r & w1 & w2 & Hrun1 & _ & Hrun2 & Hu).
  - apply sample_env_quiet.
  - discriminate.
  - vm_compute. split; discriminate.
  - vm_compute. reflexivity.
  - exists r, w1, w2. split; [exact Hrun1|]. split; [exact Hrun2|].
    rewrite Hu. reflexivity.
Defined.

(** X5 at the user ["42"] with two generations today, released five
    times. *)
Lemma repeated_release_floor_witness :
  ∃ w',
    run (release_times 5 "42") (sample_world sample_env 2 20000)
    = (Returned tt, w')
    ∧ daily_image_count <$> (users w' !! "42") = Some 0.
Proof.
  destruct (repeated_release_floor 5 (sample_world sample_env 2 20000) "42"
              {| username := "bob"; daily_image_count := 2;
                 last_reset_date := 20000 |})
    as (w' & Hrun & Hu).
  - apply sample_env_quiet.
  - discriminate.
  - reflexivity.
  - reflexivity.
  - vm_compute. discriminate.
  - exists w'. split; [exact Hrun|]. rewrite Hu. reflexivity.
Defined.

(** X6 at the user ["42"] with one generation today. *)
Lemma stats_foretell_reservation_witness :
  ∃ s r,
    (run (getUserStats "42" "private") (sample_world sample_env 1 20000)).1
    = Returned (Some s)
    ∧ (run (reserveGenerationSlot "42" "bob" "private")
         (sample_world sample_env 1 20000)).1 = Returned r
    ∧ canGenerate s = canGenerate r.
Proof.
  destruct (stats_foretell_reservation (sample_world sample_env 1 20000)
              "42" "bob" "private"
              {| username := "bob"; daily_image_count := 1;
                 last_reset_date := 20000 |})
    as (s & r & Hs & Hr & Hcan & _).
  - apply sample_env_quiet.
  - discriminate.
  - reflexivity.
  - exists s, r. split; [exact Hs|]. split; [exact Hr|exact Hcan].
Defined.

End MoreSamples.

Section WorkflowSamples.

Import Workflow.

(** X10 at the user ["42"] with three generations today. *)
Lemma step1_refuses_at_limit_witness :
  ∃ out w',
    run (step1 sample_message) (sample_world sample_env 3 20000)
    = (Returned out, w')
    ∧ success out = false
    ∧ List.filter is_generation
        (calls_since (sample_world sample_env 3 20000) w') = [].
Proof.
  destruct (step1_refuses_at_limit (sample_world sample_env 3 20000)
              sample_message)
    as (out & w' & Hrun & Hs & _ & _ & Hcalls).
  - reflexivity.
  - discriminate.
  - reflexivity.
  - reflexivity.
  - reflexivity.
  - vm_compute. discriminate.
  - exists out, w'. split; [exact Hrun|]. split; [exact Hs|].
    rewrite Hcalls. reflexivity.
Defined.

(** X11 where the generator throws: the user ["42"] keeps the count 1. *)
Lemma step1_compensates_failed_generation_witness :
  ∃ out w',
    run (step1 sample_message)
      (sample_world (with_fault 4 "fetch failed" sample_env) 1 20000)
    = (Returned out, w')
    ∧ success out = false
    ∧ daily_image_count <$> (users w' !! "42") = Some 1.
Proof.
  destruct (step1_compensates_failed_generation
              (sample_world (with_fault 4 "fetch failed" sample_env) 1 20000)
              sample_message)
    as (out & w' & Hrun & Hs & _ & Hu & _).
  - reflexivity.
  - discriminate.
  - reflexivity.
  - reflexivity.
  - reflexivity.
  - vm_compute. reflexivity.
  - vm_compute. split; discriminate.
  - left. discriminate.
  - reflexivity.
  - reflexivity.
  - exists out, w'. split; [exact Hrun|]. split; [exact Hs|].
    change (in_userId sample_message) with "42" in Hu.
    rewrite Hu. reflexivity.
Defined.

(** X12 at the greeting. *)
Lemma step1_early_answers_cost_nothing_witness :
  ∃ out,
    run (step1 sample_greeting) (sample_world sample_env 3 20000)
    = (Returned out, sample_world sample_env 3 20000)
    ∧ success out = true.
Proof.
  destruct (step1_early_answers_cost_nothing
              (sample_world sample_env 3 20000) sample_greeting)
    as (out & Hrun & Hs & _).
  - reflexivity.
  - exists out. split; [exact Hrun|exact Hs].
Defined.

(** X13 at the administrator, with a generator that reports a failure. *)
Lemma step1_admin_failure_releases_nothing_witness :
  ∃ out w',
    run (step1 sample_admin_message) (sample_world generator_fails 0 20000)
    = (Returned out, w')
    ∧ response out = "❌ safety filter"
    ∧ List.filter writes_quota
        (calls_since (sample_world generator_fails 0 20000) w') = [].
Proof.
  destruct (step1_admin_failure_releases_nothing
              (sample_world generator_fails 0 20000) sample_admin_message)
    as (out & w' & Hrun & _ & _ & Hr & _ & Hcalls).
  - reflexivity.
  - reflexivity.
  - reflexivity.
  - reflexivity.
  - reflexivity.
  - exists out, w'. split; [exact Hrun|]. split; [exact Hr|].
    rewrite Hcalls. reflexivity.
Defined.

(** X15 where the increment of the counter throws after the delivery. *)
Lemma step2_delivery_survives_later_failures_witness :
  (run (step2 sample_generated)
     (sample_world (with_fault 4 "connection terminated" sample_env) 1 20000)).1
  = Returned {| sent := true; sentMessageId := Some "77" |}.
Proof.
  apply (step2_delivery_survives_later_failures
           (sample_world (with_fault 4 "connection terminated" sample_env)
              1 20000) sample_generated).
  - reflexivity.
  - reflexivity.
  - reflexivity.
  - reflexivity.
  - reflexivity.
Defined.

End WorkflowSamples.

Section GeneratorSamples.

Import NanoBanano.

(** X16 at an environment without the key. *)
Lemma generator_without_key_witness :
  ∃ res w',
    run (generateNanoBananoImage sample_request)
      (sample_world without_key 0 20000) = (Returned res, w')
    ∧ success res = false
    ∧ users w' = users (sample_world without_key 0 20000).
Proof.
  destruct (generator_without_key (sample_world without_key 0 20000)
              sample_request)
    as (w' & Hrun & Hu & _).
  - reflexivity.
  - eexists _, w'. split; [exact Hrun|]. split; [reflexivity|exact Hu].
Defined.

(** X17 where the storage says the limit is reached and every method would
    deliver. *)
Lemma generator_turns_away_over_limit_witness :
  ∃ res w',
    run (generateNanoBananoImage sample_request)
      (sample_world over_limit 0 20000) = (Returned res, w')
    ∧ limitReached res = true
    ∧ method_calls (calls_since (sample_world over_limit 0 20000) w') = [].
Proof.
  destruct (generator_turns_away_over_limit (sample_world over_limit 0 20000)
              sample_request)
    as (w' & Hrun & Hcalls & _).
  - reflexivity.
  - reflexivity.
  - reflexivity.
  - reflexivity.
  - vm_compute. intros H. apply list_elem_of_singleton in H. discriminate.
  - eexists _, w'. split; [exact Hrun|]. split; [reflexivity|exact Hcalls].
Defined.

(** X18 where every method reports a failure. *)
Lemma failed_generation_writes_nothing_witness :
  ∃ res w',
    run (generateNanoBananoImage sample_request)
      (sample_world sample_env 0 20000) = (Returned res, w')
    ∧ generations w' = [].
Proof.
  destruct (failed_generation_writes_nothing
              (sample_world sample_env 0 20000) sample_request)
    as (res & w' & Hrun & _ & Hg & _).
  - intros n. reflexivity.
  - reflexivity.
  - left. reflexivity.
  - intros m _. now destruct m.
  - exists res, w'. split; [exact Hrun|exact Hg].
Defined.

(** X19 where the first method delivers: the user ["42"] goes from no
    generation today to one. *)
Lemma returned_image_recorded_once_witness :
  ∃ res w',
    run (generateNanoBananoImage sample_request)
      (sample_world (with_methods (fun _ => delivers "Zmlyc3Q=") sample_env)
         0 20000) = (Returned res, w')
    ∧ dailyCount res = Some 1
    ∧ length (generations w') = 1%nat.
Proof.
  destruct (returned_image_recorded_once
              (sample_world (with_methods (fun _ => delivers "Zmlyc3Q=") sample_env)
                 0 20000) sample_request)
    with (r := {| mr_success := true; mr_imageBase64 := Some "Zmlyc3Q=";
                  mr_message := None |})
    as (res & w' & row & Hrun & _ & Hg & _ & Hdc & Hcnt & _).
  - intros n. reflexivity.
  - reflexivity.
  - left. reflexivity.
  - reflexivity.
  - reflexivity.
  - reflexivity.
  - exists res, w'. split; [exact Hrun|].
    split; [rewrite Hdc, Hcnt; reflexivity|]. rewrite Hg. reflexivity.
Defined.

End GeneratorSamples.

Section LimiterSamples.

Import RateLimit.

(** X21 at the storage of two requests: a look at 3000 does not change what
    a request at 3500 is told. *)
Lemma usage_stats_do_not_consume_witness :
  checkLimit sample_limiter
    (getUsageStats sample_limiter sample_storage 3000 "42").2 3500 "42" true
  = checkLimit sample_limiter sample_storage 3500 "42" true.
Proof.
  apply (usage_stats_do_not_consume sample_limiter sample_storage 3000 3500
           "42" "42" true).
  lia.
Defined.

(** X22 at the sample requests: in the hour that ends at 3600000 the user
    ["42"] has at most two allowed requests. *)
Lemma rolling_window_never_exceeded_witness :
  (in_window sample_limiter "42" 3600000
     (serve sample_limiter ∅ sample_requests) <= 2)%nat.
Proof.
  apply (rolling_window_never_exceeded sample_limiter sample_requests 0
           "42" 3600000).
  vm_compute. repeat split; discriminate.
Defined.

(** X23 at the storage of two requests, looked at at 3000: the reset time
    is 3601000, and a look at that instant counts one request less. *)
Lemma reset_time_is_first_relief_witness :
  totalRequests
    (checkLimit sample_limiter
       (checkLimit sample_limiter sample_storage 3000 "42" false).2
       3601000 "42" false).1
  < totalRequests (checkLimit sample_limiter sample_storage 3000 "42" false).1.
Proof.
  apply (reset_time_is_first_relief sample_limiter sample_storage 3000 3601000
           "42").
  - vm_compute. reflexivity.
  - lia.
  - vm_compute. discriminate.
Defined.

End LimiterSamples.

Section BackoffSamples.

Import Backoff.

(** X25 at the default options and an operation that succeeds at its third
    invocation. *)
Lemma backoff_answer_is_last_invocation_witness :
  let '(r, _, calls) := execute defaults sample_attempts (fun _ => true) in
  (1 <= calls)%nat ∧ r = sample_attempts (calls - 1)%nat.
Proof.
  pose proof (backoff_answer_is_last_invocation defaults sample_attempts
                (fun _ => true)) as H.
  destruct (execute defaults sample_attempts (fun _ => true))
    as [[r delays] calls].
  destruct H as (H1 & H2 & _).
  - vm_compute. discriminate.
  - split; [exact H1|exact H2].
Defined.

End BackoffSamples.
